(** * countdown-as-a-service: the job registry, its timers and the status view

    A shallow embedding of [main.go].  The program keeps three globals behind
    one mutex ([history], [historyOrder], [nextEntryID]), creates a job per
    POST on /start, lets one goroutine per job mark it completed after its
    delay, and derives a status view from a stored entry and the clock.

    Conventions of the embedding:
    - Go's [int] and [int64] (the program targets a 64-bit platform) are [Z]
      with the two's-complement wrap-around written out ([GoInt.wrap]);
    - a [time.Time] is the instant it denotes, in nanoseconds on the
      process's monotonic clock; a [time.Duration] is an [int64] count of
      nanoseconds;
    - [float64] arithmetic is the IEEE 754 binary64 arithmetic of
      [SpecFloat] (precision 53, emax 1024);
    - the code under the mutex is atomic, so each handler's critical section
      is one function on the registry state; every reading of the clock is
      an explicit argument;
    - a run of the server is a sequence of atomic steps (POSTs on /start and
      timer goroutines waking up, in any order).  The moment a timer wakes
      is not constrained, so every schedule of the critical sections of the
      real program is a run.  In a [World] the timer of a new job is asleep
      as soon as the job is stored; the finer [Server] below keeps the
      statement [go runTimer(jobID, delay)], which the handler reaches after
      [mu.Unlock()], as a step of its own;
    - a [for ... range history] visits the map in an order the handler does
      not choose: the visited pairs are an argument of the list handlers.

    Left out: the HTML and JSON rendering and the log lines. *)

From Stdlib Require Import ZArith Lia Ascii String.
From Stdlib Require Import Floats.SpecFloat.
From stdpp Require Import gmap list strings.

Local Open Scope Z_scope.

(** ** Go's machine integers *)

Module GoInt.

Definition minInt : Z := - 2 ^ 63.
Definition maxInt : Z := 2 ^ 63 - 1.

(** Two's-complement reduction of a mathematical integer to 64 bits. *)
Definition wrap (z : Z) : Z := (z + 2 ^ 63) mod 2 ^ 64 - 2 ^ 63.

Definition inRange (z : Z) : Prop := minInt <= z <= maxInt.

Definition add (a b : Z) : Z := wrap (a + b).
Definition sub (a b : Z) : Z := wrap (a - b).
Definition mul (a b : Z) : Z := wrap (a * b).

End GoInt.

(** ** The parts of package [time] the program uses *)

Module GoTime.

(** An instant, in nanoseconds. *)
Definition Time : Type := Z.

(** [time.Duration]: an [int64] nanosecond count. *)
Definition Duration : Type := Z.

Definition Second : Duration := 1000000000.

Definition minDuration : Duration := GoInt.minInt.
Definition maxDuration : Duration := GoInt.maxInt.

(** [time.Duration(n) * time.Second]: an [int64] product. *)
Definition seconds_to_Duration (n : Z) : Duration := GoInt.mul n Second.

(** [t.Add(d)]. *)
Definition Add (t : Time) (d : Duration) : Time := t + d.

(** [t.After(u)]: strictly later. *)
Definition After (t u : Time) : bool := u <? t.

(** [t.Sub(u)] on monotonic readings ([subMono]): the [int64] difference,
    saturated when it does not fit. *)
Definition Sub (t u : Time) : Duration :=
  let d := GoInt.wrap (t - u) in
  if (d <? 0) && (u <? t) then maxDuration
  else if (0 <? d) && (t <? u) then minDuration
  else d.

(** [time.Since(t)] where the clock reads [now]. *)
Definition Since (now t : Time) : Duration := Sub now t.

(** binary64 *)
Definition prec : Z := 53.
Definition emax : Z := 1024.

(** [float64(n)] for an integer [n]: rounded to nearest, ties to even. *)
Definition float64_of_int (n : Z) : spec_float :=
  binary_normalize prec emax n 0 false.

(** The constant [1e9] as a [float64]. *)
Definition float64_1e9 : spec_float := float64_of_int 1000000000.

(** [int(f)] for a [float64]: the fraction is discarded (truncation
    towards zero).  The values converted here are finite and far inside
    the [int] range; the other cases are given 0. *)
Definition int_of_float64 (f : spec_float) : Z :=
  match f with
  | S754_finite s m e =>
      let a := match e with
               | Zneg p => Z.pos m / 2 ^ Z.pos p
               | _ => Z.pos m * 2 ^ e
               end in
      if s then - a else a
  | _ => 0
  end.

(** [d.Seconds()]:
    [sec := d / Second; nsec := d % Second;
     return float64(sec) + float64(nsec)/1e9]
    with Go's truncated integer division and remainder. *)
Definition Seconds (d : Duration) : spec_float :=
  let sec := Z.quot d Second in
  let nsec := Z.rem d Second in
  SFadd prec emax (float64_of_int sec)
        (SFdiv prec emax (float64_of_int nsec) float64_1e9).

End GoTime.

Import GoTime.

(** ** Data model *)

(** [type DelayEntry struct]; [CompletedTime *time.Time] is [nil] or points
    to a time of its own. *)
Record DelayEntry : Type := mkDelayEntry {
  ID : Z;
  Name : string;
  DateTimeAdded : Time;
  TotalDelaySecs : Z;
  IsCompleted : bool;
  CompletedTime : option Time
}.

(** [type ApiStatusResponse struct]. *)
Module Api.

Record ApiStatusResponse : Type := mkApiStatusResponse {
  ID : Z;
  Name : string;
  DateTimeAdded : Time;
  TotalDelaySecs : Z;
  Status : string;
  ElapsedTimeSecs : Z;
  RemainingTimeSecs : Z;
  CompletedTime : option Time
}.

End Api.

Abbreviation ApiStatusResponse := Api.ApiStatusResponse.

(** ** Status derivation *)

(** [getStatusDetails(entry)].  The function reads the clock twice:
    [time.Since(entry.DateTimeAdded)] sees [tSince] and the later
    [time.Now()] of the test sees [tNow].  The result is
    [(elapsedSecs, currentStatus, statusClass)]. *)
Definition getStatusDetails (entry : DelayEntry) (tSince tNow : Time)
  : Z * string * string :=
  let expectedCompletionTime :=
    Add (DateTimeAdded entry) (seconds_to_Duration (TotalDelaySecs entry)) in
  let elapsedDuration := Since tSince (DateTimeAdded entry) in
  let elapsedSecs := int_of_float64 (Seconds elapsedDuration) in
  if IsCompleted entry || After tNow expectedCompletionTime
  then (TotalDelaySecs entry, "completed"%string, "status-complete"%string)
  else (elapsedSecs, "in-progress"%string, "status-progress"%string).


(** The view the detail and list handlers build around [getStatusDetails]:
    [remainingSecs := entry.TotalDelaySecs - elapsedSecs], clamped at 0. *)
Definition remainingSecs (entry : DelayEntry) (elapsedSecs : Z) : Z :=
  let r := GoInt.sub (TotalDelaySecs entry) elapsedSecs in
  if r <? 0 then 0 else r.

Definition apiResponse (entry : DelayEntry) (tSince tNow : Time)
  : ApiStatusResponse :=
  let '(elapsedSecs, currentStatus, _) := getStatusDetails entry tSince tNow in
  {| Api.ID := ID entry;
     Api.Name := Name entry;
     Api.DateTimeAdded := DateTimeAdded entry;
     Api.TotalDelaySecs := TotalDelaySecs entry;
     Api.Status := currentStatus;
     Api.ElapsedTimeSecs := elapsedSecs;
     Api.RemainingTimeSecs := remainingSecs entry elapsedSecs;
     Api.CompletedTime := CompletedTime entry |}.

(** ** The registry *)

(** The globals guarded by [mu]. *)
Record State : Type := mkState {
  history : gmap Z DelayEntry;
  historyOrder : list Z;
  nextEntryID : Z
}.

Definition maxHistory : Z := 10.

(** The state the program starts in. *)
Definition initState : State :=
  {| history := ∅; historyOrder := []; nextEntryID := 1 |}.

(** The loop of [keepHistoryBounded]:
    [for len(historyOrder) > maxHistory { ... }]. *)
Fixpoint keepHistoryBounded_loop (order : list Z) (h : gmap Z DelayEntry)
  : list Z * gmap Z DelayEntry :=
  match order with
  | oldestID :: rest =>
      if maxHistory <? Z.of_nat (length order)
      then keepHistoryBounded_loop rest (delete oldestID h)
      else (order, h)
  | [] => (order, h)
  end.

Definition keepHistoryBounded (st : State) : State :=
  if Z.of_nat (length (historyOrder st)) <=? maxHistory then st
  else
    let '(order, h) := keepHistoryBounded_loop (historyOrder st) (history st) in
    {| history := h; historyOrder := order; nextEntryID := nextEntryID st |}.

(** ** [strconv.Atoi] *)

Module Strconv.

Definition digit (c : ascii) : option Z :=
  let n := Z.of_N (N_of_ascii c) in
  if (48 <=? n) && (n <=? 57) then Some (n - 48) else None.

Fixpoint digits (acc : Z) (s : string) : option Z :=
  match s with
  | EmptyString => Some acc
  | String c s' =>
      match digit c with
      | Some d => digits (acc * 10 + d) s'
      | None => None
      end
  end.

(** An optional sign, then one or more decimal digits; a value outside
    the [int] range is an error. *)
Definition Atoi (s : string) : option Z :=
  match s with
  | EmptyString => None
  | String c rest =>
      let '(neg, body) :=
        if Ascii.eqb c "-"%char then (true, rest)
        else if Ascii.eqb c "+"%char then (false, rest)
        else (false, s) in
      match body with
      | EmptyString => None
      | _ =>
          match digits 0 body with
          | Some n =>
              let v := if neg : bool then - n else n in
              if (GoInt.minInt <=? v) && (v <=? GoInt.maxInt)
              then Some v else None
          | None => None
          end
      end
  end.

End Strconv.

(** ** Handlers and timers *)

(** Registry plus the goroutines started by [go runTimer(jobID, delay)]
    that are still in their [time.Sleep]. *)
Record World : Type := mkWorld {
  registry : State;
  sleeping : list (Z * Z)
}.

Definition initWorld : World := {| registry := initState; sleeping := [] |}.

(** What the POST branch of [startHandler] answers. *)
Inductive StartResult : Type :=
| InvalidDelay            (* http.Error(w, "Invalid delay value", 400) *)
| Created (jobID : Z).    (* job logged and armed, 303 redirect to "/" *)

(** The first half of the critical section of the POST branch: the new
    entry is stored under [nextEntryID] and its ID appended to the order. *)
Definition insertEntry (st : State) (jobName : string) (delay : Z) (now : Time)
  : State :=
  let newEntry :=
    {| ID := nextEntryID st;
       Name := jobName;
       DateTimeAdded := now;
       TotalDelaySecs := delay;
       IsCompleted := false;
       CompletedTime := None |} in
  {| history := <[nextEntryID st := newEntry]> (history st);
     historyOrder := historyOrder st ++ [nextEntryID st];
     nextEntryID := nextEntryID st |}.

(** The whole critical section, from [mu.Lock()] to [mu.Unlock()]: insert,
    bound the history, take [jobID := nextEntryID] and increment the
    counter.  Returns the new state and the local [jobID]. *)
Definition createEntry (st : State) (jobName : string) (delay : Z) (now : Time)
  : State * Z :=
  let st2 := keepHistoryBounded (insertEntry st jobName delay now) in
  let jobID := nextEntryID st2 in
  ({| history := history st2;
      historyOrder := historyOrder st2;
      nextEntryID := GoInt.add (nextEntryID st2) 1 |}, jobID).

(** [startHandler], [case http.MethodPost], with the form values
    [delay] and [name] and the clock reading of [time.Now()].  The timer of
    the new job is asleep at the end of this step; [startHandler_locked]
    and [goRunTimer] below split it at [mu.Unlock()]. *)
Definition startHandler_POST (w : World) (delayStr jobName : string) (now : Time)
  : World * StartResult :=
  match Strconv.Atoi delayStr with
  | None => (w, InvalidDelay)
  | Some delay =>
      if delay <? 1 then (w, InvalidDelay)
      else
        let '(st, jobID) := createEntry (registry w) jobName delay now in
        ({| registry := st; sleeping := sleeping w ++ [(jobID, delay)] |},
         Created jobID)
  end.

(** [runTimer] once its [time.Sleep] has returned: the critical section,
    where [time.Now()] reads [now]. *)
Definition runTimer (st : State) (jobID : Z) (now : Time) : State :=
  match history st !! jobID with
  | Some entry =>
      let entry' :=
        {| ID := ID entry;
           Name := Name entry;
           DateTimeAdded := DateTimeAdded entry;
           TotalDelaySecs := TotalDelaySecs entry;
           IsCompleted := true;
           CompletedTime := Some now |} in
      {| history := <[jobID := entry']> (history st);
         historyOrder := historyOrder st;
         nextEntryID := nextEntryID st |}
  | None => st
  end.

(** What the detail handlers answer once the job ID is parsed from the
    path. *)
Inductive DetailResult (A : Type) : Type :=
| NotFound (jobID : Z)    (* http.Error(w, "Job ID %d not found.", 404) *)
| Found (page : A).
Arguments NotFound {A} jobID.
Arguments Found {A} page.

(** [apiStatusDetailHandler]: lookup under the lock, then the view. *)
Definition apiStatusDetailHandler (st : State) (jobID : Z) (tSince tNow : Time)
  : State * DetailResult ApiStatusResponse :=
  match history st !! jobID with
  | None => (st, NotFound jobID)
  | Some entry => (st, Found (apiResponse entry tSince tNow))
  end.

(** The values [statusDetailHandler] prints on its HTML page. *)
Record StatusPage : Type := mkStatusPage {
  pJobID : Z;
  pName : string;
  pStatus : string;
  pRemaining : option Z;      (* printed only while "in-progress" *)
  pTotalDelaySecs : Z;
  pDateTimeAdded : Time;
  pCompletedTime : option Time
}.

Definition statusDetailHandler (st : State) (jobID : Z) (tSince tNow : Time)
  : State * DetailResult StatusPage :=
  match history st !! jobID with
  | None => (st, NotFound jobID)
  | Some entry =>
      let '(elapsedSecs, currentStatus, _) :=
        getStatusDetails entry tSince tNow in
      let remaining := remainingSecs entry elapsedSecs in
      (st, Found {| pJobID := jobID;
                    pName := Name entry;
                    pStatus := currentStatus;
                    pRemaining :=
                      if String.eqb currentStatus "in-progress"
                      then Some remaining else None;
                    pTotalDelaySecs := TotalDelaySecs entry;
                    pDateTimeAdded := DateTimeAdded entry;
                    pCompletedTime := CompletedTime entry |})
  end.

(** ** Runs of the server *)

(** The atomic steps that change the shared state: a POST on /start, and a
    sleeping timer goroutine waking up (the [k]-th of those pending).  No
    order between wake-ups is assumed. *)
Inductive Op : Type :=
| PostStart (delayStr jobName : string) (now : Time)
| TimerFires (k : nat) (now : Time).

Definition exec (w : World) (op : Op) : World :=
  match op with
  | PostStart delayStr jobName now =>
      fst (startHandler_POST w delayStr jobName now)
  | TimerFires k now =>
      match sleeping w !! k with
      | Some (jobID, _) =>
          {| registry := runTimer (registry w) jobID now;
             sleeping := delete k (sleeping w) |}
      | None => w
      end
  end.

Definition run (w : World) (ops : list Op) : World := fold_left exec ops w.

(** The job IDs handed out along a run, in the order of the creates. *)
Fixpoint issuedIDs (w : World) (ops : list Op) : list Z :=
  match ops with
  | [] => []
  | op :: ops' =>
      let ids := issuedIDs (exec w op) ops' in
      match op with
      | PostStart delayStr jobName now =>
          match snd (startHandler_POST w delayStr jobName now) with
          | Created jobID => jobID :: ids
          | InvalidDelay => ids
          end
      | TimerFires _ _ => ids
      end
  end.


(** Projections of the triple [getStatusDetails] returns. *)
Definition elapsedOf (r : Z * string * string) : Z := fst (fst r).
Definition statusOf (r : Z * string * string) : string := snd (fst r).

(** ** Invariant of the registry *)

(** The [maxHistory] most recent elements of a list in creation order. *)
Definition mostRecent (ids : list Z) : list Z :=
  drop (length ids - Z.to_nat maxHistory) ids.

(** The IDs the registry holds after [n] creates: the last
    [min n maxHistory] of [1, 2, ..., n], as 64-bit [int]s. *)
Definition idWindow (n : Z) : list Z :=
  GoInt.wrap <$> seqZ (1 + n - Z.min n maxHistory) (Z.min n maxHistory).

(** The lookup table and the insertion order describe the same jobs. *)
Definition consistent (st : State) : Prop :=
  dom (history st) = list_to_set (historyOrder st) /\
  NoDup (historyOrder st).

(** The registry after [n] successful creates. *)
Record RegistryInv (n : Z) (st : State) : Prop := mkRegistryInv {
  inv_count : 0 <= n;
  inv_next : nextEntryID st = GoInt.wrap (1 + n);
  inv_order : historyOrder st = idWindow n;
  inv_dom : dom (history st) = list_to_set (historyOrder st);
  inv_ids : forall id e, history st !! id = Some e -> ID e = id
}.

(** The timers still asleep after [n] creates: one per job at most, for
    issued jobs only, and none for a job that is already completed. *)
Record TimersInv (n : Z) (w : World) : Prop := mkTimersInv {
  tinv_registry : RegistryInv n (registry w);
  tinv_bound : n <= GoInt.maxInt;
  tinv_nodup : NoDup (fst <$> sleeping w);
  tinv_issued : forall id, id ∈ (fst <$> sleeping w) -> 1 <= id <= n;
  tinv_keys : forall id, id ∈ historyOrder (registry w) -> 1 <= id <= n;
  tinv_fired : forall id e,
    history (registry w) !! id = Some e -> IsCompleted e = true ->
    id ∉ (fst <$> sleeping w)
}.

(** ** Sample jobs and runs used in the examples below *)

(** A five-second job created at time 0. *)
Definition job5 : DelayEntry :=
  {| ID := 1; Name := "tea"; DateTimeAdded := 0; TotalDelaySecs := 5;
     IsCompleted := false; CompletedTime := None |}.

Definition job5_done : DelayEntry :=
  {| ID := 1; Name := "tea"; DateTimeAdded := 0; TotalDelaySecs := 5;
     IsCompleted := true; CompletedTime := Some (5 * Second + 7) |}.


(** A job of 20,000,000 seconds (about 231 days). *)
Definition job_231_days : DelayEntry :=
  {| ID := 1; Name := "slow"; DateTimeAdded := 0;
     TotalDelaySecs := 20000000;
     IsCompleted := false; CompletedTime := None |}.

(** [n] valid POSTs on /start. *)
Definition posts (n : nat) : list Op := repeat (PostStart "3" "job" 0) n.

(** The registry after one POST of a five-second job at time 0. *)
Definition st_one : State := registry (run initWorld [PostStart "5" "tea" 0]).

(** ** Request paths and links *)

(** The calls of package [strings] and the integer formatting of [fmt] that
    the handlers make. *)
Module Strings.

(** [strings.TrimSuffix(s, "/")]: one trailing slash is dropped. *)
Fixpoint TrimSuffix_slash (s : string) : string :=
  match s with
  | EmptyString => EmptyString
  | String c rest =>
      match rest with
      | EmptyString => if Ascii.eqb c "/" then EmptyString else s
      | String _ _ => String c (TrimSuffix_slash rest)
      end
  end.

(** [strings.Split(s, "/")]: the pieces between the slashes; a string
    without a slash, the empty one included, is its only piece. *)
Fixpoint Split_slash (s : string) : list string :=
  match s with
  | EmptyString => [EmptyString]
  | String c rest =>
      if Ascii.eqb c "/" then EmptyString :: Split_slash rest
      else match Split_slash rest with
           | piece :: pieces => String c piece :: pieces
           | [] => [String c EmptyString]
           end
  end.

(** The decimal digits of a natural number, most significant first, in
    front of [acc]; [fuel] bounds the number of digits. *)
Fixpoint formatUint (fuel : nat) (n : Z) (acc : string) : string :=
  match fuel with
  | O => acc
  | S fuel' =>
      let acc' := String (ascii_of_N (Z.to_N (48 + n mod 10))) acc in
      if n / 10 =? 0 then acc' else formatUint fuel' (n / 10) acc'
  end.

(** The verb [%d] of [fmt.Sprintf] on an [int]: a minus sign for a negative
    number, then its decimal digits (at most 19 for 64 bits). *)
Definition formatInt (n : Z) : string :=
  if n <? 0 then String "-" (formatUint 20 (- n) EmptyString)
  else formatUint 20 n EmptyString.

(** No slash in the string. *)
Fixpoint slashFree (s : string) : bool :=
  match s with
  | EmptyString => true
  | String c rest => negb (Ascii.eqb c "/") && slashFree rest
  end.

End Strings.

(** [parseJobIDFromPath(path, prefix)]; [None] is the error result. *)
Definition parseJobIDFromPath (path prefix : string) : option Z :=
  let path := Strings.TrimSuffix_slash path in
  let parts := Strings.Split_slash path in
  match parts with
  | [_; p1; p2] => if String.eqb p1 prefix then Strconv.Atoi p2 else None
  | _ => None
  end.

(** [parseAPIJobIDFromPath(path)]. *)
Definition parseAPIJobIDFromPath (path : string) : option Z :=
  let path := Strings.TrimSuffix_slash path in
  let parts := Strings.Split_slash path in
  match parts with
  | [_; p1; p2; p3] =>
      if String.eqb p1 "api" && String.eqb p2 "status"
      then Strconv.Atoi p3 else None
  | _ => None
  end.

(** [fmt.Sprintf("/status/%d", entry.ID)], the link the two HTML list pages
    print for a job. *)
Definition statusLink (id : Z) : string :=
  String.append "/status/" (Strings.formatInt id).

(** What a request on a detail URL is answered with. *)
Inductive DetailResponse (A : Type) : Type :=
| BadRequest              (* http.Error(w, "Invalid request URL format...", 400) *)
| Answer (r : DetailResult A).
Arguments BadRequest {A}.
Arguments Answer {A} r.

(** [statusDetailHandler] and [apiStatusDetailHandler] from the request
    path on: the ID is parsed, then looked up. *)
Definition statusDetailRequest (st : State) (path : string) (tSince tNow : Time)
  : DetailResponse StatusPage :=
  match parseJobIDFromPath path "status" with
  | None => BadRequest
  | Some jobID => Answer (snd (statusDetailHandler st jobID tSince tNow))
  end.

Definition apiStatusDetailRequest (st : State) (path : string) (tSince tNow : Time)
  : DetailResponse ApiStatusResponse :=
  match parseAPIJobIDFromPath path with
  | None => BadRequest
  | Some jobID => Answer (snd (apiStatusDetailHandler st jobID tSince tNow))
  end.

(** The two closures [main] registers for "/status/" and "/api/status/":
    the list page for the bare path, the detail page for every other. *)
Inductive Route : Type := ToIndex | ToDetail.

Definition statusRoute (path : string) : Route :=
  if String.eqb (Strings.TrimSuffix_slash path) "/status" then ToIndex
  else ToDetail.

Definition apiStatusRoute (path : string) : Route :=
  if String.eqb (Strings.TrimSuffix_slash path) "/api/status" then ToIndex
  else ToDetail.

(** ** The list pages *)

(** The order in which a [for ... range history] visits the map is chosen
    by the Go runtime: the handlers that range over [history] take the
    visited key-entry pairs as an argument, which is some arrangement of
    the map's content. *)
Definition iterationOf (iter : list (Z * DelayEntry)) (st : State) : Prop :=
  iter ≡ₚ map_to_list (history st).

(** One row of the table [indexHandler] prints. *)
Record IndexRow : Type := mkIndexRow {
  rowLink : string;
  rowID : Z;
  rowName : string;
  rowAdded : Time;
  rowExpectedCompletion : Time;
  rowCompletedTime : option Time;      (* printed as "-" when nil *)
  rowTotalDelaySecs : Z;
  rowElapsedSecs : Z;
  rowStatusClass : string;
  rowStatus : string
}.

(** The body of the loop of [indexHandler] for a stored entry. *)
Definition indexRow (entry : DelayEntry) (tSince tNow : Time) : IndexRow :=
  let '(elapsedSecs, currentStatus, statusClass) :=
    getStatusDetails entry tSince tNow in
  {| rowLink := statusLink (ID entry);
     rowID := ID entry;
     rowName := Name entry;
     rowAdded := DateTimeAdded entry;
     rowExpectedCompletion :=
       Add (DateTimeAdded entry) (seconds_to_Duration (TotalDelaySecs entry));
     rowCompletedTime := CompletedTime entry;
     rowTotalDelaySecs := TotalDelaySecs entry;
     rowElapsedSecs := elapsedSecs;
     rowStatusClass := statusClass;
     rowStatus := currentStatus |}.

(** The loop of [indexHandler] over [historyOrder[start:]]; an ID without
    an entry is skipped.  [clock i] are the two clock readings taken while
    the [i]-th ID is handled. *)
Fixpoint indexRows (h : gmap Z DelayEntry) (ids : list Z) (i : nat)
    (clock : nat -> Time * Time) : list IndexRow :=
  match ids with
  | [] => []
  | id :: rest =>
      match h !! id with
      | None => indexRows h rest (S i) clock
      | Some entry =>
          indexRow entry (fst (clock i)) (snd (clock i))
          :: indexRows h rest (S i) clock
      end
  end.

(** [indexHandler]: [None] is the page "No delays recorded yet.", otherwise
    the rows of the table. *)
Definition indexHandler (st : State) (clock : nat -> Time * Time)
  : option (list IndexRow) :=
  if Nat.eqb (length (historyOrder st)) 0 then None
  else
    let start :=
      if maxHistory <? Z.of_nat (length (historyOrder st))
      then (length (historyOrder st) - Z.to_nat maxHistory)%nat
      else 0%nat in
    Some (indexRows (history st) (drop start (historyOrder st)) 0 clock).

(** One line of the page [statusIndexHandler] prints; the remaining time is
    kept as the [Duration] whose seconds the page shows. *)
Record StatusLine : Type := mkStatusLine {
  lineLink : string;
  lineID : Z;
  lineName : string;
  lineRemaining : Duration
}.

(** The body of the loop of [statusIndexHandler] for an entry that is not
    flagged completed: the line, if there is time remaining. *)
Definition statusLine (entry : DelayEntry) (now : Time) : option StatusLine :=
  let elapsedDuration := Since now (DateTimeAdded entry) in
  let remaining :=
    GoInt.sub (seconds_to_Duration (TotalDelaySecs entry)) elapsedDuration in
  if 0 <? remaining
  then Some {| lineLink := statusLink (ID entry);
               lineID := ID entry;
               lineName := Name entry;
               lineRemaining := remaining |}
  else None.

(** The loop of [statusIndexHandler]: [activeCount] and the lines. *)
Fixpoint statusLines (iter : list (Z * DelayEntry)) (i : nat)
    (clock : nat -> Time) : nat * list StatusLine :=
  match iter with
  | [] => (O, [])
  | (_, entry) :: rest =>
      let '(activeCount, lines) := statusLines rest (S i) clock in
      if IsCompleted entry then (activeCount, lines)
      else
        (S activeCount,
         match statusLine entry (clock i) with
         | Some line => line :: lines
         | None => lines
         end)
  end.

(** The closing sentence of the status page. *)
Inductive StatusMessage : Type :=
| NoMessage
| AllCompleted       (* "All queued tasks are completed." *)
| NoneActivated.     (* "No countdowns activated." *)

(** [statusIndexHandler]. *)
Definition statusIndexHandler (st : State) (iter : list (Z * DelayEntry))
    (clock : nat -> Time) : list StatusLine * StatusMessage :=
  let '(activeCount, lines) := statusLines iter 0 clock in
  (lines,
   if Nat.eqb activeCount 0 && (0 <? size (history st))%nat then AllCompleted
   else if Nat.eqb (size (history st)) 0 then NoneActivated
   else NoMessage).

(** [apiStatusIndexHandler]: one response per visited entry. *)
Fixpoint apiStatusIndexHandler (iter : list (Z * DelayEntry)) (i : nat)
    (clock : nat -> Time * Time) : list ApiStatusResponse :=
  match iter with
  | [] => []
  | (_, entry) :: rest =>
      apiResponse entry (fst (clock i)) (snd (clock i))
      :: apiStatusIndexHandler rest (S i) clock
  end.

(** ** Entries, timers and time along a run *)

(** What is true of every stored entry: a validated delay, and a
    completion time exactly when it is flagged completed. *)
Definition wellFormedEntry (e : DelayEntry) : Prop :=
  1 <= TotalDelaySecs e <= GoInt.maxInt /\
  (IsCompleted e = true <-> is_Some (CompletedTime e)).

(** Two records of the same job: everything but the completion agrees. *)
Definition sameJob (e e' : DelayEntry) : Prop :=
  ID e = ID e' /\ Name e = Name e' /\
  DateTimeAdded e = DateTimeAdded e' /\ TotalDelaySecs e = TotalDelaySecs e'.

(** Jobs and their timers after [n] creates: besides [TimersInv], a job not
    yet completed has its timer asleep, and a timer asleep for a retained
    job carries that job's delay. *)
Record PendingInv (n : Z) (w : World) : Prop := mkPendingInv {
  pinv_timers : TimersInv n w;
  pinv_armed : forall id e,
    history (registry w) !! id = Some e -> IsCompleted e = false ->
    (id, TotalDelaySecs e) ∈ sleeping w;
  pinv_delay : forall id delay e,
    (id, delay) ∈ sleeping w -> history (registry w) !! id = Some e ->
    delay = TotalDelaySecs e
}.

(** [time.Sleep(time.Duration(delay) * time.Second)] in [runTimer] returns
    after at least that duration, at once when it is not positive.  The
    goroutine is started after the create that stamped the entry, so the
    [k]-th sleeping timer reaches its critical section at a time [now] that
    is not before the entry's creation time plus the sleep. *)
Definition wakesInTime (w : World) (k : nat) (now : Time) : Prop :=
  match sleeping w !! k with
  | Some (jobID, delay) =>
      match history (registry w) !! jobID with
      | Some entry =>
          DateTimeAdded entry + Z.max 0 (seconds_to_Duration delay) <= now
      | None => True
      end
  | None => True
  end.

(** A run in which every timer wakes in time. *)
Fixpoint timed (w : World) (ops : list Op) : Prop :=
  match ops with
  | [] => True
  | op :: ops' =>
      match op with
      | TimerFires k now => wakesInTime w k now
      | PostStart _ _ _ => True
      end /\ timed (exec w op) ops'
  end.

(** A job flagged completed was completed after its sleep. *)
Definition completedInTime (e : DelayEntry) : Prop :=
  IsCompleted e = true ->
  exists t, CompletedTime e = Some t /\
    DateTimeAdded e + Z.max 0 (seconds_to_Duration (TotalDelaySecs e)) <= t.

(** The entry [runTimer] writes back for [entry]: flagged completed at
    [now]. *)
Definition completedAt (now : Time) (entry : DelayEntry) : DelayEntry :=
  {| ID := ID entry; Name := Name entry; DateTimeAdded := DateTimeAdded entry;
     TotalDelaySecs := TotalDelaySecs entry; IsCompleted := true;
     CompletedTime := Some now |}.

(** The IDs [keepHistoryBounded] drops: those in front of the last
    [maxHistory]. *)
Definition evicted (st : State) : list Z :=
  take (length (historyOrder st) - Z.to_nat maxHistory) (historyOrder st).

(** ** The [go] statement as a step of its own *)

(** [startHandler] starts the goroutine after it has released the lock:
    [mu.Unlock(); log.Printf(...); go runTimer(jobID, delay)].  In between
    the job is stored and no goroutine exists for it yet.  A [Server] is a
    [World] together with the handlers that are at that point, each with
    its locals [jobID] and [delay]. *)
Record Server : Type := mkServer {
  world : World;
  unlocked : list (Z * Z)
}.

Definition initServer : Server := {| world := initWorld; unlocked := [] |}.

(** [startHandler], [case http.MethodPost], up to and including
    [mu.Unlock()]. *)
Definition startHandler_locked (s : Server) (delayStr jobName : string)
    (now : Time) : Server * StartResult :=
  match Strconv.Atoi delayStr with
  | None => (s, InvalidDelay)
  | Some delay =>
      if delay <? 1 then (s, InvalidDelay)
      else
        let '(st, jobID) := createEntry (registry (world s)) jobName delay now in
        ({| world := {| registry := st; sleeping := sleeping (world s) |};
            unlocked := unlocked s ++ [(jobID, delay)] |},
         Created jobID)
  end.

(** [go runTimer(jobID, delay)] in the [j]-th of the handlers that are past
    their unlock: the goroutine exists from here on, in its [time.Sleep]. *)
Definition goRunTimer (s : Server) (j : nat) : Server :=
  match unlocked s !! j with
  | Some timer =>
      {| world := {| registry := registry (world s);
                     sleeping := sleeping (world s) ++ [timer] |};
         unlocked := delete j (unlocked s) |}
  | None => s
  end.

(** The steps of a [Server]: the critical section of a POST, a [go]
    statement, and the critical section of a timer. *)
Inductive Step : Type :=
| Unlocks (delayStr jobName : string) (now : Time)
| Goes (j : nat)
| Wakes (k : nat) (now : Time).

Definition step (s : Server) (x : Step) : Server :=
  match x with
  | Unlocks delayStr jobName now =>
      fst (startHandler_locked s delayStr jobName now)
  | Goes j => goRunTimer s j
  | Wakes k now =>
      {| world := exec (world s) (TimerFires k now); unlocked := unlocked s |}
  end.

Definition steps (s : Server) (xs : list Step) : Server := fold_left step xs s.

(** The number of jobs created by one step, and along a sequence. *)
Definition jobsCreatedBy (s : Server) (x : Step) : nat :=
  match x with
  | Unlocks delayStr jobName now =>
      match snd (startHandler_locked s delayStr jobName now) with
      | Created _ => 1
      | InvalidDelay => 0
      end
  | _ => 0
  end.

Fixpoint jobsCreated (s : Server) (xs : list Step) : nat :=
  match xs with
  | [] => 0
  | x :: xs' => (jobsCreatedBy s x + jobsCreated (step s x) xs')%nat
  end.

(** The timers of a [Server], started or about to be. *)
Definition timers (s : Server) : list (Z * Z) :=
  unlocked s ++ sleeping (world s).

(** The [World] that has them all asleep. *)
Definition allAsleep (s : Server) : World :=
  {| registry := registry (world s); sleeping := timers s |}.

(** The [Server] run of a [World] run: every handler executes its [go]
    statement right after its unlock. *)
Definition prompt (ops : list Op) : list Step :=
  flat_map (fun op =>
              match op with
              | PostStart delayStr jobName now =>
                  [Unlocks delayStr jobName now; Goes 0]
              | TimerFires k now => [Wakes k now]
              end) ops.

(** ** More sample runs *)

(** Twelve POSTs, then the timer of job 4 wakes at time 9: jobs 3 to 12
    are retained, job 4 is completed. *)
Definition busy : list Op := posts 12 ++ [TimerFires 3 9].

(** Three POSTs, then the timer of job 2 wakes. *)
Definition st_mixed : State :=
  registry (run initWorld (posts 3 ++ [TimerFires 1 9])).

(** Two POSTs and both timers. *)
Definition st_all_done : State :=
  registry (run initWorld (posts 2 ++ [TimerFires 0 9; TimerFires 0 9])).

(** Eleven IDs in the order: the state of the eleventh POST between its
    [append] and its call of [keepHistoryBounded]. *)
Definition st_eleven : State :=
  insertEntry (registry (run initWorld (posts 10))) "late" 3 0.

(** Two POSTs whose handlers have both released the lock; the second one
    starts its goroutine, which wakes and completes job 2, while the first
    one has not yet reached its [go] statement. *)
Definition overtaken : list Step :=
  [Unlocks "3" "a" 0; Unlocks "4" "b" 1; Goes 1; Wakes 0 (5 * Second)].

(** * Properties *)

(** ** Machine integers *)

Section WrapFacts.

Lemma wrap_inRange z : GoInt.inRange (GoInt.wrap z).
Proof.
  unfold GoInt.inRange, GoInt.wrap, GoInt.minInt, GoInt.maxInt.
  pose proof (Z.mod_pos_bound (z + 2 ^ 63) (2 ^ 64)). lia.
Qed.

Lemma wrap_id z : GoInt.inRange z -> GoInt.wrap z = z.
Proof.
  unfold GoInt.inRange, GoInt.wrap, GoInt.minInt, GoInt.maxInt. intros Hz.
  rewrite Z.mod_small; lia.
Qed.

Lemma wrap_congr a b : GoInt.wrap a = GoInt.wrap b <-> (a - b) mod 2 ^ 64 = 0.
Proof.
  unfold GoInt.wrap. split; intros H.
  - assert (E : (a + 2 ^ 63) mod 2 ^ 64 = (b + 2 ^ 63) mod 2 ^ 64) by lia.
    replace (a - b) with ((a + 2 ^ 63) - (b + 2 ^ 63)) by lia.
    rewrite Zminus_mod, E, Z.sub_diag. reflexivity.
  - f_equal.
    replace (a + 2 ^ 63) with ((b + 2 ^ 63) + (a - b)) by lia.
    rewrite Zplus_mod, H, Z.add_0_r, Z.mod_mod; lia.
Qed.

Lemma wrap_add_l a b : GoInt.wrap (GoInt.wrap a + b) = GoInt.wrap (a + b).
Proof.
  apply wrap_congr. unfold GoInt.wrap.
  replace ((a + 2 ^ 63) mod 2 ^ 64 - 2 ^ 63 + b - (a + b))
    with ((a + 2 ^ 63) mod 2 ^ 64 - (a + 2 ^ 63)) by lia.
  rewrite Zminus_mod, Z.mod_mod, Z.sub_diag by lia. reflexivity.
Qed.

(** Two integers less than [2^64] apart have different 64-bit images. *)
Lemma wrap_inj_near a b :
  GoInt.wrap a = GoInt.wrap b -> - 2 ^ 64 < a - b < 2 ^ 64 -> a = b.
Proof.
  intros H Hd. apply wrap_congr in H.
  apply Z.mod_divide in H; [|lia]. destruct H as [k Hk].
  assert (k = 0) by nia. lia.
Qed.

End WrapFacts.

(** ** binary64 rounding, as far as [Seconds] needs it *)

Section Float64.

Lemma digits2_pos_bounds p :
  2 ^ (Z.pos (digits2_pos p) - 1) <= Z.pos p < 2 ^ Z.pos (digits2_pos p).
Proof.
  induction p as [p IH|p IH|]; cbn [digits2_pos].
  - rewrite Pos2Z.inj_succ. change (Z.pos p~1) with (2 * Z.pos p + 1).
    replace (Z.succ (Z.pos (digits2_pos p)) - 1) with (Z.succ (Z.pos (digits2_pos p) - 1)) by lia.
    rewrite !Z.pow_succ_r by lia. lia.
  - rewrite Pos2Z.inj_succ. change (Z.pos p~0) with (2 * Z.pos p).
    replace (Z.succ (Z.pos (digits2_pos p)) - 1) with (Z.succ (Z.pos (digits2_pos p) - 1)) by lia.
    rewrite !Z.pow_succ_r by lia. lia.
  - cbn. lia.
Qed.

Lemma digits2_pos_unique p k :
  2 ^ (k - 1) <= Z.pos p < 2 ^ k -> Z.pos (digits2_pos p) = k.
Proof.
  intros [Hlo Hhi]. pose proof (digits2_pos_bounds p) as [Dlo Dhi].
  assert (Hk : 0 < k).
  { destruct (Z.lt_ge_cases 0 k) as [|Hk]; [assumption|].
    destruct (Z.eq_dec k 0) as [->|].
    - cbn in Hhi. lia.
    - rewrite Z.pow_neg_r in Hhi by lia. lia. }
  destruct (Z.lt_trichotomy (Z.pos (digits2_pos p)) k) as [Hlt|[Heq|Hgt]];
    [|assumption|].
  - assert (2 ^ Z.pos (digits2_pos p) <= 2 ^ (k - 1))
      by (apply Z.pow_le_mono_r; lia).
    lia.
  - assert (2 ^ k <= 2 ^ (Z.pos (digits2_pos p) - 1))
      by (apply Z.pow_le_mono_r; lia).
    lia.
Qed.

Lemma iter_xO_pos p j : Z.pos (Pos.iter xO p j) = Z.pos p * 2 ^ Z.pos j.
Proof.
  induction j as [|j IH] using Pos.peano_ind.
  - cbn. lia.
  - rewrite Pos.iter_succ.
    change (Z.pos (Pos.iter xO p j)~0) with (2 * Z.pos (Pos.iter xO p j)).
    rewrite IH, Pos2Z.inj_succ, Z.pow_succ_r by lia. lia.
Qed.

(** [shl_align] lowers the exponent to [ex'] when that is below [ex]. *)
Lemma shl_align_spec mx ex ex' :
  snd (shl_align mx ex ex') = Z.min ex ex' /\
  Z.pos (fst (shl_align mx ex ex')) = Z.pos mx * 2 ^ (ex - Z.min ex ex').
Proof.
  unfold shl_align. destruct (ex' - ex) as [|d|d] eqn:E; cbn [fst snd].
  - rewrite Z.min_l by lia. rewrite Z.sub_diag. cbn. lia.
  - rewrite Z.min_l by lia. rewrite Z.sub_diag. cbn. lia.
  - rewrite Z.min_r by lia. rewrite iter_xO_pos.
    replace (ex - ex') with (Z.pos d) by lia. auto.
Qed.

Lemma shr_1_m mrs : 0 <= shr_m mrs -> shr_m (shr_1 mrs) = shr_m mrs / 2.
Proof.
  destruct mrs as [m r s]. cbn [shr_m]. intros Hm.
  destruct m as [|p|p]; [reflexivity| |lia].
  destruct p as [p|p|]; cbn [shr_1 shr_m].
  - change (Z.pos p~1) with (2 * Z.pos p + 1).
    apply (Z.div_unique _ _ _ 1); lia.
  - change (Z.pos p~0) with (2 * Z.pos p).
    apply (Z.div_unique _ _ _ 0); lia.
  - reflexivity.
Qed.

Lemma iter_shr_1_m n : forall mrs,
  0 <= shr_m mrs ->
  shr_m (SpecFloat.iter_pos shr_1 n mrs) = shr_m mrs / 2 ^ Z.pos n.
Proof.
  assert (Hnn : forall mrs, 0 <= shr_m mrs -> 0 <= shr_m mrs / 2)
    by (intros; apply Z.div_pos; lia).
  induction n as [n IH|n IH|]; intros mrs Hm; cbn [SpecFloat.iter_pos].
  - assert (H1 : 0 <= shr_m (shr_1 mrs)) by (rewrite shr_1_m; auto).
    assert (H2 : 0 <= shr_m (SpecFloat.iter_pos shr_1 n (shr_1 mrs))).
    { rewrite IH by assumption. apply Z.div_pos; lia. }
    rewrite IH, IH, shr_1_m by assumption.
    rewrite !Z.div_div by lia. f_equal.
    change (Z.pos n~1) with (2 * Z.pos n + 1).
    replace (2 * Z.pos n + 1) with (1 + Z.pos n + Z.pos n) by lia.
    rewrite !Z.pow_add_r by lia. change (2 ^ 1) with 2. lia.
  - assert (H2 : 0 <= shr_m (SpecFloat.iter_pos shr_1 n mrs)).
    { rewrite IH by assumption. apply Z.div_pos; lia. }
    rewrite IH, IH by assumption.
    rewrite !Z.div_div by lia. f_equal.
    change (Z.pos n~0) with (2 * Z.pos n).
    replace (2 * Z.pos n) with (Z.pos n + Z.pos n) by lia.
    rewrite Z.pow_add_r by lia. reflexivity.
  - rewrite shr_1_m by assumption. reflexivity.
Qed.

Lemma round_nearest_even_bounds m l :
  m <= round_nearest_even m l <= m + 1.
Proof.
  unfold round_nearest_even. destruct l as [|[]]; try lia.
  destruct (Z.even m); lia.
Qed.

Lemma shr_m_of_loc m l : shr_m (shr_record_of_loc m l) = m.
Proof. destruct l as [|[]]; reflexivity. Qed.

End Float64.

Section Float64Round.

Lemma Zdigits2_pos m : 0 < m -> 2 ^ (Zdigits2 m - 1) <= m < 2 ^ Zdigits2 m.
Proof.
  destruct m as [|p|p]; try lia. intros _. apply digits2_pos_bounds.
Qed.

Lemma Zdigits2_positive m : 0 < m -> 0 < Zdigits2 m.
Proof. destruct m as [|p|p]; cbn; lia. Qed.

(** Within the normal range [shr_fexp] drops the bits beyond the 53rd. *)
Lemma shr_fexp_spec m e l :
  0 < m -> -1074 <= e ->
  snd (shr_fexp prec emax m e l) = e + Z.max 0 (Zdigits2 m - 53) /\
  shr_m (fst (shr_fexp prec emax m e l)) = m / 2 ^ Z.max 0 (Zdigits2 m - 53) /\
  (Zdigits2 m <= 53 -> fst (shr_fexp prec emax m e l) = shr_record_of_loc m l).
Proof.
  intros Hm He. unfold shr_fexp, shr, fexp, SpecFloat.emin, prec, emax.
  pose proof (Zdigits2_positive m Hm) as Hd.
  destruct (Z.max (Zdigits2 m + e - 53) (3 - 1024 - 53) - e) as [|p|p] eqn:E;
    cbn [fst snd].
  - rewrite Z.max_l by lia. rewrite shr_m_of_loc, Z.add_0_r, Z.div_1_r. auto.
  - rewrite iter_shr_1_m by (rewrite shr_m_of_loc; lia).
    rewrite shr_m_of_loc.
    assert (Z.max 0 (Zdigits2 m - 53) = Z.pos p) as -> by lia.
    split; [reflexivity|]. split; [reflexivity|]. lia.
  - rewrite Z.max_l by lia. rewrite shr_m_of_loc, Z.add_0_r, Z.div_1_r. auto.
Qed.

Lemma loc_of_shr_record_of_loc m l :
  loc_of_shr_record (shr_record_of_loc m l) = l.
Proof. destruct l as [|[]]; reflexivity. Qed.

(** A mantissa of at most 53 bits is kept as it is. *)
Lemma binary_round_aux_exact mx ex :
  Z.pos (digits2_pos mx) <= 53 -> -1074 <= ex <= 971 ->
  binary_round_aux prec emax false (Z.pos mx) ex loc_Exact
  = S754_finite false mx ex.
Proof.
  intros Hd He. unfold binary_round_aux.
  destruct (shr_fexp_spec (Z.pos mx) ex loc_Exact) as (E1 & E2 & E3); [lia..|].
  cbn [Zdigits2] in *. specialize (E3 Hd).
  destruct (shr_fexp prec emax (Z.pos mx) ex loc_Exact) as [mrs' e'].
  cbn [fst snd] in *. subst mrs' e'. cbn [shr_record_of_loc shr_m loc_of_shr_record round_nearest_even].
  rewrite Z.max_l by lia. rewrite Z.add_0_r.
  destruct (shr_fexp_spec (Z.pos mx) ex loc_Exact) as (F1 & F2 & F3); [lia..|].
  cbn [Zdigits2] in *. specialize (F3 Hd).
  destruct (shr_fexp prec emax (Z.pos mx) ex loc_Exact) as [mrs'' e''].
  cbn [fst snd] in *. subst mrs'' e''. cbn [shr_record_of_loc shr_m].
  rewrite Z.max_l by lia. rewrite Z.add_0_r.
  unfold emax, prec. destruct (Z.leb_spec ex (1024 - 53)); [reflexivity|lia].
Qed.

(** In general the result is the input cut to 53 bits, or one unit in the
    last place above. *)
Lemma binary_round_aux_bounds mx ex lx :
  0 < mx -> -1074 <= ex <= 0 -> Zdigits2 mx + ex <= 900 ->
  exists m e,
    binary_round_aux prec emax false mx ex lx = S754_finite false m e /\
    ex + Z.max 0 (Zdigits2 mx - 53) <= e /\
    (mx / 2 ^ Z.max 0 (Zdigits2 mx - 53)) * 2 ^ Z.max 0 (Zdigits2 mx - 53)
    <= Z.pos m * 2 ^ (e - ex)
    <= (mx / 2 ^ Z.max 0 (Zdigits2 mx - 53) + 1) * 2 ^ Z.max 0 (Zdigits2 mx - 53) /\
    (2 ^ 52 <= mx -> 2 ^ 52 <= Z.pos m).
Proof.
  intros Hm He Hd. unfold binary_round_aux.
  destruct (shr_fexp_spec mx ex lx) as (E1 & E2 & _); [lia..|].
  set (n := Z.max 0 (Zdigits2 mx - 53)) in *.
  destruct (shr_fexp prec emax mx ex lx) as [mrs' e'].
  cbn [fst snd] in *. subst e'.
  pose proof (Zdigits2_pos mx Hm) as [Dlo Dhi].
  pose proof (Zdigits2_positive mx Hm) as Dpos.
  set (m1 := shr_m mrs') in *.
  pose proof (round_nearest_even_bounds m1 (loc_of_shr_record mrs')) as Hr.
  set (r := round_nearest_even m1 (loc_of_shr_record mrs')) in *.
  assert (Hn : 0 <= n) by (unfold n; lia).
  assert (Hm1 : 0 < m1 < 2 ^ 53).
  { rewrite E2. destruct (Z.le_gt_cases (Zdigits2 mx) 53) as [Hle|Hgt].
    - assert (n = 0) as -> by (unfold n; lia). rewrite Z.div_1_r.
      split; [lia|]. eapply Z.lt_le_trans; [exact Dhi|].
      apply Z.pow_le_mono_r; lia.
    - assert (n = Zdigits2 mx - 53) as Hn' by (unfold n; lia).
      assert (Hp : 2 ^ Zdigits2 mx = 2 ^ 53 * 2 ^ n)
        by (rewrite <- Z.pow_add_r by lia; f_equal; lia).
      assert (Hq : 2 ^ (Zdigits2 mx - 1) = 2 ^ 52 * 2 ^ n)
        by (rewrite <- Z.pow_add_r by lia; f_equal; lia).
      assert (0 < 2 ^ n) by (apply Z.pow_pos_nonneg; lia).
      split.
      + apply Z.lt_le_trans with (2 ^ 52); [reflexivity|].
        apply Z.div_le_lower_bound; lia.
      + apply Z.div_lt_upper_bound; lia. }
  assert (Hrpos : 0 < r <= 2 ^ 53) by lia.
  assert (Hnorm : 2 ^ 52 <= mx -> 2 ^ 52 <= m1).
  { intros Hbig. rewrite E2.
    destruct (Z.le_gt_cases (Zdigits2 mx) 53) as [Hle|Hgt].
    - assert (n = 0) as -> by (unfold n; lia). rewrite Z.div_1_r. exact Hbig.
    - assert (n = Zdigits2 mx - 53) as Hn' by (unfold n; lia).
      assert (Hq : 2 ^ (Zdigits2 mx - 1) = 2 ^ 52 * 2 ^ n)
        by (rewrite <- Z.pow_add_r by lia; f_equal; lia).
      assert (0 < 2 ^ n) by (apply Z.pow_pos_nonneg; lia).
      apply Z.div_le_lower_bound; lia. }
  destruct (shr_fexp_spec r (ex + n) loc_Exact) as (F1 & F2 & F3); [lia..|].
  destruct (shr_fexp prec emax r (ex + n) loc_Exact) as [mrs'' e''].
  cbn [fst snd] in *. subst e''.
  destruct (Z.eq_dec r (2 ^ 53)) as [Hfull|Hnot].
  - assert (Hdr : Zdigits2 r = 54) by (rewrite Hfull; reflexivity).
    rewrite Hdr in F2 |- *. change (Z.max 0 (54 - 53)) with 1 in *.
    rewrite F2, Hfull. change (2 ^ 53 / 2 ^ 1) with 4503599627370496.
    unfold emax, prec.
    destruct (Z.leb_spec (ex + n + 1) (1024 - 53)) as [_|Hbad];
      [|unfold n in Hbad; lia].
    eexists _, _. split; [reflexivity|]. split; [lia|].
    replace (ex + n + 1 - ex) with (1 + n) by lia.
    rewrite Z.pow_add_r by lia. change (2 ^ 1) with 2.
    replace (4503599627370496 * (2 * 2 ^ n)) with (r * 2 ^ n)
      by (rewrite Hfull; change (2 ^ 53) with 9007199254740992; lia).
    rewrite <- E2.
    assert (0 < 2 ^ n) by (apply Z.pow_pos_nonneg; lia).
    split; [split; apply Z.mul_le_mono_nonneg_r; lia|].
    intros _. reflexivity.
  - assert (Hdr : Zdigits2 r <= 53).
    { destruct (Z.le_gt_cases (Zdigits2 r) 53) as [|Hgt]; [assumption|].
      pose proof (Zdigits2_pos r ltac:(lia)) as [Rlo _].
      assert (2 ^ 53 <= 2 ^ (Zdigits2 r - 1)) by (apply Z.pow_le_mono_r; lia).
      lia. }
    rewrite Z.max_l in F2 by lia. rewrite Z.max_l by lia.
    rewrite Z.div_1_r in F2. rewrite F2, Z.add_0_r.
    destruct r as [|pr|pr] eqn:Er; try lia.
    unfold emax, prec.
    destruct (Z.leb_spec (ex + n) (1024 - 53)) as [_|Hbad];
      [|unfold n in Hbad; lia].
    eexists _, _. split; [reflexivity|]. split; [lia|].
    replace (ex + n - ex) with n by lia. rewrite <- E2.
    assert (0 < 2 ^ n) by (apply Z.pow_pos_nonneg; lia).
    split; [split; apply Z.mul_le_mono_nonneg_r; lia|].
    intros Hbig. specialize (Hnorm Hbig). lia.
Qed.

End Float64Round.

Section Float64Seconds.

(** An integer below 2^53 converts exactly, with a 53-bit mantissa. *)
Lemma float64_of_int_exact n :
  0 < n < 2 ^ 53 ->
  exists m,
    float64_of_int n = S754_finite false m (Zdigits2 n - 53) /\
    Z.pos m = n * 2 ^ (53 - Zdigits2 n) /\
    2 ^ 52 <= Z.pos m < 2 ^ 53.
Proof.
  intros Hn. destruct n as [|p|p]; try lia.
  pose proof (digits2_pos_bounds p) as [Dlo Dhi].
  cbn [Zdigits2]. set (d := Z.pos (digits2_pos p)) in *.
  assert (Hd : 0 < d <= 53).
  { split; [unfold d; lia|].
    destruct (Z.le_gt_cases d 53) as [|Hgt]; [assumption|].
    assert (2 ^ 53 <= 2 ^ (d - 1)) by (apply Z.pow_le_mono_r; lia). lia. }
  unfold float64_of_int, binary_normalize, binary_round.
  rewrite Z.add_0_r.
  assert (Hf : fexp prec emax (Z.pos (digits2_pos p)) = d - 53).
  { unfold fexp, SpecFloat.emin, prec, emax. fold d. lia. }
  rewrite Hf.
  destruct (shl_align_spec p 0 (d - 53)) as [S1 S2].
  destruct (shl_align p 0 (d - 53)) as [mz ez]. cbn [fst snd] in *.
  rewrite Z.min_r in S1, S2 by lia. subst ez.
  replace (0 - (d - 53)) with (53 - d) in S2 by lia.
  assert (Hmz : 2 ^ 52 <= Z.pos mz < 2 ^ 53).
  { rewrite S2.
    assert (0 < 2 ^ (53 - d)) by (apply Z.pow_pos_nonneg; lia).
    assert (E52 : 2 ^ 52 = 2 ^ (d - 1) * 2 ^ (53 - d))
      by (rewrite <- Z.pow_add_r by lia; f_equal; lia).
    assert (E53 : 2 ^ 53 = 2 ^ d * 2 ^ (53 - d))
      by (rewrite <- Z.pow_add_r by lia; f_equal; lia).
    rewrite E52, E53. split.
    - apply Z.mul_le_mono_nonneg_r; lia.
    - apply Z.mul_lt_mono_pos_r; lia. }
  rewrite binary_round_aux_exact.
  - exists mz. auto.
  - rewrite (digits2_pos_unique mz 53); [lia | exact Hmz].
  - lia.
Qed.

End Float64Seconds.

Section Float64Div.

Lemma float64_1e9_eq :
  float64_1e9 = S754_finite false 8388608000000000 (-23).
Proof. reflexivity. Qed.

Lemma pow2_split a b : 0 <= a -> 0 <= b -> 2 ^ (a + b) = 2 ^ a * 2 ^ b.
Proof. intros. apply Z.pow_add_r; assumption. Qed.

Lemma pow2_pos a : 0 <= a -> 0 < 2 ^ a.
Proof. intros. apply Z.pow_pos_nonneg; lia. Qed.

(** The fraction [nsec / 1e9] as a [float64]: a normal number that stays
    at least [2^-30] below 1. *)
Lemma nsec_fraction_bound nsec :
  0 < nsec < 1000000000 ->
  exists mx ex,
    SFdiv prec emax (float64_of_int nsec) float64_1e9 = S754_finite false mx ex /\
    -1074 <= ex <= -53 /\
    2 ^ 52 <= Z.pos mx /\
    Z.pos mx * 2 ^ 30 < (2 ^ 30 - 1) * 2 ^ (- ex).
Proof.
  intros Hn.
  destruct (float64_of_int_exact nsec) as (m1 & E1 & V1 & N1).
  { split; [lia|]. apply Z.lt_trans with 1000000000; [lia | reflexivity]. }
  pose proof (Zdigits2_pos nsec ltac:(lia)) as [Dlo Dhi].
  pose proof (Zdigits2_positive nsec ltac:(lia)) as Dpos.
  set (dn := Zdigits2 nsec) in *.
  assert (Hdn : dn <= 30).
  { destruct (Z.le_gt_cases dn 30) as [|Hgt]; [assumption|].
    assert (2 ^ 30 <= 2 ^ (dn - 1)) by (apply Z.pow_le_mono_r; lia).
    assert (1000000000 < 2 ^ 30) by reflexivity. lia. }
  rewrite E1, float64_1e9_eq. unfold SFdiv, SFdiv_core_binary. cbn [xorb].
  cbn [Zdigits2]. rewrite (digits2_pos_unique m1 53) by exact N1.
  change (Z.pos (digits2_pos 8388608000000000)) with 53.
  assert (Hf : Z.min (fexp prec emax (53 + (dn - 53) - (53 + -23))) (dn - 53 - -23)
               = dn - 83).
  { unfold fexp, SpecFloat.emin, prec, emax. lia. }
  rewrite Hf.
  replace (dn - 53 - -23 - (dn - 83)) with 53 by lia.
  rewrite Z.shiftl_mul_pow2 by lia.
  set (m' := Z.pos m1 * 2 ^ 53).
  set (m2 := 8388608000000000).
  assert (Hq : Z.div_eucl m' (m2) = (m' / m2, m' mod m2)).
  { unfold Z.div, Z.modulo. destruct (Z.div_eucl m' (m2)). reflexivity. }
  rewrite Hq.
  set (q := m' / m2).
  assert (Hm2 : m2 = 1000000000 * 2 ^ 23) by reflexivity.
  assert (Hqlo : 2 ^ 52 <= q).
  { apply Z.div_le_lower_bound; [reflexivity|]. unfold m', m2.
    change (2 ^ 52) with 4503599627370496 in *.
    change (2 ^ 53) with 9007199254740992 in *. lia. }
  assert (Hqhi : q < 2 ^ 54).
  { apply Z.div_lt_upper_bound; [reflexivity|]. unfold m', m2.
    change (2 ^ 54) with 18014398509481984.
    change (2 ^ 53) with 9007199254740992 in *. lia. }
  assert (Hq0 : 0 < q) by lia.
  pose proof (Zdigits2_pos q Hq0) as [Qlo Qhi].
  assert (HD : 53 <= Zdigits2 q <= 54).
  { split.
    - destruct (Z.le_gt_cases 53 (Zdigits2 q)) as [|Hlt]; [assumption|].
      assert (2 ^ Zdigits2 q <= 2 ^ 52) by (apply Z.pow_le_mono_r; lia). lia.
    - destruct (Z.le_gt_cases (Zdigits2 q) 54) as [|Hgt]; [assumption|].
      assert (2 ^ 54 <= 2 ^ (Zdigits2 q - 1)) by (apply Z.pow_le_mono_r; lia).
      lia. }
  destruct (binary_round_aux_bounds q (dn - 83)
              (new_location (m2) (m' mod m2)))
    as (m & e & Eres & He & [_ Hup] & Hnorm); [lia..|].
  rewrite Eres. exists m, e. split; [reflexivity|].
  specialize (Hnorm Hqlo).
  set (n := Z.max 0 (Zdigits2 q - 53)) in *.
  assert (Hn01 : 0 <= n <= 1) by (unfold n; lia).
  (* the quotient is at most the fraction *)
  set (T := 2 ^ (83 - dn)).
  set (U := 2 ^ (53 - dn)).
  assert (HT : T = 2 ^ 30 * U).
  { unfold T, U. rewrite <- pow2_split by lia. f_equal. lia. }
  assert (HU : 2 ^ 23 <= U) by (unfold U; apply Z.pow_le_mono_r; lia).
  assert (Hqfrac : q * 1000000000 <= nsec * T).
  { assert (Hmul : m2 * q <= m') by (apply Z.mul_div_le; lia).
    assert (Em' : m' = nsec * T * 2 ^ 23).
    { unfold m'. rewrite V1, HT. fold U.
      change (2 ^ 53) with (2 ^ 30 * 2 ^ 23). lia. }
    rewrite Em', Hm2 in Hmul.
    assert (0 < 2 ^ 23) by reflexivity.
    apply Z.mul_le_mono_pos_r with (2 ^ 23); lia. }
  assert (HW : Z.pos m * 2 ^ (e - (dn - 83)) <= q + 2).
  { eapply Z.le_trans; [exact Hup|].
    assert (q / 2 ^ n * 2 ^ n <= q).
    { rewrite Z.mul_comm. apply Z.mul_div_le. apply pow2_pos. lia. }
    assert (2 ^ n <= 2) by (change 2 with (2 ^ 1) at 2; apply Z.pow_le_mono_r; lia).
    lia. }
  set (k := e - (dn - 83)) in *.
  assert (Hk : 0 <= k) by (unfold k; lia).
  assert (HWU : Z.pos m * 2 ^ k < (2 ^ 30 - 1) * U).
  { assert (nsec * T <= 999999999 * T).
    { apply Z.mul_le_mono_nonneg_r; [unfold T; apply Z.lt_le_incl, pow2_pos|]; lia. }
    change (2 ^ 30) with 1073741824 in *. change (2 ^ 23) with 8388608 in *.
    lia. }
  assert (Hklt : 52 + k < 83 - dn).
  { apply (Z.pow_lt_mono_r_iff 2); [lia | lia |].
    rewrite pow2_split by lia. fold T.
    assert (2 ^ 52 * 2 ^ k <= Z.pos m * 2 ^ k).
    { apply Z.mul_le_mono_nonneg_r; [apply Z.lt_le_incl, pow2_pos|]; lia. }
    change (2 ^ 30) with 1073741824 in *. lia. }
  split; [lia|]. split; [exact Hnorm|].
  assert (HTe : T = 2 ^ (- e) * 2 ^ k).
  { unfold T, k. rewrite <- pow2_split by lia. f_equal. lia. }
  apply Z.mul_lt_mono_pos_r with (2 ^ k); [apply pow2_pos; lia|].
  replace ((2 ^ 30 - 1) * 2 ^ (- e) * 2 ^ k) with ((2 ^ 30 - 1) * T)
    by (rewrite HTe; ring).
  rewrite HT. change (2 ^ 30) with 1073741824 in *. lia.
Qed.

End Float64Div.

Section Float64Add.

(** Adding a fraction that stays [2^-30] below 1 to a whole number of
    seconds below [2^23] cannot reach the next whole number. *)
Lemma add_fraction_truncates sec ms mx ex :
  0 < sec < 2 ^ 23 ->
  Z.pos ms = sec * 2 ^ (53 - Zdigits2 sec) ->
  -1074 <= ex <= -53 ->
  2 ^ 52 <= Z.pos mx ->
  Z.pos mx * 2 ^ 30 < (2 ^ 30 - 1) * 2 ^ (- ex) ->
  int_of_float64
    (SFadd prec emax (S754_finite false ms (Zdigits2 sec - 53))
                     (S754_finite false mx ex)) = sec.
Proof.
  intros Hsec Vs Hex Hmx Hfrac.
  pose proof (Zdigits2_pos sec ltac:(lia)) as [Dlo Dhi].
  pose proof (Zdigits2_positive sec ltac:(lia)) as Dpos.
  set (ds := Zdigits2 sec) in *.
  assert (Hds : ds <= 23).
  { destruct (Z.le_gt_cases ds 23) as [|Hgt]; [assumption|].
    assert (2 ^ 23 <= 2 ^ (ds - 1)) by (apply Z.pow_le_mono_r; lia). lia. }
  set (U := 2 ^ (- ex - 30)).
  assert (HU : 2 ^ 23 <= U) by (unfold U; apply Z.pow_le_mono_r; lia).
  assert (HT : 2 ^ (- ex) = 2 ^ 30 * U).
  { unfold U. rewrite <- pow2_split by lia. f_equal. lia. }
  unfold SFadd. rewrite Z.min_r by lia.
  destruct (shl_align_spec ms (ds - 53) ex) as [_ A1].
  destruct (shl_align_spec mx ex ex) as [_ A2].
  rewrite Z.min_r in A1 by lia. rewrite Z.min_l, Z.sub_diag, Z.mul_1_r in A2 by lia.
  set (a := fst (shl_align ms (ds - 53) ex)) in *.
  set (b := fst (shl_align mx ex ex)) in *.
  cbn [cond_Zopp].
  change (Z.pos a + Z.pos b) with (Z.pos (a + b)).
  cbn [binary_normalize].
  assert (Ea : Z.pos a = sec * (2 ^ 30 * U)).
  { rewrite A1, Vs, <- HT, <- Z.mul_assoc, <- pow2_split by lia.
    f_equal. f_equal. lia. }
  set (M := (a + b)%positive).
  assert (EM : Z.pos M = sec * (2 ^ 30 * U) + Z.pos mx).
  { unfold M. rewrite Pos2Z.inj_add, Ea, A2. reflexivity. }
  assert (Hmxlt : Z.pos mx < (2 ^ 30 - 1) * U).
  { rewrite HT in Hfrac. change (2 ^ 30) with 1073741824 in *. lia. }
  pose proof (digits2_pos_bounds M) as [Mlo Mhi].
  set (D := Z.pos (digits2_pos M)) in *.
  assert (HDlo : 54 <= D).
  { destruct (Z.le_gt_cases 54 D) as [|Hlt]; [assumption|].
    assert (2 ^ D <= 2 ^ 53) by (apply Z.pow_le_mono_r; unfold D; lia).
    change (2 ^ 53) with (2 ^ 30 * 2 ^ 23) in *.
    change (2 ^ 30) with 1073741824 in *. change (2 ^ 23) with 8388608 in *.
    nia. }
  assert (HDhi : D <= 23 - ex).
  { destruct (Z.le_gt_cases D (23 - ex)) as [|Hgt]; [assumption|].
    assert (2 ^ (23 - ex) <= 2 ^ (D - 1)) by (apply Z.pow_le_mono_r; lia).
    replace (23 - ex) with (23 + - ex) in * by lia.
    rewrite pow2_split, HT in * by lia.
    change (2 ^ 30) with 1073741824 in *. change (2 ^ 23) with 8388608 in *.
    nia. }
  unfold binary_round.
  assert (Hf : fexp prec emax (Z.pos (digits2_pos M) + ex) = D + ex - 53).
  { unfold fexp, SpecFloat.emin, prec, emax. fold D. lia. }
  rewrite Hf.
  destruct (shl_align_spec M ex (D + ex - 53)) as [S1 S2].
  destruct (shl_align M ex (D + ex - 53)) as [mz ez]. cbn [fst snd] in *.
  rewrite Z.min_l in S1, S2 by lia. subst ez.
  rewrite Z.sub_diag, Z.mul_1_r in S2. injection S2 as ->.
  destruct (binary_round_aux_bounds (Z.pos M) ex loc_Exact)
    as (m & e & Eres & He & [Hlo Hup] & Hnorm); [cbn [Zdigits2]; fold D; lia..|].
  rewrite Eres. cbn [Zdigits2] in *. fold D in He, Hlo, Hup.
  rewrite Z.max_r in * by lia.
  set (n := D - 53) in *.
  assert (Hn : 1 <= n <= - ex - 30) by (unfold n; lia).
  assert (Hbig : 2 ^ 52 <= Z.pos M).
  { apply Z.le_trans with (2 ^ (D - 1)); [|exact Mlo].
    apply Z.pow_le_mono_r; lia. }
  specialize (Hnorm Hbig).
  set (V := 2 ^ (- ex - 30 - n)).
  assert (HV : U = V * 2 ^ n).
  { unfold U, V. rewrite <- pow2_split by lia. f_equal. lia. }
  assert (H2n : 0 < 2 ^ n) by (apply pow2_pos; lia).
  assert (HVpos : 0 < V) by (unfold V; apply pow2_pos; lia).
  set (k := e - ex) in *.
  assert (Hk : n <= k) by (unfold k; lia).
  (* below: the whole seconds are a multiple of the last place *)
  assert (Hlow : sec * (2 ^ 30 * U) <= Z.pos m * 2 ^ k).
  { eapply Z.le_trans; [|exact Hlo].
    assert (sec * 2 ^ 30 * V <= Z.pos M / 2 ^ n).
    { apply Z.div_le_lower_bound; [exact H2n|]. rewrite EM, HV. nia. }
    rewrite HV. nia. }
  (* above: one unit in the last place does not reach the next second *)
  assert (Hhigh : Z.pos m * 2 ^ k < (sec + 1) * (2 ^ 30 * U)).
  { eapply Z.le_lt_trans; [exact Hup|].
    assert (Z.pos M / 2 ^ n * 2 ^ n <= Z.pos M)
      by (rewrite Z.mul_comm; apply Z.mul_div_le; exact H2n).
    assert (2 ^ n <= U) by (rewrite HV; nia).
    change (2 ^ 30) with 1073741824 in *. nia. }
  assert (Hklt : 52 + k < 23 - ex).
  { apply (Z.pow_lt_mono_r_iff 2); [lia | lia |].
    rewrite pow2_split by lia.
    replace (23 - ex) with (23 + - ex) by lia. rewrite pow2_split, HT by lia.
    assert (2 ^ 52 * 2 ^ k <= Z.pos m * 2 ^ k).
    { apply Z.mul_le_mono_nonneg_r; [apply Z.lt_le_incl, pow2_pos|]; lia. }
    change (2 ^ 30) with 1073741824 in *. change (2 ^ 23) with 8388608 in *.
    nia. }
  assert (He0 : e < 0) by (unfold k in Hklt; lia).
  destruct e as [|pe|pe]; try lia.
  cbn [int_of_float64].
  assert (HTe : 2 ^ 30 * U = 2 ^ Z.pos pe * 2 ^ k).
  { rewrite <- HT, <- pow2_split by lia. f_equal. unfold k. lia. }
  assert (H2k : 0 < 2 ^ k) by (apply pow2_pos; lia).
  assert (H2e : 0 < 2 ^ Z.pos pe) by (apply pow2_pos; lia).
  rewrite HTe in Hlow, Hhigh.
  symmetry. apply (Z.div_unique _ _ _ (Z.pos m - sec * 2 ^ Z.pos pe)).
  - left. split.
    + assert (sec * 2 ^ Z.pos pe <= Z.pos m); [|lia].
      apply Z.mul_le_mono_pos_r with (2 ^ k); [exact H2k|]. lia.
    + assert (Z.pos m < (sec + 1) * 2 ^ Z.pos pe); [|lia].
      apply Z.mul_lt_mono_pos_r with (2 ^ k); [exact H2k|]. lia.
  - lia.
Qed.

End Float64Add.

Section SecondsFloor.

Lemma float64_of_int_0 : float64_of_int 0 = S754_zero false.
Proof. reflexivity. Qed.

Lemma int_of_float64_whole n :
  0 < n < 2 ^ 53 -> int_of_float64 (float64_of_int n) = n.
Proof.
  intros Hn. destruct (float64_of_int_exact n Hn) as (m & -> & Vm & _).
  pose proof (Zdigits2_pos n ltac:(lia)) as [Dlo Dhi].
  pose proof (Zdigits2_positive n ltac:(lia)) as Dpos.
  assert (Hd : Zdigits2 n <= 53).
  { destruct (Z.le_gt_cases (Zdigits2 n) 53) as [|Hgt]; [assumption|].
    assert (2 ^ 53 <= 2 ^ (Zdigits2 n - 1)) by (apply Z.pow_le_mono_r; lia).
    lia. }
  cbn [int_of_float64].
  destruct (Zdigits2 n - 53) as [|p|p] eqn:E; try lia.
  - replace (53 - Zdigits2 n) with 0 in Vm by lia. cbn in Vm |- *. lia.
  - replace (53 - Zdigits2 n) with (Z.pos p) in Vm by lia.
    rewrite Vm. apply Z.div_mul. pose proof (pow2_pos (Z.pos p)). lia.
Qed.

(** [int(d.Seconds())] is the floor of the seconds for every duration below
    [2^23] seconds, and for every whole number of seconds below [2^53]. *)
Lemma Seconds_floor d :
  0 <= d ->
  d / Second < 2 ^ 23 \/ (d mod Second = 0 /\ d / Second < 2 ^ 53) ->
  int_of_float64 (Seconds d) = d / Second.
Proof.
  intros Hd Hrange. unfold Seconds.
  assert (HS : 0 < Second) by reflexivity.
  rewrite Z.quot_div_nonneg, Z.rem_mod_nonneg by lia.
  pose proof (Z.mod_pos_bound d Second HS) as Hns.
  assert (Hsec : 0 <= d / Second) by (apply Z.div_pos; lia).
  set (sec := d / Second) in *. set (nsec := d mod Second) in *.
  assert (H2353 : 2 ^ 23 < 2 ^ 53) by reflexivity.
  destruct (Z.eq_dec nsec 0) as [En|Nn].
  - rewrite En, float64_of_int_0, float64_1e9_eq. cbn [SFdiv xorb].
    assert (Hs53 : sec < 2 ^ 53) by lia.
    destruct (Z.eq_dec sec 0) as [->|Ns]; [reflexivity|].
    rewrite <- (int_of_float64_whole sec) at 2 by lia.
    destruct (float64_of_int_exact sec ltac:(lia)) as (m & -> & _).
    reflexivity.
  - assert (Hs23 : sec < 2 ^ 23) by (destruct Hrange as [|[? _]]; [assumption|contradiction]).
    destruct (nsec_fraction_bound nsec) as (mx & ex & -> & Hex & Hmx & Hfrac);
      [unfold Second in Hns; lia|].
    destruct (Z.eq_dec sec 0) as [->|Ns].
    + rewrite float64_of_int_0. cbn [SFadd int_of_float64].
      destruct ex as [|pe|pe]; try lia.
      apply Z.div_small. split; [lia|].
      change (- Z.neg pe) with (Z.pos pe) in Hfrac.
      pose proof (pow2_pos (Z.pos pe)).
      change (2 ^ 30) with 1073741824 in *. lia.
    + destruct (float64_of_int_exact sec ltac:(lia)) as (ms & -> & Vs & _).
      apply add_fraction_truncates; try assumption. lia.
Qed.

End SecondsFloor.

(** ** Status derivation *)

Section StatusFacts.

Variable entry : DelayEntry.
Variables tSince tNow : Time.

Let d := TotalDelaySecs entry.
Let createdAt := DateTimeAdded entry.

Lemma status_completed_flag :
  IsCompleted entry = true ->
  getStatusDetails entry tSince tNow
  = (d, "completed"%string, "status-complete"%string).
Proof. unfold getStatusDetails. intros ->. reflexivity. Qed.

(** Without overflow the expected completion time is [createdAt + d]
    seconds. *)
Lemma expected_completion_exact :
  GoInt.inRange (d * Second) ->
  Add createdAt (seconds_to_Duration d) = createdAt + d * Second.
Proof.
  intros Hd. unfold Add, seconds_to_Duration, GoInt.mul.
  rewrite wrap_id; auto.
Qed.

Lemma status_clock_late :
  IsCompleted entry = false ->
  GoInt.inRange (d * Second) ->
  createdAt + d * Second < tNow ->
  getStatusDetails entry tSince tNow
  = (d, "completed"%string, "status-complete"%string).
Proof.
  intros Hc Hd Hlt. unfold getStatusDetails.
  fold d createdAt. rewrite expected_completion_exact by assumption.
  rewrite Hc. unfold After.
  destruct (Z.ltb_spec (createdAt + d * Second) tNow); [reflexivity | lia].
Qed.

Lemma status_clock_early :
  IsCompleted entry = false ->
  GoInt.inRange (d * Second) ->
  tNow <= createdAt + d * Second ->
  getStatusDetails entry tSince tNow
  = (int_of_float64 (Seconds (Since tSince createdAt)),
     "in-progress"%string, "status-progress"%string).
Proof.
  intros Hc Hd Hle. unfold getStatusDetails.
  fold d createdAt. rewrite expected_completion_exact by assumption.
  rewrite Hc. unfold After.
  destruct (Z.ltb_spec (createdAt + d * Second) tNow); [lia | reflexivity].
Qed.

End StatusFacts.

(** C1 (as amended).  A job flagged completed is reported "completed" at
    every time.  For a job not flagged completed whose delay of [d] seconds
    fits a 64-bit nanosecond [Duration], the status is "in-progress" at every
    [now <= createdAt + d] and "completed" at every [now > createdAt + d]:
    the clock test is the strict [time.Now().After(expected)]. *)
Theorem status_by_flag_and_strict_clock (entry : DelayEntry) (tSince now : Time) :
  (IsCompleted entry = true ->
     statusOf (getStatusDetails entry tSince now) = "completed"%string) /\
  (IsCompleted entry = false ->
   GoInt.inRange (TotalDelaySecs entry * Second) ->
     (now <= DateTimeAdded entry + TotalDelaySecs entry * Second ->
        statusOf (getStatusDetails entry tSince now) = "in-progress"%string) /\
     (DateTimeAdded entry + TotalDelaySecs entry * Second < now ->
        statusOf (getStatusDetails entry tSince now) = "completed"%string)).
Proof.
  split; [|intros Hc Hd; split].
  - intros Hc. rewrite status_completed_flag by assumption. reflexivity.
  - intros Hle. rewrite status_clock_early by assumption. reflexivity.
  - intros Hlt. rewrite status_clock_late by assumption. reflexivity.
Qed.

Lemma status_by_flag_and_strict_clock_witness :
  statusOf (getStatusDetails job5 (3 * Second) (3 * Second)) = "in-progress"%string /\
  statusOf (getStatusDetails job5 (5 * Second) (5 * Second)) = "in-progress"%string /\
  statusOf (getStatusDetails job5 (5 * Second + 1) (5 * Second + 1)) = "completed"%string /\
  statusOf (getStatusDetails job5_done 0 0) = "completed"%string.
Proof.
  pose proof (status_by_flag_and_strict_clock job5) as H.
  assert (Hr : GoInt.inRange (TotalDelaySecs job5 * Second))
    by (vm_compute; split; discriminate).
  split; [|split; [|split]].
  - apply (proj2 (H (3 * Second) (3 * Second)) eq_refl Hr). vm_compute. discriminate.
  - apply (proj2 (H (5 * Second) (5 * Second)) eq_refl Hr). vm_compute. discriminate.
  - apply (proj2 (H (5 * Second + 1) (5 * Second + 1)) eq_refl Hr). vm_compute. reflexivity.
  - apply (proj1 (status_by_flag_and_strict_clock job5_done 0 0)). reflexivity.
Defined.

(** C1 as stated fails at the boundary: exactly [d] seconds after creation
    an unflagged job is still "in-progress". *)
Lemma status_at_expected_completion_counterexample :
  ~ (forall (entry : DelayEntry) (now : Time),
       IsCompleted entry = false ->
       (now < DateTimeAdded entry + TotalDelaySecs entry * Second ->
          statusOf (getStatusDetails entry now now) = "in-progress"%string) /\
       (DateTimeAdded entry + TotalDelaySecs entry * Second <= now ->
          statusOf (getStatusDetails entry now now) = "completed"%string)).
Proof.
  intros H.
  destruct (H job5 (5 * Second) eq_refl) as [_ H2].
  assert (Hle : DateTimeAdded job5 + TotalDelaySecs job5 * Second <= 5 * Second)
    by (vm_compute; discriminate).
  specialize (H2 Hle). vm_compute in H2. discriminate.
Qed.


(** The second way the elapsed seconds leave the floor: [d.Seconds()] adds
    two [float64] values, and from 2^24 seconds on the sum of a whole number
    of seconds and 0.999999999 rounds up to the next whole number. *)
Lemma elapsed_rounds_up_after_2p24_seconds :
  let now := 16777216 * Second + 999999999 in
  statusOf (getStatusDetails job_231_days now now) = "in-progress"%string /\
  (now - DateTimeAdded job_231_days) / Second = 16777216 /\
  elapsedOf (getStatusDetails job_231_days now now) = 16777217 /\
  Api.RemainingTimeSecs (apiResponse job_231_days now now) = 20000000 - 16777217.
Proof. vm_compute. repeat split. Qed.

(** Where neither the overflow nor the rounding can occur the view is the
    one C5 describes: for every job with a delay of at most [2^23] seconds
    (97 days), read at or after its creation, it shows [d] and 0 once the
    job is completed by flag or by clock, and otherwise the floor of the
    elapsed seconds and what remains of the delay. *)
Lemma status_view_in_range (entry : DelayEntry) (tSince tNow : Time) :
  1 <= TotalDelaySecs entry <= 2 ^ 23 ->
  DateTimeAdded entry <= tSince <= tNow ->
  (IsCompleted entry = true \/
   DateTimeAdded entry + TotalDelaySecs entry * Second < tNow ->
     Api.Status (apiResponse entry tSince tNow) = "completed"%string /\
     Api.ElapsedTimeSecs (apiResponse entry tSince tNow) = TotalDelaySecs entry /\
     Api.RemainingTimeSecs (apiResponse entry tSince tNow) = 0) /\
  (IsCompleted entry = false ->
   tNow <= DateTimeAdded entry + TotalDelaySecs entry * Second ->
     Api.Status (apiResponse entry tSince tNow) = "in-progress"%string /\
     Api.ElapsedTimeSecs (apiResponse entry tSince tNow)
     = (tSince - DateTimeAdded entry) / Second /\
     Api.RemainingTimeSecs (apiResponse entry tSince tNow)
     = Z.max 0 (TotalDelaySecs entry - (tSince - DateTimeAdded entry) / Second)).
Proof.
  intros Hd Ht.
  assert (HS : Second = 1000000000) by reflexivity.
  assert (H23 : 2 ^ 23 = 8388608) by reflexivity.
  assert (Hr : GoInt.inRange (TotalDelaySecs entry * Second)).
  { unfold GoInt.inRange, GoInt.minInt, GoInt.maxInt.
    change (2 ^ 63) with 9223372036854775808. lia. }
  split.
  - intros Hdone. unfold apiResponse.
    assert (E : getStatusDetails entry tSince tNow
                = (TotalDelaySecs entry, "completed"%string, "status-complete"%string)).
    { destruct (IsCompleted entry) eqn:Ec.
      - apply status_completed_flag. exact Ec.
      - apply status_clock_late; [exact Ec | exact Hr |].
        destruct Hdone as [?|?]; [discriminate | assumption]. }
    rewrite E. cbn [Api.Status Api.ElapsedTimeSecs Api.RemainingTimeSecs].
    split; [reflexivity|]. split; [reflexivity|].
    unfold remainingSecs, GoInt.sub. rewrite Z.sub_diag. reflexivity.
  - intros Hc Hle. unfold apiResponse.
    rewrite (status_clock_early entry tSince tNow Hc Hr Hle).
    cbn [Api.Status Api.ElapsedTimeSecs Api.RemainingTimeSecs].
    set (el := tSince - DateTimeAdded entry).
    assert (Hel : 0 <= el <= TotalDelaySecs entry * Second) by (unfold el; lia).
    assert (HSince : Since tSince (DateTimeAdded entry) = el).
    { unfold Since, Sub. fold el.
      rewrite wrap_id
        by (unfold GoInt.inRange, GoInt.minInt, GoInt.maxInt;
            change (2 ^ 63) with 9223372036854775808; lia).
      destruct (Z.ltb_spec el 0); [lia|]. cbn [andb].
      destruct (Z.ltb_spec 0 el); [|reflexivity].
      destruct (Z.ltb_spec tSince (DateTimeAdded entry)); [lia | reflexivity]. }
    rewrite HSince.
    assert (Hq : 0 <= el / Second <= TotalDelaySecs entry).
    { split; [apply Z.div_pos; lia|].
      apply Z.div_le_upper_bound; lia. }
    assert (Hfloor : int_of_float64 (Seconds el) = el / Second).
    { apply Seconds_floor; [lia|].
      destruct (Z.eq_dec (el / Second) (2 ^ 23)) as [E|NE]; [right | left; lia].
      split; [|rewrite E; reflexivity].
      assert (el = TotalDelaySecs entry * Second).
      { pose proof (Z.mul_div_le el Second ltac:(lia)). lia. }
      subst el. rewrite H. apply Z.mod_mul. lia. }
    rewrite Hfloor. split; [reflexivity|]. split; [reflexivity|].
    unfold remainingSecs, GoInt.sub.
    rewrite wrap_id
      by (unfold GoInt.inRange, GoInt.minInt, GoInt.maxInt;
          change (2 ^ 63) with 9223372036854775808; lia).
    destruct (Z.ltb_spec (TotalDelaySecs entry - el / Second) 0); lia.
Qed.

(** ** The completion callback *)

(** What [runTimer] writes into a stored entry. *)
Lemma runTimer_present st jobID entry now :
  history st !! jobID = Some entry ->
  runTimer st jobID now
  = {| history :=
         <[jobID := {| ID := ID entry; Name := Name entry;
                       DateTimeAdded := DateTimeAdded entry;
                       TotalDelaySecs := TotalDelaySecs entry;
                       IsCompleted := true;
                       CompletedTime := Some now |}]> (history st);
       historyOrder := historyOrder st;
       nextEntryID := nextEntryID st |}.
Proof. unfold runTimer. intros ->. reflexivity. Qed.

Lemma runTimer_absent st jobID now :
  history st !! jobID = None -> runTimer st jobID now = st.
Proof. unfold runTimer. intros ->. reflexivity. Qed.

(** C7.  A completion fire for an ID the registry does not hold leaves the
    whole registry state as it was: nothing is created under that ID, and
    the goroutine simply ends. *)
Theorem fire_for_absent_job_is_absorbed (w : World) (k : nat) (jobID delay : Z)
    (now : Time) :
  history (registry w) !! jobID = None ->
  runTimer (registry w) jobID now = registry w /\
  history (runTimer (registry w) jobID now) !! jobID = None /\
  (sleeping w !! k = Some (jobID, delay) ->
   registry (exec w (TimerFires k now)) = registry w).
Proof.
  intros Hn. pose proof (runTimer_absent _ jobID now Hn) as E.
  split; [exact E|]. split; [rewrite E; exact Hn|].
  intros Hk. cbn. rewrite Hk. cbn. exact E.
Qed.

Lemma fire_for_absent_job_is_absorbed_witness :
  runTimer (registry (run initWorld (posts 12))) 1 (3 * Second)
  = registry (run initWorld (posts 12)).
Proof.
  assert (H : history (registry (run initWorld (posts 12))) !! 1 = None)
    by (vm_compute; reflexivity).
  exact (proj1 (fire_for_absent_job_is_absorbed
                  (run initWorld (posts 12)) 0 1 3 (3 * Second) H)).
Defined.

(** ** Creation *)

(** C6.  The POST is rejected as an invalid delay exactly when the parsed
    delay is below 1 (or the form value is not an [int] at all), and a
    rejected POST changes nothing: the history, the insertion order, the ID
    counter and the set of armed timers are those of before. *)
Theorem invalid_delay_rejected_without_effect (w : World)
    (delayStr jobName : string) (now : Time) :
  (forall delay, Strconv.Atoi delayStr = Some delay ->
     snd (startHandler_POST w delayStr jobName now) = InvalidDelay <-> delay < 1) /\
  (Strconv.Atoi delayStr = None ->
     snd (startHandler_POST w delayStr jobName now) = InvalidDelay) /\
  (snd (startHandler_POST w delayStr jobName now) = InvalidDelay ->
     fst (startHandler_POST w delayStr jobName now) = w /\
     history (registry (fst (startHandler_POST w delayStr jobName now)))
     = history (registry w) /\
     historyOrder (registry (fst (startHandler_POST w delayStr jobName now)))
     = historyOrder (registry w) /\
     nextEntryID (registry (fst (startHandler_POST w delayStr jobName now)))
     = nextEntryID (registry w) /\
     sleeping (fst (startHandler_POST w delayStr jobName now)) = sleeping w).
Proof.
  unfold startHandler_POST.
  destruct (Strconv.Atoi delayStr) as [delay|] eqn:Ea.
  - destruct (Z.ltb_spec delay 1) as [Hlt|Hge].
    + split; [|split]; cbn.
      * intros ? [= <-]. tauto.
      * discriminate.
      * intros _. repeat split.
    + destruct (createEntry (registry w) jobName delay now) as [st jobID].
      split; [|split]; cbn.
      * intros ? [= <-]. split; [discriminate | lia].
      * discriminate.
      * discriminate.
  - split; [|split]; cbn.
    + discriminate.
    + reflexivity.
    + intros _. repeat split.
Qed.

Lemma invalid_delay_rejected_without_effect_witness :
  (snd (startHandler_POST (run initWorld (posts 3)) "0" "nap" (7 * Second))
   = InvalidDelay <-> 0 < 1) /\
  (snd (startHandler_POST (run initWorld (posts 3)) "4" "nap" (7 * Second))
   = InvalidDelay <-> 4 < 1) /\
  fst (startHandler_POST (run initWorld (posts 3)) "-2" "nap" (7 * Second))
  = run initWorld (posts 3).
Proof.
  split; [|split].
  - apply (invalid_delay_rejected_without_effect
             (run initWorld (posts 3)) "0" "nap" (7 * Second)). reflexivity.
  - apply (invalid_delay_rejected_without_effect
             (run initWorld (posts 3)) "4" "nap" (7 * Second)). reflexivity.
  - apply (invalid_delay_rejected_without_effect
             (run initWorld (posts 3)) "-2" "nap" (7 * Second)). reflexivity.
Defined.

(** ** Bounding the history *)

Section KeepHistoryBounded.

Lemma keepHistoryBounded_loop_order order h :
  fst (keepHistoryBounded_loop order h) = mostRecent order.
Proof.
  unfold mostRecent. revert h.
  induction order as [|x rest IH]; intros h; [reflexivity|].
  cbn [keepHistoryBounded_loop].
  destruct (Z.ltb_spec maxHistory (Z.of_nat (length (x :: rest)))) as [Hgt|Hle].
  - rewrite IH. cbn [length] in *. unfold maxHistory in *.
    replace (S (length rest) - Z.to_nat 10)%nat
      with (S (length rest - Z.to_nat 10))%nat by lia.
    reflexivity.
  - cbn [fst length] in *. unfold maxHistory in *.
    replace (S (length rest) - Z.to_nat 10)%nat with 0%nat by lia.
    reflexivity.
Qed.

(** One entry too many: exactly the oldest one goes. *)
Lemma keepHistoryBounded_loop_one_over oldest rest h :
  Z.of_nat (length rest) = maxHistory ->
  keepHistoryBounded_loop (oldest :: rest) h = (rest, delete oldest h).
Proof.
  intros Hlen. cbn [keepHistoryBounded_loop].
  destruct (Z.ltb_spec maxHistory (Z.of_nat (length (oldest :: rest))));
    [|cbn [length] in *; lia].
  destruct rest as [|y rest']; [reflexivity|].
  cbn [keepHistoryBounded_loop].
  destruct (Z.ltb_spec maxHistory (Z.of_nat (length (y :: rest'))));
    [lia | reflexivity].
Qed.

Lemma keepHistoryBounded_loop_consistent order (h : gmap Z DelayEntry) :
  NoDup order ->
  dom h = list_to_set order ->
  dom (snd (keepHistoryBounded_loop order h))
  = list_to_set (fst (keepHistoryBounded_loop order h)) /\
  NoDup (fst (keepHistoryBounded_loop order h)).
Proof.
  revert h. induction order as [|x rest IH]; intros h Hnd Hdom; [auto|].
  cbn [keepHistoryBounded_loop].
  destruct (maxHistory <? Z.of_nat (length (x :: rest))); [|auto].
  apply NoDup_cons in Hnd as [Hx Hnd].
  apply IH; [assumption|].
  rewrite dom_delete_L, Hdom. cbn [list_to_set].
  apply set_eq. intros y.
  rewrite elem_of_difference, elem_of_union, elem_of_singleton,
    elem_of_list_to_set.
  split.
  - intros [[->|Hy] Hne]; [contradiction | exact Hy].
  - intros Hy. split; [right; exact Hy | intros ->; contradiction].
Qed.

Lemma keepHistoryBounded_loop_lookup order (h : gmap Z DelayEntry) id e :
  snd (keepHistoryBounded_loop order h) !! id = Some e -> h !! id = Some e.
Proof.
  revert h. induction order as [|x rest IH]; intros h; [auto|].
  cbn [keepHistoryBounded_loop].
  destruct (maxHistory <? Z.of_nat (length (x :: rest))); [|auto].
  intros H. apply IH in H. apply lookup_delete_Some in H. tauto.
Qed.

(** The early return of [keepHistoryBounded] is what the loop does anyway
    on a short list. *)
Lemma keepHistoryBounded_unfold st :
  keepHistoryBounded st
  = {| history := snd (keepHistoryBounded_loop (historyOrder st) (history st));
       historyOrder := fst (keepHistoryBounded_loop (historyOrder st) (history st));
       nextEntryID := nextEntryID st |}.
Proof.
  unfold keepHistoryBounded.
  destruct (Z.leb_spec (Z.of_nat (length (historyOrder st))) maxHistory) as [Hle|Hgt].
  - destruct st as [h [|x rest] nxt]; [reflexivity|].
    cbn [historyOrder history nextEntryID keepHistoryBounded_loop] in *.
    destruct (Z.ltb_spec maxHistory (Z.of_nat (length (x :: rest)))); [lia|].
    reflexivity.
  - destruct (keepHistoryBounded_loop (historyOrder st) (history st)).
    reflexivity.
Qed.

Lemma keepHistoryBounded_consistent st :
  consistent st -> consistent (keepHistoryBounded st).
Proof.
  intros [Hdom Hnd]. rewrite keepHistoryBounded_unfold. unfold consistent.
  cbn [history historyOrder].
  apply keepHistoryBounded_loop_consistent; assumption.
Qed.

Lemma keepHistoryBounded_length st :
  (length (historyOrder (keepHistoryBounded st)) <= Z.to_nat maxHistory)%nat.
Proof.
  unfold keepHistoryBounded.
  destruct (Z.leb_spec (Z.of_nat (length (historyOrder st))) maxHistory) as [Hle|Hgt].
  - lia.
  - pose proof (keepHistoryBounded_loop_order (historyOrder st) (history st)) as E.
    destruct (keepHistoryBounded_loop (historyOrder st) (history st)) as [o h].
    cbn [fst] in E. cbn [historyOrder]. subst o. unfold mostRecent.
    rewrite length_drop. lia.
Qed.

End KeepHistoryBounded.

(** ** The window of retained IDs *)

Section IdWindow.

Lemma idWindow_small n : 0 <= n < maxHistory ->
  idWindow n = GoInt.wrap <$> seqZ 1 n.
Proof.
  intros Hn. unfold idWindow. rewrite Z.min_l by lia. f_equal. f_equal. lia.
Qed.

Lemma idWindow_full n : maxHistory <= n ->
  idWindow n = GoInt.wrap <$> seqZ (1 + n - maxHistory) maxHistory.
Proof. intros Hn. unfold idWindow. rewrite Z.min_r by lia. reflexivity. Qed.

Lemma length_idWindow n : 0 <= n ->
  length (idWindow n) = Z.to_nat (Z.min n maxHistory).
Proof. intros Hn. unfold idWindow. rewrite length_fmap, length_seqZ. reflexivity. Qed.

Lemma elem_of_idWindow n id :
  id ∈ idWindow n <->
  exists i, id = GoInt.wrap i /\ 1 + n - Z.min n maxHistory <= i <= n.
Proof.
  unfold idWindow. rewrite list_elem_of_fmap.
  split; intros [i [-> Hi]]; exists i; (split; [reflexivity|]).
  - apply elem_of_seqZ in Hi. lia.
  - apply elem_of_seqZ. lia.
Qed.

Lemma NoDup_idWindow n : NoDup (idWindow n).
Proof.
  unfold idWindow. apply NoDup_fmap_2_strong; [|apply NoDup_seqZ].
  intros x y Hx Hy Heq. apply elem_of_seqZ in Hx, Hy.
  apply wrap_inj_near; [assumption|]. unfold maxHistory in *. lia.
Qed.

(** The next ID is not one of the retained ones. *)
Lemma idWindow_fresh n : 0 <= n -> GoInt.wrap (1 + n) ∉ idWindow n.
Proof.
  intros Hn [i [Heq Hi]]%elem_of_idWindow.
  apply wrap_inj_near in Heq; unfold maxHistory in *; lia.
Qed.

Lemma seqZ_snoc m n : 0 <= n -> seqZ m (n + 1) = seqZ m n ++ [m + n].
Proof.
  intros Hn. rewrite seqZ_app by lia. reflexivity.
Qed.

Lemma idWindow_succ n : 0 <= n ->
  mostRecent (idWindow n ++ [GoInt.wrap (1 + n)]) = idWindow (n + 1).
Proof.
  intros Hn. unfold mostRecent.
  rewrite length_app, length_idWindow by assumption. cbn [length].
  destruct (Z.lt_ge_cases n maxHistory) as [Hlt|Hge].
  - rewrite Z.min_l by lia.
    replace (Z.to_nat n + 1 - Z.to_nat maxHistory)%nat with 0%nat by lia.
    rewrite drop_0, idWindow_small by lia.
    assert (E : idWindow (n + 1) = GoInt.wrap <$> seqZ 1 (n + 1)).
    { destruct (Z.eq_dec (n + 1) maxHistory) as [E|NE].
      - rewrite idWindow_full by lia. rewrite <- E. f_equal. f_equal. lia.
      - apply idWindow_small. lia. }
    rewrite E, seqZ_snoc, fmap_app by lia. reflexivity.
  - rewrite Z.min_r by lia.
    replace (Z.to_nat maxHistory + 1 - Z.to_nat maxHistory)%nat with 1%nat by lia.
    rewrite !idWindow_full by lia.
    rewrite (seqZ_cons (1 + n - maxHistory)) by (unfold maxHistory; lia).
    cbn [fmap list_fmap skipn app].
    replace maxHistory with (Z.pred maxHistory + 1) at 4 by lia.
    rewrite seqZ_snoc, fmap_app by (unfold maxHistory; lia).
    replace (Z.succ (1 + n - maxHistory)) with (1 + (n + 1) - maxHistory) by lia.
    replace (1 + (n + 1) - maxHistory + Z.pred maxHistory) with (1 + n) by lia.
    reflexivity.
Qed.

End IdWindow.

(** ** The invariant along a run *)

Section Invariant.

Lemma RegistryInv_init : RegistryInv 0 initState.
Proof.
  split; cbn [initState history historyOrder nextEntryID].
  - lia.
  - reflexivity.
  - reflexivity.
  - rewrite dom_empty_L. reflexivity.
  - intros id e H. rewrite lookup_empty in H. discriminate.
Qed.

Lemma RegistryInv_consistent n st : RegistryInv n st -> consistent st.
Proof.
  intros [_ _ Ho Hd _]. split; [assumption|].
  rewrite Ho. apply NoDup_idWindow.
Qed.

Lemma RegistryInv_lookup n st id :
  RegistryInv n st -> (is_Some (history st !! id) <-> id ∈ historyOrder st).
Proof.
  intros [_ _ _ Hd _]. rewrite <- elem_of_dom, Hd, elem_of_list_to_set.
  reflexivity.
Qed.

(** A create issues the ID [n + 1] (as an [int]), stores the new entry
    under it and leaves the registry in the state of [n + 1] creates. *)
Lemma createEntry_inv n st jobName delay now :
  RegistryInv n st ->
  snd (createEntry st jobName delay now) = GoInt.wrap (1 + n) /\
  RegistryInv (n + 1) (fst (createEntry st jobName delay now)) /\
  historyOrder (fst (createEntry st jobName delay now))
  = mostRecent (historyOrder st ++ [GoInt.wrap (1 + n)]) /\
  history (fst (createEntry st jobName delay now)) !! GoInt.wrap (1 + n)
  = Some {| ID := GoInt.wrap (1 + n); Name := jobName;
            DateTimeAdded := now; TotalDelaySecs := delay;
            IsCompleted := false; CompletedTime := None |}.
Proof.
  intros [Hn Hnext Hord Hdom Hids].
  unfold createEntry. rewrite keepHistoryBounded_unfold. unfold insertEntry.
  cbn [fst snd history historyOrder nextEntryID].
  rewrite Hnext, Hord.
  set (new := GoInt.wrap (1 + n)).
  set (e := {| ID := new; Name := jobName; DateTimeAdded := now;
               TotalDelaySecs := delay; IsCompleted := false;
               CompletedTime := None |}).
  set (h1 := <[new := e]> (history st)).
  set (o1 := idWindow n ++ [new]).
  assert (Hnd1 : NoDup o1).
  { apply NoDup_app. split; [apply NoDup_idWindow|]. split.
    - intros x Hx Hx'. apply list_elem_of_singleton in Hx'. subst x.
      apply (idWindow_fresh n Hn). exact Hx.
    - apply NoDup_singleton. }
  assert (Hdom1 : dom h1 = list_to_set o1).
  { unfold h1, o1. rewrite dom_insert_L, Hdom, Hord, list_to_set_app_L.
    cbn [list_to_set]. apply set_eq. intros y.
    rewrite !elem_of_union, elem_of_singleton, elem_of_empty. tauto. }
  destruct (keepHistoryBounded_loop_consistent o1 h1 Hnd1 Hdom1) as [Hdom2 Hnd2].
  pose proof (keepHistoryBounded_loop_order o1 h1) as Ho2.
  pose proof (keepHistoryBounded_loop_lookup o1 h1) as Hl2.
  destruct (keepHistoryBounded_loop o1 h1) as [o2 h2].
  cbn [fst snd] in *.
  assert (Ho3 : o2 = idWindow (n + 1))
    by (rewrite Ho2; apply idWindow_succ; exact Hn).
  split; [reflexivity|]. split; [|split; [exact Ho2|]].
  - split; cbn [history historyOrder nextEntryID].
    + lia.
    + unfold GoInt.add, new. rewrite wrap_add_l. f_equal. lia.
    + exact Ho3.
    + exact Hdom2.
    + intros id e' He'. apply Hl2 in He'. unfold h1 in He'.
      apply lookup_insert_Some in He' as [[<- <-]|[_ He']]; [reflexivity|].
      apply Hids in He'. exact He'.
  - assert (Hin : new ∈ o2).
    { rewrite Ho3. apply elem_of_idWindow. exists (1 + n).
      split; [reflexivity|]. unfold maxHistory. lia. }
    apply (elem_of_list_to_set (C := gset Z)) in Hin. rewrite <- Hdom2 in Hin.
    apply elem_of_dom in Hin as [e' He']. rewrite He'. f_equal.
    apply Hl2 in He'. unfold h1 in He'. rewrite lookup_insert_eq in He'.
    congruence.
Qed.

Lemma runTimer_inv n st jobID now :
  RegistryInv n st -> RegistryInv n (runTimer st jobID now).
Proof.
  intros Hinv. unfold runTimer.
  destruct (history st !! jobID) as [entry|] eqn:He; [|exact Hinv].
  destruct Hinv as [Hn Hnext Hord Hdom Hids].
  split; cbn [history historyOrder nextEntryID]; try assumption.
  - rewrite dom_insert_L, <- Hdom.
    assert (jobID ∈ dom (history st)) by (apply elem_of_dom; eauto).
    apply set_eq. intros y. rewrite elem_of_union, elem_of_singleton.
    split; [intros [->|Hy]; assumption | auto].
  - intros id e' He'.
    apply lookup_insert_Some in He' as [[<- <-]|[_ He']]; cbn [ID].
    + apply Hids in He. exact He.
    + apply Hids in He'. exact He'.
Qed.

(** What one step does to the count of creates and to the issued IDs. *)
Lemma exec_inv n w op :
  RegistryInv n (registry w) ->
  (issuedIDs w [op] = [] /\ RegistryInv n (registry (exec w op))) \/
  (issuedIDs w [op] = [GoInt.wrap (1 + n)] /\
   RegistryInv (n + 1) (registry (exec w op))).
Proof.
  intros Hinv. destruct op as [delayStr jobName now | k now];
    cbn [issuedIDs exec].
  - unfold startHandler_POST.
    destruct (Strconv.Atoi delayStr) as [delay|]; [|left; auto].
    destruct (delay <? 1); [left; auto|].
    destruct (createEntry_inv n (registry w) jobName delay now Hinv)
      as (Hid & Hinv' & _).
    destruct (createEntry (registry w) jobName delay now) as [st jobID].
    cbn [fst snd registry] in *. right. subst jobID. auto.
  - left. split; [reflexivity|].
    destruct (sleeping w !! k) as [[jobID delay]|]; [|exact Hinv].
    cbn [registry]. apply runTimer_inv. exact Hinv.
Qed.

Lemma issuedIDs_cons w op ops :
  issuedIDs w (op :: ops) = issuedIDs w [op] ++ issuedIDs (exec w op) ops.
Proof.
  cbn [issuedIDs]. destruct op as [delayStr jobName now | k now]; cbn [app].
  - destruct (snd (startHandler_POST w delayStr jobName now)); reflexivity.
  - reflexivity.
Qed.

(** Along any run the issued IDs are [n+1, n+2, ...] as [int]s and the
    registry is in the state of that many creates. *)
Lemma run_inv ops : forall n w,
  RegistryInv n (registry w) ->
  let c := Z.of_nat (length (issuedIDs w ops)) in
  issuedIDs w ops = GoInt.wrap <$> seqZ (1 + n) c /\
  RegistryInv (n + c) (registry (run w ops)).
Proof.
  induction ops as [|op ops IH]; intros n w Hinv; cbn zeta.
  - cbn. rewrite Z.add_0_r. auto.
  - rewrite issuedIDs_cons. cbn [run fold_left]. fold (run (exec w op) ops).
    destruct (exec_inv n w op Hinv) as [[E Hinv']|[E Hinv']]; rewrite E.
    + cbn [app]. apply IH. exact Hinv'.
    + destruct (IH (n + 1) (exec w op) Hinv') as [Hids Hrun].
      cbn [app length]. rewrite Nat2Z.inj_succ.
      set (c := Z.of_nat (length (issuedIDs (exec w op) ops))) in *.
      split.
      * rewrite seqZ_cons by lia. cbn [fmap list_fmap]. f_equal.
        rewrite Hids. f_equal. f_equal; lia.
      * replace (n + Z.succ c) with (n + 1 + c) by lia. exact Hrun.
Qed.

Lemma run_inv_init ops :
  let c := Z.of_nat (length (issuedIDs initWorld ops)) in
  issuedIDs initWorld ops = GoInt.wrap <$> seqZ 1 c /\
  RegistryInv c (registry (run initWorld ops)).
Proof. apply (run_inv ops 0 initWorld). exact RegistryInv_init. Qed.

Lemma run_app w ops1 ops2 : run w (ops1 ++ ops2) = run (run w ops1) ops2.
Proof. unfold run. apply fold_left_app. Qed.

(** The retained IDs are the most recent of the issued ones. *)
Lemma mostRecent_issued c : 0 <= c ->
  mostRecent (GoInt.wrap <$> seqZ 1 c) = idWindow c.
Proof.
  intros Hc. unfold mostRecent, idWindow.
  rewrite length_fmap, length_seqZ, <- fmap_drop. f_equal.
  destruct (Z.lt_ge_cases c maxHistory) as [Hlt|Hge].
  - rewrite Z.min_l by lia.
    replace (Z.to_nat c - Z.to_nat maxHistory)%nat with 0%nat by lia.
    rewrite drop_0. f_equal. lia.
  - rewrite Z.min_r by lia.
    replace c with ((c - maxHistory) + maxHistory) at 2 by lia.
    rewrite seqZ_app by (unfold maxHistory in *; lia).
    rewrite drop_app_length'
      by (rewrite length_seqZ; unfold maxHistory in *; lia).
    f_equal. lia.
Qed.

(** Without overflow of the counter the [int]s are the numbers. *)
Lemma wrap_seqZ_id a c :
  GoInt.minInt <= a -> a + c <= GoInt.maxInt + 1 ->
  GoInt.wrap <$> seqZ a c = seqZ a c.
Proof.
  intros Ha Hc. rewrite <- (list_fmap_id (seqZ a c)) at 2.
  apply list_fmap_ext. intros i x Hx.
  apply lookup_seqZ in Hx as [-> Hi]. unfold id. apply wrap_id.
  unfold GoInt.inRange. lia.
Qed.

End Invariant.

(** ** The registry along a run *)

Lemma insertEntry_consistent n st jobName delay now :
  RegistryInv n st -> consistent (insertEntry st jobName delay now).
Proof.
  intros [Hn Hnext Hord Hdom Hids]. unfold consistent, insertEntry.
  cbn [history historyOrder]. rewrite Hnext. split.
  - rewrite dom_insert_L, Hdom, list_to_set_app_L. cbn [list_to_set].
    apply set_eq. intros y.
    rewrite !elem_of_union, elem_of_singleton, elem_of_empty. tauto.
  - rewrite Hord. apply NoDup_app. split; [apply NoDup_idWindow|]. split.
    + intros x Hx Hx'. apply list_elem_of_singleton in Hx'. subst x.
      apply (idWindow_fresh n Hn). exact Hx.
    + apply NoDup_singleton.
Qed.

(** C10.  After any sequence of creates and completion fires the keys of
    [history] are exactly the IDs in [historyOrder], which holds no ID
    twice: an ID is found by lookup if and only if it is in the order.  The
    same holds inside a create, after the insertion and after the eviction,
    and after a completion fire for any ID. *)
Theorem history_keys_match_order (ops : list Op) :
  dom (history (registry (run initWorld ops)))
  = list_to_set (historyOrder (registry (run initWorld ops))) /\
  NoDup (historyOrder (registry (run initWorld ops))) /\
  (forall id,
     is_Some (history (registry (run initWorld ops)) !! id) <->
     id ∈ historyOrder (registry (run initWorld ops))) /\
  (forall jobName delay now,
     consistent (insertEntry (registry (run initWorld ops)) jobName delay now) /\
     consistent (keepHistoryBounded
                   (insertEntry (registry (run initWorld ops)) jobName delay now))) /\
  (forall jobID now,
     consistent (runTimer (registry (run initWorld ops)) jobID now)).
Proof.
  destruct (run_inv_init ops) as [_ Hinv]. cbv zeta in Hinv.
  destruct (RegistryInv_consistent _ _ Hinv) as [Hdom Hnd].
  split; [exact Hdom|]. split; [exact Hnd|]. split; [|split].
  - intros id. apply (RegistryInv_lookup _ _ id Hinv).
  - intros jobName delay now.
    pose proof (insertEntry_consistent _ _ jobName delay now Hinv) as Hc.
    split; [exact Hc | apply keepHistoryBounded_consistent; exact Hc].
  - intros jobID now. eapply RegistryInv_consistent.
    apply runTimer_inv. exact Hinv.
Qed.

(** C4.  Along any run the IDs returned by the successful creates are
    1, 2, 3, ... in this order: strictly increasing from 1 and never
    repeated, whatever was evicted or completed in between.  ([int] is
    64 bits wide: the statement is for runs of at most 2^63 - 1 creates.) *)
Theorem issued_ids_strictly_increase (ops : list Op) :
  Z.of_nat (length (issuedIDs initWorld ops)) <= GoInt.maxInt ->
  issuedIDs initWorld ops
  = seqZ 1 (Z.of_nat (length (issuedIDs initWorld ops))) /\
  (forall (i j : nat) (x y : Z),
     issuedIDs initWorld ops !! i = Some x ->
     issuedIDs initWorld ops !! j = Some y ->
     (i < j)%nat -> x < y) /\
  (forall (i : nat) (x : Z),
     issuedIDs initWorld ops !! i = Some x -> x = 1 + Z.of_nat i) /\
  NoDup (issuedIDs initWorld ops).
Proof.
  intros Hbound. destruct (run_inv_init ops) as [Hids _]. cbv zeta in Hids.
  rewrite wrap_seqZ_id in Hids
    by (unfold GoInt.minInt, GoInt.maxInt in *; lia).
  split; [exact Hids|]. rewrite Hids. split; [|split].
  - intros i j x y Hx Hy Hij.
    apply lookup_seqZ in Hx as [-> _]. apply lookup_seqZ in Hy as [-> _]. lia.
  - intros i x Hx. apply lookup_seqZ in Hx as [-> _]. reflexivity.
  - apply NoDup_seqZ.
Qed.

Lemma issued_ids_strictly_increase_witness :
  issuedIDs initWorld (posts 12 ++ [TimerFires 0 5; PostStart "0" "bad" 6; PostStart "2" "egg" 7])
  = seqZ 1 (Z.of_nat (length (issuedIDs initWorld
              (posts 12 ++ [TimerFires 0 5; PostStart "0" "bad" 6; PostStart "2" "egg" 7])))).
Proof.
  assert (H : Z.of_nat (length (issuedIDs initWorld
                (posts 12 ++ [TimerFires 0 5; PostStart "0" "bad" 6; PostStart "2" "egg" 7])))
              <= GoInt.maxInt) by (vm_compute; discriminate).
  exact (proj1 (issued_ids_strictly_increase _ H)).
Defined.

(** What a successful create does to the order and to the keys. *)
Lemma create_evicts_oldest n st jobName delay now :
  RegistryInv n st ->
  let st' := fst (createEntry st jobName delay now) in
  let jobID := snd (createEntry st jobName delay now) in
  ((length (historyOrder st) < Z.to_nat maxHistory)%nat ->
     historyOrder st' = historyOrder st ++ [jobID] /\
     dom (history st') = dom (history st) ∪ {[jobID]}) /\
  (length (historyOrder st) = Z.to_nat maxHistory ->
     exists oldest rest,
       historyOrder st = oldest :: rest /\
       historyOrder st' = rest ++ [jobID] /\
       dom (history st') = dom (history st) ∖ {[oldest]} ∪ {[jobID]} /\
       history st' !! oldest = None).
Proof.
  intros Hinv. cbv zeta.
  destruct (createEntry_inv n st jobName delay now Hinv) as (Hid & Hinv' & Hord' & _).
  pose proof (RegistryInv_consistent _ _ Hinv) as [Hdom Hnd].
  pose proof (RegistryInv_consistent _ _ Hinv') as [Hdom' Hnd'].
  rewrite Hid. unfold mostRecent in Hord'. rewrite length_app in Hord'.
  cbn [length] in Hord'. split.
  - intros Hlen.
    replace (length (historyOrder st) + 1 - Z.to_nat maxHistory)%nat
      with 0%nat in Hord' by lia.
    rewrite drop_0 in Hord'. split; [exact Hord'|].
    rewrite Hdom', Hord', Hdom, list_to_set_app_L. cbn [list_to_set].
    apply set_eq. intros y.
    rewrite !elem_of_union, elem_of_singleton, elem_of_empty. tauto.
  - intros Hlen.
    replace (length (historyOrder st) + 1 - Z.to_nat maxHistory)%nat
      with 1%nat in Hord' by lia.
    destruct (historyOrder st) as [|oldest rest] eqn:Eo; [discriminate Hlen|].
    exists oldest, rest. cbn [skipn app] in Hord'. rewrite drop_0 in Hord'.
    apply NoDup_cons in Hnd as [Hfresh Hnd].
    assert (Hnew : oldest <> GoInt.wrap (1 + n)).
    { intros ->. apply (idWindow_fresh n (inv_count _ _ Hinv)).
      rewrite <- (inv_order _ _ Hinv), Eo. left. }
    assert (Hgone : oldest ∉ rest ++ [GoInt.wrap (1 + n)]).
    { rewrite elem_of_app, list_elem_of_singleton. tauto. }
    split; [reflexivity|]. split; [exact Hord'|]. split.
    + rewrite Hdom', Hord', Hdom, list_to_set_app_L. cbn [list_to_set].
      apply set_eq. intros y.
      rewrite !elem_of_union, elem_of_difference, !elem_of_union,
        !elem_of_singleton, elem_of_empty, !elem_of_list_to_set.
      split.
      * intros [Hy|[->|Hf]]; [|right; reflexivity|contradiction].
        left. split; [right; exact Hy|]. intros ->.
        apply Hfresh. exact Hy.
      * intros [[[-> | Hy] Hne] | ->]; [contradiction | left; exact Hy | right; left; reflexivity].
    + apply not_elem_of_dom. rewrite Hdom', Hord', elem_of_list_to_set.
      exact Hgone.
Qed.

(** C3.  Along any run the registry holds at most [maxHistory] jobs, and
    they are the most recently created ones: the order is the last
    [min n maxHistory] of the IDs issued so far, and these are the keys of
    the table (after [n = maxHistory + k] creates the IDs [k+1 .. k+10]).
    A create on a full registry evicts exactly the head of the order, the
    oldest surviving job by creation, and nothing else.  ([int] is 64 bits
    wide: the numeric form is for runs of at most 2^63 - 1 creates.) *)
Theorem registry_keeps_most_recent (ops : list Op) :
  (length (historyOrder (registry (run initWorld ops))) <= Z.to_nat maxHistory)%nat /\
  (size (history (registry (run initWorld ops))) <= Z.to_nat maxHistory)%nat /\
  historyOrder (registry (run initWorld ops))
  = mostRecent (issuedIDs initWorld ops) /\
  dom (history (registry (run initWorld ops)))
  = list_to_set (mostRecent (issuedIDs initWorld ops)) /\
  (forall n, n = Z.of_nat (length (issuedIDs initWorld ops)) ->
   n <= GoInt.maxInt ->
     issuedIDs initWorld ops = seqZ 1 n /\
     historyOrder (registry (run initWorld ops))
     = seqZ (1 + n - Z.min n maxHistory) (Z.min n maxHistory) /\
     (forall k, 0 <= k -> n = maxHistory + k ->
        historyOrder (registry (run initWorld ops)) = seqZ (k + 1) maxHistory)) /\
  (forall delayStr jobName now jobID,
     snd (startHandler_POST (run initWorld ops) delayStr jobName now)
     = Created jobID ->
     ((length (historyOrder (registry (run initWorld ops)))
       < Z.to_nat maxHistory)%nat ->
        historyOrder
          (registry (fst (startHandler_POST (run initWorld ops) delayStr jobName now)))
        = historyOrder (registry (run initWorld ops)) ++ [jobID] /\
        dom (history
               (registry (fst (startHandler_POST (run initWorld ops) delayStr jobName now))))
        = dom (history (registry (run initWorld ops))) ∪ {[jobID]}) /\
     (length (historyOrder (registry (run initWorld ops)))
      = Z.to_nat maxHistory ->
        exists oldest rest,
          historyOrder (registry (run initWorld ops)) = oldest :: rest /\
          historyOrder
            (registry (fst (startHandler_POST (run initWorld ops) delayStr jobName now)))
          = rest ++ [jobID] /\
          dom (history
                 (registry (fst (startHandler_POST (run initWorld ops) delayStr jobName now))))
          = dom (history (registry (run initWorld ops))) ∖ {[oldest]} ∪ {[jobID]} /\
          history
            (registry (fst (startHandler_POST (run initWorld ops) delayStr jobName now)))
          !! oldest = None)).
Proof.
  destruct (run_inv_init ops) as [Hids Hinv]. cbv zeta in Hids, Hinv.
  set (c := Z.of_nat (length (issuedIDs initWorld ops))) in *.
  assert (Hc : 0 <= c) by (unfold c; lia).
  pose proof (RegistryInv_consistent _ _ Hinv) as [Hdom Hnd].
  assert (Hord : historyOrder (registry (run initWorld ops))
                 = mostRecent (issuedIDs initWorld ops)).
  { rewrite (inv_order _ _ Hinv), Hids. symmetry. apply mostRecent_issued. exact Hc. }
  assert (Hlen : (length (historyOrder (registry (run initWorld ops)))
                  <= Z.to_nat maxHistory)%nat).
  { rewrite (inv_order _ _ Hinv), length_idWindow by exact Hc. lia. }
  split; [exact Hlen|]. split; [|split; [exact Hord|split; [|split]]].
  - rewrite <- size_dom, Hdom, size_list_to_set by exact Hnd. exact Hlen.
  - rewrite Hdom, Hord. reflexivity.
  - intros n -> Hn.
    assert (Hplain : issuedIDs initWorld ops = seqZ 1 c).
    { rewrite Hids. apply wrap_seqZ_id;
        unfold GoInt.minInt, GoInt.maxInt in *; lia. }
    assert (Hwin : historyOrder (registry (run initWorld ops))
                   = seqZ (1 + c - Z.min c maxHistory) (Z.min c maxHistory)).
    { rewrite (inv_order _ _ Hinv). unfold idWindow. apply wrap_seqZ_id;
        unfold GoInt.minInt, GoInt.maxInt, maxHistory in *; lia. }
    split; [exact Hplain|]. split; [exact Hwin|].
    intros k Hk Hck. rewrite Hwin. rewrite Z.min_r by lia. f_equal. lia.
  - intros delayStr jobName now jobID Hres.
    unfold startHandler_POST in *.
    destruct (Strconv.Atoi delayStr) as [delay|]; [|discriminate Hres].
    destruct (delay <? 1); [discriminate Hres|].
    pose proof (create_evicts_oldest c _ jobName delay now Hinv) as Hev.
    cbv zeta in Hev.
    destruct (createEntry (registry (run initWorld ops)) jobName delay now)
      as [st' jobID'].
    cbn [fst snd registry] in *. injection Hres as ->. exact Hev.
Qed.

Lemma registry_keeps_most_recent_witness :
  historyOrder (registry (run initWorld (posts 12))) = seqZ (2 + 1) maxHistory.
Proof.
  pose proof (registry_keeps_most_recent (posts 12)) as (_ & _ & _ & _ & H & _).
  assert (Hn : 12 = Z.of_nat (length (issuedIDs initWorld (posts 12))))
    by (vm_compute; reflexivity).
  assert (Hb : 12 <= GoInt.maxInt) by (vm_compute; discriminate).
  destruct (H 12 Hn Hb) as (_ & _ & Hk).
  apply (Hk 2); [lia | reflexivity].
Defined.

(** ** Lookup *)

(** C8.  On the registry reached by any run, both detail handlers answer
    "not found" exactly for the IDs that are not retained: those outside
    [historyOrder], that is, outside the [maxHistory] most recent of the
    issued IDs (never issued, or evicted since).  For a retained ID they
    answer with the record stored under it, whose [ID] field is that ID. *)
Theorem lookup_fails_iff_not_retained (ops : list Op) (jobID : Z)
    (tSince tNow : Time) :
  (snd (apiStatusDetailHandler (registry (run initWorld ops)) jobID tSince tNow)
   = NotFound jobID <->
   jobID ∉ historyOrder (registry (run initWorld ops))) /\
  (snd (statusDetailHandler (registry (run initWorld ops)) jobID tSince tNow)
   = NotFound jobID <->
   jobID ∉ historyOrder (registry (run initWorld ops))) /\
  (jobID ∈ historyOrder (registry (run initWorld ops)) <->
   jobID ∈ mostRecent (issuedIDs initWorld ops)) /\
  (jobID ∈ historyOrder (registry (run initWorld ops)) ->
   exists entry,
     history (registry (run initWorld ops)) !! jobID = Some entry /\
     ID entry = jobID /\
     snd (apiStatusDetailHandler (registry (run initWorld ops)) jobID tSince tNow)
     = Found (apiResponse entry tSince tNow) /\
     Api.ID (apiResponse entry tSince tNow) = jobID /\
     Api.Name (apiResponse entry tSince tNow) = Name entry /\
     Api.DateTimeAdded (apiResponse entry tSince tNow) = DateTimeAdded entry /\
     Api.TotalDelaySecs (apiResponse entry tSince tNow) = TotalDelaySecs entry /\
     Api.CompletedTime (apiResponse entry tSince tNow) = CompletedTime entry /\
     exists page,
       snd (statusDetailHandler (registry (run initWorld ops)) jobID tSince tNow)
       = Found page /\
       pJobID page = jobID /\ pName page = Name entry /\
       pTotalDelaySecs page = TotalDelaySecs entry /\
       pDateTimeAdded page = DateTimeAdded entry /\
       pCompletedTime page = CompletedTime entry).
Proof.
  destruct (run_inv_init ops) as [Hids Hinv]. cbv zeta in Hids, Hinv.
  set (st := registry (run initWorld ops)) in *.
  pose proof (RegistryInv_lookup _ _ jobID Hinv) as Hl.
  assert (Hmr : historyOrder st = mostRecent (issuedIDs initWorld ops)).
  { rewrite (inv_order _ _ Hinv), <- mostRecent_issued by lia.
    rewrite <- Hids. reflexivity. }
  unfold apiStatusDetailHandler, statusDetailHandler, apiResponse.
  destruct (history st !! jobID) as [entry|] eqn:He.
  - assert (Hin : jobID ∈ historyOrder st) by (apply Hl; eauto).
    destruct (getStatusDetails entry tSince tNow) as [[el cur] cls] eqn:E.
    cbn [fst snd]. split; [|split; [|split]].
    + split; [discriminate | contradiction].
    + split; [discriminate | contradiction].
    + rewrite Hmr. reflexivity.
    + intros _. exists entry. split; [reflexivity|].
      split; [exact (inv_ids _ _ Hinv _ _ He)|].
      unfold apiResponse. rewrite E. cbn.
      rewrite (inv_ids _ _ Hinv _ _ He).
      repeat (split; [reflexivity|]). eexists. repeat (split; [reflexivity|]).
      reflexivity.
  - assert (Hnin : jobID ∉ historyOrder st).
    { intros Hin. apply Hl in Hin. destruct Hin as [e He']. discriminate. }
    cbn [fst snd]. split; [|split; [|split]].
    + tauto.
    + tauto.
    + rewrite Hmr. reflexivity.
    + contradiction.
Qed.

Lemma lookup_fails_iff_not_retained_witness :
  exists entry,
    history (registry (run initWorld (posts 12))) !! 7 = Some entry /\
    ID entry = 7 /\
    snd (apiStatusDetailHandler (registry (run initWorld (posts 12))) 7
           (2 * Second) (2 * Second))
    = Found (apiResponse entry (2 * Second) (2 * Second)).
Proof.
  assert (Hin : 7 ∈ historyOrder (registry (run initWorld (posts 12))))
    by (vm_compute; do 4 right; left).
  destruct (proj2 (proj2 (proj2
             (lookup_fails_iff_not_retained (posts 12) 7 (2 * Second) (2 * Second)))) Hin)
    as (entry & He & Hid & Hres & _).
  exists entry. split; [exact He|]. split; [exact Hid | exact Hres].
Defined.

(** ** Each job is completed once *)

Section CompletedOnce.

Lemma TimersInv_init : TimersInv 0 initWorld.
Proof.
  split; cbn.
  - exact RegistryInv_init.
  - discriminate.
  - constructor.
  - intros id Hin. inversion Hin.
  - intros id Hin. inversion Hin.
  - intros id e H. rewrite lookup_empty in H. discriminate.
Qed.

(** An entry found after a create is the new one or was there before. *)
Lemma createEntry_lookup st jobName delay now id e :
  history (fst (createEntry st jobName delay now)) !! id = Some e ->
  (id = nextEntryID st /\ IsCompleted e = false) \/ history st !! id = Some e.
Proof.
  unfold createEntry. rewrite keepHistoryBounded_unfold. unfold insertEntry.
  cbn [fst history historyOrder nextEntryID]. intros H.
  apply keepHistoryBounded_loop_lookup in H.
  apply lookup_insert_Some in H as [[<- <-]|[_ H]]; [left|right]; auto.
Qed.

Lemma exec_TimersInv n w op :
  TimersInv n w ->
  n + Z.of_nat (length (issuedIDs w [op])) <= GoInt.maxInt ->
  TimersInv (n + Z.of_nat (length (issuedIDs w [op]))) (exec w op).
Proof.
  intros [Hreg Hb Hnd Hiss Hkeys Hfired].
  pose proof (inv_count _ _ Hreg) as Hn.
  assert (Hsame : TimersInv (n + 0) w)
    by (rewrite Z.add_0_r; split; assumption).
  destruct op as [delayStr jobName now | k now]; cbn [exec issuedIDs].
  - unfold startHandler_POST.
    destruct (Strconv.Atoi delayStr) as [delay|]; [|intros _; exact Hsame].
    destruct (delay <? 1); [intros _; exact Hsame|].
    destruct (createEntry_inv n (registry w) jobName delay now Hreg)
      as (Hid & Hreg' & Hord' & Hnewentry).
    pose proof (createEntry_lookup (registry w) jobName delay now) as Hlook.
    destruct (createEntry (registry w) jobName delay now) as [st jobID].
    cbn [fst snd registry sleeping length]. intros Hroom.
    change (Z.of_nat 1) with 1 in *.
    assert (Hnew : GoInt.wrap (1 + n) = 1 + n)
      by (apply wrap_id; unfold GoInt.inRange, GoInt.minInt, GoInt.maxInt in *; lia).
    cbn [fst snd registry sleeping] in *. subst jobID. rewrite Hnew in *.
    split; cbn [registry sleeping].
    + exact Hreg'.
    + exact Hroom.
    + rewrite fmap_app. cbn [fmap list_fmap fst]. apply NoDup_app.
      split; [exact Hnd|]. split; [|apply NoDup_singleton].
      intros x Hx Hx'. apply list_elem_of_singleton in Hx'. subst x.
      apply Hiss in Hx. lia.
    + intros id Hin. rewrite fmap_app in Hin. cbn [fmap list_fmap fst] in Hin.
      apply elem_of_app in Hin as [Hin|Hin].
      * apply Hiss in Hin. lia.
      * apply list_elem_of_singleton in Hin. lia.
    + intros id Hin. rewrite Hord' in Hin. unfold mostRecent in Hin.
      apply subseteq_drop in Hin.
      apply elem_of_app in Hin as [Hin|Hin].
      * apply Hkeys in Hin. lia.
      * apply list_elem_of_singleton in Hin. lia.
    + intros id e He Hdone. rewrite fmap_app. cbn [fmap list_fmap fst].
      apply Hlook in He as [[-> Hfalse]|He]; [congruence|].
      intros Hin. apply elem_of_app in Hin as [Hin|Hin].
      * exact (Hfired id e He Hdone Hin).
      * apply list_elem_of_singleton in Hin. subst id.
        assert (Hk : 1 + n ∈ historyOrder (registry w)).
        { apply (RegistryInv_lookup _ _ (1 + n) Hreg). eauto. }
        apply Hkeys in Hk. lia.
  - intros _. cbn [length]. change (Z.of_nat 0) with 0.
    destruct (sleeping w !! k) as [[jobID delay]|] eqn:Ek; [|exact Hsame].
    rewrite Z.add_0_r.
    pose proof (delete_Permutation _ _ _ Ek) as Hperm.
    assert (Hperm' : fst <$> sleeping w ≡ₚ jobID :: (fst <$> delete k (sleeping w))).
    { rewrite Hperm at 1. reflexivity. }
    assert (Hnd' : NoDup (jobID :: (fst <$> delete k (sleeping w))))
      by (rewrite <- Hperm'; exact Hnd).
    apply NoDup_cons in Hnd' as [Hgone Hnd'].
    assert (Hsub : forall id, id ∈ (fst <$> delete k (sleeping w)) ->
                              id ∈ (fst <$> sleeping w)).
    { intros id Hin. rewrite Hperm'. right. exact Hin. }
    split; cbn [registry sleeping].
    + apply runTimer_inv. exact Hreg.
    + exact Hb.
    + exact Hnd'.
    + intros id Hin. apply Hiss, Hsub, Hin.
    + intros id Hin. unfold runTimer in Hin.
      destruct (history (registry w) !! jobID); apply Hkeys; exact Hin.
    + intros id e He Hdone Hin. unfold runTimer in He.
      destruct (history (registry w) !! jobID) as [entry|] eqn:Ej.
      * cbn [history] in He.
        apply lookup_insert_Some in He as [[<- _]|[_ He]].
        -- exact (Hgone Hin).
        -- exact (Hfired id e He Hdone (Hsub id Hin)).
      * exact (Hfired id e He Hdone (Hsub id Hin)).
Qed.

(** One step leaves a completed job as it is, or evicts it for good. *)
Lemma exec_keeps_completed n w op id e :
  TimersInv n w ->
  history (registry w) !! id = Some e -> IsCompleted e = true ->
  history (registry (exec w op)) !! id = Some e \/
  history (registry (exec w op)) !! id = None.
Proof.
  intros Hinv He Hdone.
  destruct (history (registry (exec w op)) !! id) as [e'|] eqn:He'; [left|right; auto].
  f_equal. destruct op as [delayStr jobName now | k now]; cbn [exec] in He'.
  - unfold startHandler_POST in He'.
    destruct (Strconv.Atoi delayStr) as [delay|]; [|cbn in He'; congruence].
    destruct (delay <? 1); [cbn in He'; congruence|].
    pose proof (createEntry_lookup (registry w) jobName delay now id e') as Hlook.
    destruct (createEntry (registry w) jobName delay now) as [st jobID].
    cbn [fst snd registry] in *.
    destruct (Hlook He') as [[-> _]|Hold]; [|congruence].
    pose proof (tinv_registry _ _ Hinv) as Hreg.
    assert (Hin : nextEntryID (registry w) ∈ historyOrder (registry w))
      by (apply (RegistryInv_lookup _ _ _ Hreg); eauto).
    rewrite (inv_next _ _ Hreg), (inv_order _ _ Hreg) in Hin.
    exfalso. exact (idWindow_fresh n (inv_count _ _ Hreg) Hin).
  - destruct (sleeping w !! k) as [[jobID delay]|] eqn:Ek; [|congruence].
    cbn [registry] in He'. unfold runTimer in He'.
    destruct (history (registry w) !! jobID) as [entry|] eqn:Ej; [|congruence].
    cbn [history] in He'.
    apply lookup_insert_Some in He' as [[-> _]|[_ He']]; [|congruence].
    exfalso. apply (tinv_fired _ _ Hinv id e He Hdone).
    apply list_elem_of_fmap. exists (id, delay). split; [reflexivity|].
    apply list_elem_of_lookup. eauto.
Qed.

(** An ID that was issued and is no longer held is never held again. *)
Lemma exec_keeps_absent n w op id :
  TimersInv n w -> n + Z.of_nat (length (issuedIDs w [op])) <= GoInt.maxInt ->
  1 <= id <= n -> history (registry w) !! id = None ->
  history (registry (exec w op)) !! id = None.
Proof.
  intros Hinv Hroom Hid Hnone.
  destruct (history (registry (exec w op)) !! id) as [e'|] eqn:He'; [|reflexivity].
  exfalso. destruct op as [delayStr jobName now | k now];
    cbn [exec issuedIDs] in He', Hroom.
  - unfold startHandler_POST in He', Hroom.
    destruct (Strconv.Atoi delayStr) as [delay|]; [|cbn in He'; congruence].
    destruct (delay <? 1); [cbn in He'; congruence|].
    pose proof (createEntry_lookup (registry w) jobName delay now id e') as Hlook.
    destruct (createEntry (registry w) jobName delay now) as [st jobID].
    cbn [fst snd registry length] in *. change (Z.of_nat 1) with 1 in *.
    destruct (Hlook He') as [[-> _]|Hold]; [|congruence].
    pose proof (tinv_registry _ _ Hinv) as Hreg.
    pose proof (inv_count _ _ Hreg) as Hn.
    rewrite (inv_next _ _ Hreg), wrap_id in Hid
      by (unfold GoInt.inRange, GoInt.minInt, GoInt.maxInt in *; lia).
    lia.
  - destruct (sleeping w !! k) as [[jobID delay]|] eqn:Ek; [|congruence].
    cbn [registry] in He'. unfold runTimer in He'.
    destruct (history (registry w) !! jobID) as [entry|] eqn:Ej; [|congruence].
    cbn [history] in He'.
    apply lookup_insert_Some in He' as [[-> _]|[_ He']]; congruence.
Qed.

Lemma issuedIDs_app ops1 : forall w ops2,
  issuedIDs w (ops1 ++ ops2) = issuedIDs w ops1 ++ issuedIDs (run w ops1) ops2.
Proof.
  induction ops1 as [|op ops1 IH]; intros w ops2; [reflexivity|].
  cbn [app].
  rewrite (issuedIDs_cons w op (ops1 ++ ops2)), (issuedIDs_cons w op ops1).
  rewrite IH, <- app_assoc. reflexivity.
Qed.

Lemma run_keeps_completed ops id e : forall n w,
  TimersInv n w ->
  n + Z.of_nat (length (issuedIDs w ops)) <= GoInt.maxInt ->
  1 <= id <= n ->
  history (registry w) !! id = Some e /\ IsCompleted e = true \/
  history (registry w) !! id = None ->
  history (registry (run w ops)) !! id = Some e \/
  history (registry (run w ops)) !! id = None.
Proof.
  induction ops as [|op ops IH]; intros n w Hinv Hroom Hid Hnow.
  - cbn. tauto.
  - rewrite issuedIDs_cons, length_app, Nat2Z.inj_add in Hroom.
    cbn [run fold_left]. fold (run (exec w op) ops).
    pose proof (exec_TimersInv n w op Hinv ltac:(lia)) as Hinv'.
    apply (IH _ _ Hinv'); [lia | lia |].
    destruct Hnow as [[He Hdone]|Hnone].
    + destruct (exec_keeps_completed n w op id e Hinv He Hdone) as [H|H]; auto.
    + right. apply (exec_keeps_absent n w op id Hinv); [lia | exact Hid | exact Hnone].
Qed.

Lemma run_TimersInv ops : forall n w,
  TimersInv n w ->
  n + Z.of_nat (length (issuedIDs w ops)) <= GoInt.maxInt ->
  TimersInv (n + Z.of_nat (length (issuedIDs w ops))) (run w ops).
Proof.
  induction ops as [|op ops IH]; intros n w Hinv Hroom.
  - cbn. rewrite Z.add_0_r. exact Hinv.
  - rewrite issuedIDs_cons, length_app, Nat2Z.inj_add in Hroom |- *.
    cbn [run fold_left]. fold (run (exec w op) ops).
    rewrite Z.add_assoc. apply IH; [|lia].
    apply exec_TimersInv; [exact Hinv | lia].
Qed.

(** In a run of the server the completion of a job is final: once a job is
    stored as completed, every later state holds the very same record
    under its ID (same [completedAt]) or, after its eviction, none. *)
Lemma completion_is_final (ops1 ops2 : list Op) (id : Z) (e : DelayEntry) :
  Z.of_nat (length (issuedIDs initWorld (ops1 ++ ops2))) <= GoInt.maxInt ->
  history (registry (run initWorld ops1)) !! id = Some e ->
  IsCompleted e = true ->
  history (registry (run initWorld (ops1 ++ ops2))) !! id = Some e \/
  history (registry (run initWorld (ops1 ++ ops2))) !! id = None.
Proof.
  intros Hroom He Hdone.
  rewrite issuedIDs_app, length_app, Nat2Z.inj_add in Hroom.
  rewrite run_app.
  pose proof (run_TimersInv ops1 0 initWorld TimersInv_init ltac:(lia)) as Hinv.
  rewrite Z.add_0_l in Hinv.
  apply (run_keeps_completed ops2 id e _ _ Hinv); [lia| |left; auto].
  apply (tinv_keys _ _ Hinv).
  apply (RegistryInv_lookup _ _ id (tinv_registry _ _ Hinv)). eauto.
Qed.

End CompletedOnce.

(** C2 (as amended).  For a retained job the completion callback sets
    [completed = true] and [completedAt] to its own completion time whether
    or not the job is already completed: there is no already-completed test.
    A second invocation therefore replaces [completedAt] by the second
    timestamp (the outcome of two invocations is that of the last one alone)
    and leaves every other field, job, the order and the counter as they
    were.  What keeps [completedAt] at its first value is that the server
    starts one callback per job: along a run, a job stored as completed
    keeps the very same record until it is evicted. *)
Theorem runTimer_last_fire_wins (st : State) (jobID : Z) (entry : DelayEntry)
    (t1 t2 : Time) :
  history st !! jobID = Some entry ->
  history (runTimer st jobID t1) !! jobID
  = Some {| ID := ID entry; Name := Name entry;
            DateTimeAdded := DateTimeAdded entry;
            TotalDelaySecs := TotalDelaySecs entry;
            IsCompleted := true; CompletedTime := Some t1 |} /\
  history (runTimer (runTimer st jobID t1) jobID t2) !! jobID
  = Some {| ID := ID entry; Name := Name entry;
            DateTimeAdded := DateTimeAdded entry;
            TotalDelaySecs := TotalDelaySecs entry;
            IsCompleted := true; CompletedTime := Some t2 |} /\
  runTimer (runTimer st jobID t1) jobID t2 = runTimer st jobID t2 /\
  (forall other, other <> jobID ->
     history (runTimer st jobID t1) !! other = history st !! other) /\
  historyOrder (runTimer st jobID t1) = historyOrder st /\
  nextEntryID (runTimer st jobID t1) = nextEntryID st /\
  (forall (ops1 ops2 : list Op) (id : Z) (e : DelayEntry),
     Z.of_nat (length (issuedIDs initWorld (ops1 ++ ops2))) <= GoInt.maxInt ->
     history (registry (run initWorld ops1)) !! id = Some e ->
     IsCompleted e = true ->
     history (registry (run initWorld (ops1 ++ ops2))) !! id = Some e \/
     history (registry (run initWorld (ops1 ++ ops2))) !! id = None).
Proof.
  intros He.
  pose proof (runTimer_present st jobID entry t1 He) as E1.
  assert (He1 : history (runTimer st jobID t1) !! jobID
                = Some {| ID := ID entry; Name := Name entry;
                          DateTimeAdded := DateTimeAdded entry;
                          TotalDelaySecs := TotalDelaySecs entry;
                          IsCompleted := true; CompletedTime := Some t1 |}).
  { rewrite E1. cbn. apply lookup_insert_eq. }
  pose proof (runTimer_present _ jobID _ t2 He1) as E2. cbn in E2.
  split; [exact He1|]. split; [|split; [|split; [|split]]].
  - rewrite E2. cbn. apply lookup_insert_eq.
  - rewrite E2, (runTimer_present st jobID entry t2 He), E1. cbn.
    rewrite insert_insert_eq. reflexivity.
  - intros other Hne. rewrite E1. cbn. apply lookup_insert_ne. congruence.
  - rewrite E1. reflexivity.
  - split; [rewrite E1; reflexivity|]. exact completion_is_final.
Qed.

Lemma runTimer_last_fire_wins_witness :
  history (runTimer (runTimer st_one 1 (5 * Second)) 1 (9 * Second)) !! 1
  = Some {| ID := 1; Name := "tea"; DateTimeAdded := 0; TotalDelaySecs := 5;
            IsCompleted := true; CompletedTime := Some (9 * Second) |}.
Proof.
  apply (runTimer_last_fire_wins st_one 1 (mkDelayEntry 1 "tea" 0 5 false None)
           (5 * Second) (9 * Second)).
  vm_compute. reflexivity.
Defined.

(** C2 as stated fails: a second completion of job 1 is not a no-op, it
    moves [completedAt] from the first timestamp to the second. *)
Lemma second_fire_overwrites_counterexample :
  let st1 := runTimer st_one 1 (5 * Second) in
  let st2 := runTimer st1 1 (9 * Second) in
  (IsCompleted <$> history st1 !! 1) = Some true /\
  (CompletedTime <$> history st1 !! 1) = Some (Some (5 * Second)) /\
  (CompletedTime <$> history st2 !! 1) = Some (Some (9 * Second)) /\
  st2 <> st1.
Proof.
  cbv zeta.
  assert (E1 : (CompletedTime <$> history (runTimer st_one 1 (5 * Second)) !! 1)
               = Some (Some (5 * Second))) by (vm_compute; reflexivity).
  assert (E2 : (CompletedTime <$>
                  history (runTimer (runTimer st_one 1 (5 * Second)) 1 (9 * Second)) !! 1)
               = Some (Some (9 * Second))) by (vm_compute; reflexivity).
  split; [vm_compute; reflexivity|]. split; [exact E1|]. split; [exact E2|].
  intros Heq. rewrite Heq in E2. rewrite E1 in E2. vm_compute in E2. discriminate.
Qed.

(** ** Request paths *)

Section PathFacts.

Local Open Scope string_scope.

Lemma append_cons c (s t : string) : String c s ++ t = String c (s ++ t).
Proof. reflexivity. Qed.

Lemma append_nil (t : string) : "" ++ t = t.
Proof. reflexivity. Qed.

Lemma Split_slash_cons s : exists piece pieces, Strings.Split_slash s = piece :: pieces.
Proof.
  destruct s as [|c rest]; cbn [Strings.Split_slash]; [eauto|].
  destruct (Ascii.eqb c "/"); [eauto|].
  destruct (Strings.Split_slash rest); eauto.
Qed.

Lemma Split_slash_free s :
  Strings.slashFree s = true -> Strings.Split_slash s = [s].
Proof.
  induction s as [|c rest IH]; cbn [Strings.slashFree Strings.Split_slash];
    [reflexivity|].
  destruct (Ascii.eqb c "/"); cbn [negb andb]; [discriminate|].
  intros H. rewrite (IH H). reflexivity.
Qed.

(** A slash-free piece followed by a slash is the first piece. *)
Lemma Split_slash_app s t :
  Strings.slashFree s = true ->
  Strings.Split_slash (s ++ String "/" t) = s :: Strings.Split_slash t.
Proof.
  induction s as [|c rest IH]; cbn [Strings.slashFree].
  - intros _. reflexivity.
  - rewrite append_cons. cbn [Strings.Split_slash].
    destruct (Ascii.eqb c "/"); cbn [negb andb]; [discriminate|].
    intros H. rewrite (IH H). reflexivity.
Qed.

(** Conversely the pieces are slash-free and, joined by slashes, give the
    string back. *)
Lemma Split_slash_inv s : forall piece pieces,
  Strings.Split_slash s = piece :: pieces ->
  Strings.slashFree piece = true /\
  (pieces = [] -> s = piece) /\
  (pieces <> [] ->
   exists t, s = piece ++ String "/" t /\ Strings.Split_slash t = pieces).
Proof.
  induction s as [|c rest IH]; intros piece pieces; cbn [Strings.Split_slash].
  - intros [= <- <-]. split; [reflexivity|]. split; [reflexivity|]. congruence.
  - destruct (Ascii.eqb_spec c "/") as [->|Hc].
    + intros [= <- <-]. split; [reflexivity|]. split.
      * destruct (Split_slash_cons rest) as (q & qs & E). congruence.
      * intros _. exists rest. split; reflexivity.
    + destruct (Split_slash_cons rest) as (q & qs & E). rewrite E.
      intros [= <- <-]. destruct (IH q qs E) as (Hq & Hnil & Hcons).
      split; [|split].
      * cbn [Strings.slashFree]. rewrite Hq.
        destruct (Ascii.eqb_spec c "/"); [contradiction|reflexivity].
      * intros Hqs. rewrite (Hnil Hqs). reflexivity.
      * intros Hqs. destruct (Hcons Hqs) as (t & -> & Et).
        exists t. split; [reflexivity | exact Et].
Qed.

Lemma TrimSuffix_slash_app s : Strings.TrimSuffix_slash (s ++ "/") = s.
Proof.
  induction s as [|c rest IH]; [reflexivity|].
  rewrite append_cons. cbn [Strings.TrimSuffix_slash].
  destruct rest as [|c' rest']; [reflexivity|].
  rewrite append_cons in *. rewrite IH. reflexivity.
Qed.

(** A string that ends in a slash-free, non-empty piece is left alone. *)
Lemma TrimSuffix_slash_keep s seg :
  Strings.slashFree seg = true -> seg <> "" ->
  Strings.TrimSuffix_slash (s ++ seg) = s ++ seg.
Proof.
  intros Hfree Hne. induction s as [|c rest IH].
  - rewrite append_nil. clear Hne.
    induction seg as [|c rest IH]; [reflexivity|].
    cbn [Strings.slashFree] in Hfree.
    apply andb_prop in Hfree as [Hc Hrest].
    cbn [Strings.TrimSuffix_slash]. destruct rest as [|c' rest'].
    + destruct (Ascii.eqb c "/"); [discriminate | reflexivity].
    + rewrite (IH Hrest). reflexivity.
  - rewrite append_cons. cbn [Strings.TrimSuffix_slash].
    destruct (rest ++ seg) as [|c' r'] eqn:E.
    + destruct rest; [rewrite append_nil in E; contradiction | discriminate E].
    + rewrite IH. reflexivity.
Qed.

(** The digits [formatUint] writes are read back by [Strconv.digits]. *)
Lemma digit_of_formatted r :
  0 <= r <= 9 -> Strconv.digit (ascii_of_N (Z.to_N (48 + r))) = Some r.
Proof.
  intros Hr.
  assert (H : r = 0 \/ r = 1 \/ r = 2 \/ r = 3 \/ r = 4 \/ r = 5 \/ r = 6 \/
              r = 7 \/ r = 8 \/ r = 9) by lia.
  repeat (destruct H as [->|H]; [reflexivity|]). subst r. reflexivity.
Qed.

Lemma digits_formatUint fuel : forall n acc,
  0 <= n < 10 ^ Z.of_nat fuel -> (0 < fuel)%nat ->
  exists k, 0 < k /\
    forall a, Strconv.digits a (Strings.formatUint fuel n acc)
              = Strconv.digits (a * 10 ^ k + n) acc.
Proof.
  induction fuel as [|fuel IH]; intros n acc Hn Hf; [lia|].
  cbn [Strings.formatUint].
  pose proof (Z.mod_pos_bound n 10 ltac:(lia)) as Hr.
  pose proof (Z.div_mod n 10 ltac:(lia)) as Hdm.
  destruct (Z.eqb_spec (n / 10) 0) as [Hq|Hq].
  - exists 1. split; [lia|]. intros a. cbn [Strconv.digits].
    rewrite digit_of_formatted by lia. f_equal. lia.
  - assert (Hq' : 0 < n / 10).
    { pose proof (Z.div_pos n 10 ltac:(lia) ltac:(lia)). lia. }
    destruct fuel as [|fuel'].
    { cbn in Hn. lia. }
    destruct (IH (n / 10)
                (String (ascii_of_N (Z.to_N (48 + n mod 10))) acc)) as (k & Hk & E).
    + split; [lia|]. apply Z.div_lt_upper_bound; [lia|].
      rewrite Nat2Z.inj_succ, Z.pow_succ_r in Hn by lia. lia.
    + lia.
    + exists (k + 1). split; [lia|]. intros a. rewrite E.
      cbn [Strconv.digits]. rewrite digit_of_formatted by lia. f_equal.
      rewrite Z.pow_add_r by lia. lia.
Qed.

(** The first character [formatUint] writes is a digit. *)
Lemma formatUint_head fuel : forall n acc,
  0 <= n -> (0 < fuel)%nat ->
  exists c rest r, Strings.formatUint fuel n acc = String c rest /\
                   Strconv.digit c = Some r.
Proof.
  induction fuel as [|fuel IH]; intros n acc Hn Hf; [lia|].
  cbn [Strings.formatUint].
  pose proof (Z.mod_pos_bound n 10 ltac:(lia)) as Hr.
  destruct (Z.eqb_spec (n / 10) 0) as [Hq|Hq].
  - eexists _, _, (n mod 10). split; [reflexivity|].
    apply digit_of_formatted. lia.
  - destruct fuel as [|fuel'].
    + cbn [Strings.formatUint]. eexists _, _, (n mod 10).
      split; [reflexivity|]. apply digit_of_formatted. lia.
    + apply IH; [apply Z.div_pos; lia | lia].
Qed.

Lemma slashFree_formatUint fuel : forall n acc,
  0 <= n -> Strings.slashFree acc = true ->
  Strings.slashFree (Strings.formatUint fuel n acc) = true.
Proof.
  induction fuel as [|fuel IH]; intros n acc Hn Hacc; [exact Hacc|].
  cbn [Strings.formatUint].
  pose proof (Z.mod_pos_bound n 10 ltac:(lia)) as Hr.
  assert (Hc : Strings.slashFree
                 (String (ascii_of_N (Z.to_N (48 + n mod 10))) acc) = true).
  { cbn [Strings.slashFree]. rewrite Hacc.
    assert (H : n mod 10 = 0 \/ n mod 10 = 1 \/ n mod 10 = 2 \/ n mod 10 = 3 \/
                n mod 10 = 4 \/ n mod 10 = 5 \/ n mod 10 = 6 \/ n mod 10 = 7 \/
                n mod 10 = 8 \/ n mod 10 = 9) by lia.
    repeat (destruct H as [->|H]; [reflexivity|]). rewrite H. reflexivity. }
  destruct (Z.eqb (n / 10) 0); [exact Hc|].
  apply IH; [apply Z.div_pos; lia | exact Hc].
Qed.

End PathFacts.

Section PathTheorems.

Local Open Scope string_scope.

Lemma digit_not_sign c r :
  Strconv.digit c = Some r -> Ascii.eqb c "-" = false /\ Ascii.eqb c "+" = false.
Proof.
  intros H. split.
  - destruct (Ascii.eqb_spec c "-") as [->|]; [discriminate H | reflexivity].
  - destruct (Ascii.eqb_spec c "+") as [->|]; [discriminate H | reflexivity].
Qed.

(** What [%d] prints, [strconv.Atoi] reads back. *)
Lemma Atoi_formatInt n :
  GoInt.inRange n -> Strconv.Atoi (Strings.formatInt n) = Some n.
Proof.
  unfold GoInt.inRange, GoInt.minInt, GoInt.maxInt. intros Hn.
  assert (H63 : (2 ^ 63 < 10 ^ Z.of_nat 20)%Z) by reflexivity.
  unfold Strings.formatInt. destruct (Z.ltb_spec n 0) as [Hneg|Hpos].
  - destruct (digits_formatUint 20 (- n) "") as (k & Hk & E); [lia | lia |].
    destruct (formatUint_head 20 (- n) "") as (c & rest & r & Eh & _); [lia | lia |].
    unfold Strconv.Atoi. cbn [Ascii.eqb Bool.eqb].
    rewrite Eh. rewrite <- Eh, E. cbn [Strconv.digits].
    replace (0 * 10 ^ k + - n)%Z with (- n)%Z by lia.
    replace (- - n)%Z with n by lia.
    unfold GoInt.minInt, GoInt.maxInt.
    destruct (Z.leb_spec (- 2 ^ 63) n); [|lia].
    destruct (Z.leb_spec n (2 ^ 63 - 1)); [reflexivity | lia].
  - destruct (digits_formatUint 20 n "") as (k & Hk & E); [lia | lia |].
    destruct (formatUint_head 20 n "") as (c & rest & r & Eh & Hd); [lia | lia |].
    destruct (digit_not_sign c r Hd) as [Hm Hp].
    unfold Strconv.Atoi. rewrite Eh, Hm, Hp. rewrite <- Eh, E.
    cbn [Strconv.digits].
    replace (0 * 10 ^ k + n)%Z with n by lia.
    unfold GoInt.minInt, GoInt.maxInt.
    destruct (Z.leb_spec (- 2 ^ 63) n); [|lia].
    destruct (Z.leb_spec n (2 ^ 63 - 1)); [reflexivity | lia].
Qed.

Lemma slashFree_formatInt n : Strings.slashFree (Strings.formatInt n) = true.
Proof.
  unfold Strings.formatInt. destruct (Z.ltb_spec n 0).
  - cbn [Strings.slashFree]. rewrite slashFree_formatUint; [reflexivity | lia | reflexivity].
  - apply slashFree_formatUint; [lia | reflexivity].
Qed.

Lemma formatInt_nonempty n : Strings.formatInt n <> "".
Proof.
  unfold Strings.formatInt. destruct (Z.ltb_spec n 0); [discriminate|].
  destruct (formatUint_head 20 n "") as (c & rest & r & Eh & _); [lia | lia |].
  rewrite Eh. discriminate.
Qed.

Lemma Atoi_nonempty seg n : Strconv.Atoi seg = Some n -> seg <> "".
Proof. intros H ->. discriminate H. Qed.

Lemma TrimSuffix_slash_inv s :
  Strings.TrimSuffix_slash s = s \/ s = Strings.TrimSuffix_slash s ++ "/".
Proof.
  induction s as [|c rest IH]; [left; reflexivity|].
  cbn [Strings.TrimSuffix_slash]. destruct rest as [|c' rest'].
  - destruct (Ascii.eqb_spec c "/") as [->|]; [right|left]; reflexivity.
  - destruct IH as [IH|IH].
    + left. rewrite IH. reflexivity.
    + right. rewrite append_cons. rewrite <- IH. reflexivity.
Qed.

(** The three pieces of [a/prefix/seg]. *)
Lemma Split_slash_three a prefix seg :
  Strings.slashFree a = true -> Strings.slashFree prefix = true ->
  Strings.slashFree seg = true ->
  Strings.Split_slash (a ++ String "/" (prefix ++ String "/" seg))
  = [a; prefix; seg].
Proof.
  intros Ha Hp Hs.
  rewrite Split_slash_app, Split_slash_app, Split_slash_free by assumption.
  reflexivity.
Qed.

Lemma parseJobIDFromPath_parts path prefix a seg n :
  Strings.slashFree a = true -> Strings.slashFree prefix = true ->
  Strings.slashFree seg = true ->
  Strings.TrimSuffix_slash path = a ++ String "/" (prefix ++ String "/" seg) ->
  Strconv.Atoi seg = Some n ->
  parseJobIDFromPath path prefix = Some n.
Proof.
  intros Ha Hp Hs Et Hn. unfold parseJobIDFromPath.
  rewrite Et, Split_slash_three by assumption.
  rewrite String.eqb_refl. exact Hn.
Qed.

(** X1.  [parseJobIDFromPath] accepts exactly the paths that, after one
    trailing slash is dropped, consist of three pieces [a/prefix/seg] with
    [seg] a decimal [int] (an optional sign included); the result is that
    number.  The first piece is not looked at. *)
Theorem parseJobIDFromPath_accepts_exactly (path prefix : string) (n : Z) :
  Strings.slashFree prefix = true ->
  (parseJobIDFromPath path prefix = Some n <->
   exists a seg,
     Strings.slashFree a = true /\ Strings.slashFree seg = true /\
     Strings.TrimSuffix_slash path = a ++ String "/" (prefix ++ String "/" seg) /\
     Strconv.Atoi seg = Some n).
Proof.
  intros Hp. unfold parseJobIDFromPath. split.
  - destruct (Strings.Split_slash (Strings.TrimSuffix_slash path))
      as [|p0 [|p1 [|p2 [|p3 ps]]]] eqn:E; try discriminate.
    destruct (String.eqb_spec p1 prefix) as [->|]; [|discriminate].
    intros Hn. exists p0, p2.
    destruct (Split_slash_inv _ _ _ E) as (H0 & _ & Hrest).
    destruct (Hrest ltac:(discriminate)) as (t1 & Et & E1).
    destruct (Split_slash_inv _ _ _ E1) as (_ & _ & Hrest1).
    destruct (Hrest1 ltac:(discriminate)) as (t2 & Et1 & E2).
    destruct (Split_slash_inv _ _ _ E2) as (H2 & Hlast & _).
    rewrite (Hlast eq_refl) in Et1. subst t1.
    split; [exact H0|]. split; [exact H2|]. split; [exact Et | exact Hn].
  - intros (a & seg & Ha & Hs & Et & Hn).
    exact (parseJobIDFromPath_parts path prefix a seg n Ha Hp Hs Et Hn).
Qed.

Lemma parseJobIDFromPath_accepts_exactly_witness :
  parseJobIDFromPath "/status/42/" "status" = Some 42.
Proof.
  apply (parseJobIDFromPath_accepts_exactly "/status/42/" "status" 42 eq_refl).
  exists "", "42". repeat split.
Defined.

(** X2.  [parseAPIJobIDFromPath] accepts exactly the paths that, after one
    trailing slash is dropped, are [a/api/status/seg] with [seg] a decimal
    [int]; the result is that number. *)
Theorem parseAPIJobIDFromPath_accepts_exactly (path : string) (n : Z) :
  parseAPIJobIDFromPath path = Some n <->
  exists a seg,
    Strings.slashFree a = true /\ Strings.slashFree seg = true /\
    Strings.TrimSuffix_slash path = a ++ "/api/status/" ++ seg /\
    Strconv.Atoi seg = Some n.
Proof.
  unfold parseAPIJobIDFromPath. split.
  - destruct (Strings.Split_slash (Strings.TrimSuffix_slash path))
      as [|p0 [|p1 [|p2 [|p3 [|p4 ps]]]]] eqn:E; try discriminate.
    destruct (String.eqb_spec p1 "api") as [->|]; [|discriminate].
    destruct (String.eqb_spec p2 "status") as [->|]; [|discriminate].
    cbn [andb]. intros Hn. exists p0, p3.
    destruct (Split_slash_inv _ _ _ E) as (H0 & _ & Hrest).
    destruct (Hrest ltac:(discriminate)) as (t1 & Et & E1).
    destruct (Split_slash_inv _ _ _ E1) as (_ & _ & Hrest1).
    destruct (Hrest1 ltac:(discriminate)) as (t2 & Et1 & E2).
    destruct (Split_slash_inv _ _ _ E2) as (_ & _ & Hrest2).
    destruct (Hrest2 ltac:(discriminate)) as (t3 & Et2 & E3).
    destruct (Split_slash_inv _ _ _ E3) as (H3 & Hlast & _).
    rewrite (Hlast eq_refl) in Et2. subst t2 t1.
    split; [exact H0|]. split; [exact H3|]. split; [exact Et | exact Hn].
  - intros (a & seg & Ha & Hs & Et & Hn). rewrite Et.
    change (a ++ "/api/status/" ++ seg)
      with (a ++ String "/" ("api" ++ String "/" ("status" ++ String "/" seg))).
    rewrite Split_slash_app, Split_slash_app, Split_slash_app, Split_slash_free
      by (assumption || reflexivity).
    cbn [String.eqb Ascii.eqb Bool.eqb andb]. exact Hn.
Qed.

(** X3.  The link [/status/<ID>] that the list pages print for a job parses
    back to that job's ID, with or without a trailing slash. *)
Theorem status_link_parses_back (id : Z) :
  GoInt.inRange id ->
  parseJobIDFromPath (statusLink id) "status" = Some id /\
  parseJobIDFromPath (statusLink id ++ "/") "status" = Some id.
Proof.
  intros Hid. unfold statusLink.
  assert (Hgen : forall path,
            Strings.TrimSuffix_slash path = "/status/" ++ Strings.formatInt id ->
            parseJobIDFromPath path "status" = Some id).
  { intros path Et. apply parseJobIDFromPath_parts with "" (Strings.formatInt id);
      try reflexivity.
    - apply slashFree_formatInt.
    - exact Et.
    - apply Atoi_formatInt. exact Hid. }
  split; apply Hgen.
  - apply (TrimSuffix_slash_keep "/status/").
    + apply slashFree_formatInt.
    + apply formatInt_nonempty.
  - apply TrimSuffix_slash_app.
Qed.

Lemma status_link_parses_back_witness :
  parseJobIDFromPath (statusLink 12) "status" = Some 12.
Proof.
  apply (status_link_parses_back 12). vm_compute. split; discriminate.
Defined.

End PathTheorems.

Section RouteTheorems.

Local Open Scope string_scope.

Lemma parseAPIJobIDFromPath_accepts_exactly_witness :
  parseAPIJobIDFromPath "/api/status/7" = Some 7.
Proof.
  apply (parseAPIJobIDFromPath_accepts_exactly "/api/status/7" 7).
  exists "", "7". repeat split.
Defined.

Lemma TrimSuffix_slash_eq_inv s t :
  Strings.TrimSuffix_slash s = t -> s = t \/ s = t ++ "/".
Proof.
  intros <-. destruct (TrimSuffix_slash_inv s) as [H|H]; [left | right]; congruence.
Qed.

(** X4.  Under "/status/" and "/api/status/" the list page is served for the
    bare path only (with or without its trailing slash); every other path
    goes to the detail handler.  A path served by the list page is never one
    the detail parser would accept, so no job URL is hidden by the list. *)
Theorem routes_serve_index_for_bare_path_only (path : string) :
  (statusRoute path = ToIndex <-> path = "/status" \/ path = "/status/") /\
  (apiStatusRoute path = ToIndex <->
   path = "/api/status" \/ path = "/api/status/") /\
  (statusRoute path = ToIndex -> parseJobIDFromPath path "status" = None) /\
  (apiStatusRoute path = ToIndex -> parseAPIJobIDFromPath path = None).
Proof.
  unfold statusRoute, apiStatusRoute.
  split; [|split; [|split]].
  - destruct (String.eqb_spec (Strings.TrimSuffix_slash path) "/status") as [E|NE].
    + split; [intros _ | reflexivity].
      apply TrimSuffix_slash_eq_inv in E. exact E.
    + split; [discriminate|]. intros [->| ->]; exfalso; apply NE; reflexivity.
  - destruct (String.eqb_spec (Strings.TrimSuffix_slash path) "/api/status") as [E|NE].
    + split; [intros _ | reflexivity].
      apply TrimSuffix_slash_eq_inv in E. exact E.
    + split; [discriminate|]. intros [->| ->]; exfalso; apply NE; reflexivity.
  - destruct (String.eqb_spec (Strings.TrimSuffix_slash path) "/status") as [E|NE];
      [|discriminate].
    intros _. unfold parseJobIDFromPath. rewrite E. reflexivity.
  - destruct (String.eqb_spec (Strings.TrimSuffix_slash path) "/api/status") as [E|NE];
      [|discriminate].
    intros _. unfold parseAPIJobIDFromPath. rewrite E. reflexivity.
Qed.

Lemma routes_serve_index_for_bare_path_only_witness :
  parseJobIDFromPath "/status/" "status" = None.
Proof.
  exact (proj1 (proj2 (proj2 (routes_serve_index_for_bare_path_only "/status/")))
           eq_refl).
Defined.

(** Every ID the registry holds is an [int]. *)
Lemma retained_inRange n st id :
  RegistryInv n st -> id ∈ historyOrder st -> GoInt.inRange id.
Proof.
  intros Hinv Hin. rewrite (inv_order _ _ Hinv) in Hin.
  apply elem_of_idWindow in Hin as (i & -> & _). apply wrap_inRange.
Qed.

(** X5.  On the registry reached by any run, a request for the link the
    list pages print for a retained job is answered with that job's page
    (never with "bad request" or "not found"), and the page shows the name,
    delay and creation time stored for it. *)
Theorem status_link_reaches_job (ops : list Op) (id : Z) (tSince tNow : Time) :
  id ∈ historyOrder (registry (run initWorld ops)) ->
  exists entry page,
    history (registry (run initWorld ops)) !! id = Some entry /\
    statusDetailRequest (registry (run initWorld ops)) (statusLink id) tSince tNow
    = Answer (Found page) /\
    statusDetailRequest (registry (run initWorld ops)) (statusLink id ++ "/")
      tSince tNow
    = Answer (Found page) /\
    pJobID page = id /\ pName page = Name entry /\
    pTotalDelaySecs page = TotalDelaySecs entry /\
    pDateTimeAdded page = DateTimeAdded entry /\
    pCompletedTime page = CompletedTime entry /\
    pStatus page = statusOf (getStatusDetails entry tSince tNow).
Proof.
  intros Hin. destruct (run_inv_init ops) as [_ Hinv]. cbv zeta in Hinv.
  set (st := registry (run initWorld ops)) in *.
  pose proof (retained_inRange _ _ _ Hinv Hin) as Hr.
  assert (Hsome : is_Some (history st !! id))
    by (apply (RegistryInv_lookup _ _ id Hinv); exact Hin).
  destruct Hsome as [entry He].
  assert (Hlink : forall path,
            Strings.TrimSuffix_slash path = "/status/" ++ Strings.formatInt id ->
            parseJobIDFromPath path "status" = Some id).
  { intros path Et.
    apply parseJobIDFromPath_parts with "" (Strings.formatInt id);
      try reflexivity.
    - apply slashFree_formatInt.
    - exact Et.
    - apply Atoi_formatInt. exact Hr. }
  unfold statusDetailRequest, statusLink.
  rewrite (Hlink ("/status/" ++ Strings.formatInt id))
    by (apply (TrimSuffix_slash_keep "/status/");
        [apply slashFree_formatInt | apply formatInt_nonempty]).
  rewrite (Hlink (("/status/" ++ Strings.formatInt id) ++ "/"))
    by apply TrimSuffix_slash_app.
  unfold statusDetailHandler. rewrite He.
  destruct (getStatusDetails entry tSince tNow) as [[el cur] cls] eqn:E.
  cbn [snd]. exists entry. eexists. split; [reflexivity|].
  split; [reflexivity|]. split; [reflexivity|].
  cbn. rewrite E. repeat (split; [reflexivity|]). reflexivity.
Qed.

Lemma status_link_reaches_job_witness :
  exists entry page,
    history (registry (run initWorld (posts 12))) !! 7 = Some entry /\
    statusDetailRequest (registry (run initWorld (posts 12))) (statusLink 7)
      (2 * Second) (2 * Second)
    = Answer (Found page).
Proof.
  assert (Hin : 7 ∈ historyOrder (registry (run initWorld (posts 12))))
    by (vm_compute; do 4 right; left).
  destruct (status_link_reaches_job (posts 12) 7 (2 * Second) (2 * Second) Hin)
    as (entry & page & He & Hreq & _).
  exists entry, page. split; [exact He | exact Hreq].
Defined.

End RouteTheorems.

(** ** The list pages *)

Section ListPages.

Lemma indexRows_all_present (h : gmap Z DelayEntry) clock (ids : list Z) :
  forall k,
  (forall id, id ∈ ids -> is_Some (h !! id)) ->
  length (indexRows h ids k clock) = length ids /\
  forall (i : nat) (id : Z), ids !! i = Some id ->
    exists entry, h !! id = Some entry /\
      indexRows h ids k clock !! i
      = Some (indexRow entry (fst (clock (k + i)%nat)) (snd (clock (k + i)%nat))).
Proof.
  induction ids as [|id0 rest IH]; intros k Hall.
  - split; [reflexivity|]. intros i id Hi. discriminate Hi.
  - cbn [indexRows]. destruct (Hall id0 ltac:(left)) as [e0 He0]. rewrite He0.
    destruct (IH (S k)) as [Hlen Hrows].
    { intros id Hid. apply Hall. right. exact Hid. }
    split; [cbn [length]; rewrite Hlen; reflexivity|].
    intros [|i] id Hi; cbn in Hi.
    + injection Hi as <-. exists e0. split; [exact He0|].
      rewrite Nat.add_0_r. reflexivity.
    + destruct (Hrows i id Hi) as (entry & He & Hrow).
      exists entry. split; [exact He|]. cbn [lookup list_lookup].
      replace (k + S i)%nat with (S k + i)%nat by lia. exact Hrow.
Qed.

(** X6.  On the registry reached by any run the history page says "No
    delays recorded yet" exactly when no job has been created; otherwise
    its table has one row per retained job, in creation order (at most
    [maxHistory] rows, none skipped), each built from the entry stored
    under that ID and linking to it. *)
Theorem index_page_lists_retained_jobs (ops : list Op)
    (clock : nat -> Time * Time) :
  (indexHandler (registry (run initWorld ops)) clock = None <->
   issuedIDs initWorld ops = []) /\
  (forall rows,
     indexHandler (registry (run initWorld ops)) clock = Some rows ->
     length rows = length (historyOrder (registry (run initWorld ops))) /\
     (length rows <= Z.to_nat maxHistory)%nat /\
     forall (i : nat) (id : Z),
       historyOrder (registry (run initWorld ops)) !! i = Some id ->
       exists entry,
         history (registry (run initWorld ops)) !! id = Some entry /\
         rows !! i = Some (indexRow entry (fst (clock i)) (snd (clock i))) /\
         rowID (indexRow entry (fst (clock i)) (snd (clock i))) = id /\
         rowLink (indexRow entry (fst (clock i)) (snd (clock i))) = statusLink id).
Proof.
  destruct (run_inv_init ops) as [Hids Hinv]. cbv zeta in Hids, Hinv.
  set (st := registry (run initWorld ops)) in *.
  set (c := Z.of_nat (length (issuedIDs initWorld ops))) in *.
  assert (Hlen : length (historyOrder st) = Z.to_nat (Z.min c maxHistory)).
  { rewrite (inv_order _ _ Hinv). apply length_idWindow. unfold c. lia. }
  unfold indexHandler. split.
  - destruct (Nat.eqb_spec (length (historyOrder st)) 0) as [E|NE].
    + split; [intros _ | reflexivity].
      assert (c = 0) by (unfold maxHistory in *; lia).
      apply length_zero_iff_nil. unfold c in *. lia.
    + split; [discriminate|]. intros Hnil. exfalso. apply NE.
      rewrite Hlen. unfold c. rewrite Hnil. reflexivity.
  - intros rows.
    destruct (Nat.eqb_spec (length (historyOrder st)) 0) as [E|NE];
      [discriminate|].
    destruct (Z.ltb_spec maxHistory (Z.of_nat (length (historyOrder st))));
      [unfold maxHistory in *; lia|].
    rewrite drop_0. intros [= <-].
    destruct (indexRows_all_present (history st) clock (historyOrder st) 0)
      as [Hl Hrows].
    { intros id Hid. apply (RegistryInv_lookup _ _ id Hinv). exact Hid. }
    split; [exact Hl|]. split; [rewrite Hl, Hlen; unfold maxHistory; lia|].
    intros i id Hi. destruct (Hrows i id Hi) as (entry & He & Hrow).
    exists entry. split; [exact He|]. split; [exact Hrow|].
    unfold indexRow.
    destruct (getStatusDetails entry (fst (clock i)) (snd (clock i))) as [[el cur] cls].
    cbn [rowID rowLink]. rewrite (inv_ids _ _ Hinv _ _ He). auto.
Qed.

Lemma index_page_lists_retained_jobs_witness :
  exists rows,
    indexHandler (registry (run initWorld busy))
      (fun i => (10 + Z.of_nat i, 10 + Z.of_nat i)) = Some rows /\
    length rows = 10%nat /\
    rows !! 1%nat
    = Some (indexRow (mkDelayEntry 4 "job" 0 3 true (Some 9)) 11 11).
Proof.
  destruct (index_page_lists_retained_jobs busy
              (fun i => (10 + Z.of_nat i, 10 + Z.of_nat i)))
    as [_ Hrows].
  eexists. split; [vm_compute; reflexivity|].
  destruct (Hrows _ ltac:(vm_compute; reflexivity)) as (Hlen & _ & Hrow).
  split; [etransitivity; [exact Hlen | vm_compute; reflexivity]|].
  destruct (Hrow 1%nat 4 ltac:(vm_compute; reflexivity)) as (entry & He & Hr & _).
  etransitivity; [exact Hr|]. vm_compute in He. injection He as <-. reflexivity.
Defined.

Lemma statusLines_active (iter : list (Z * DelayEntry)) clock : forall k,
  fst (statusLines iter k clock) = 0%nat <->
  forall id e, (id, e) ∈ iter -> IsCompleted e = true.
Proof.
  induction iter as [|[id0 e0] rest IH]; intros k; cbn [statusLines].
  - split; [|reflexivity]. intros _ id e Hin. inversion Hin.
  - specialize (IH (S k)).
    destruct (statusLines rest (S k) clock) as [n lines]. cbn [fst] in IH.
    destruct (IsCompleted e0) eqn:E0; cbn [fst].
    + rewrite IH. split.
      * intros H id e Hin. apply elem_of_cons in Hin as [[= -> ->]|Hin];
          [exact E0 | exact (H id e Hin)].
      * intros H id e Hin. apply (H id e). right. exact Hin.
    + split; [discriminate|]. intros H.
      specialize (H id0 e0 ltac:(left)). congruence.
Qed.

(** X7.  Whatever order the map is visited in, the status page closes with
    "No countdowns activated" exactly when the registry is empty, with "All
    queued tasks are completed" exactly when it is not empty and every job
    in it is flagged completed, and with no sentence at all exactly when
    some job is not flagged completed. *)
Theorem status_page_message (st : State) (iter : list (Z * DelayEntry))
    (clock : nat -> Time) :
  iterationOf iter st ->
  (snd (statusIndexHandler st iter clock) = NoneActivated <-> history st = ∅) /\
  (snd (statusIndexHandler st iter clock) = AllCompleted <->
   history st <> ∅ /\
   forall id e, history st !! id = Some e -> IsCompleted e = true) /\
  (snd (statusIndexHandler st iter clock) = NoMessage <->
   exists id e, history st !! id = Some e /\ IsCompleted e = false).
Proof.
  unfold iterationOf. intros Hiter.
  assert (Hmem : forall id e, (id, e) ∈ iter <-> history st !! id = Some e).
  { intros id e. rewrite Hiter. apply elem_of_map_to_list. }
  pose proof (statusLines_active iter clock 0) as Hact.
  unfold statusIndexHandler.
  destruct (statusLines iter 0 clock) as [n lines]. cbn [fst snd] in *.
  assert (Hall : n = 0%nat <->
                 forall id e, history st !! id = Some e -> IsCompleted e = true).
  { rewrite Hact. split; intros H id e He; apply (H id e), Hmem, He. }
  assert (Hempty : size (history st) = 0%nat <-> history st = ∅)
    by apply map_size_empty_iff.
  assert (Hsome : (exists id e, history st !! id = Some e /\ IsCompleted e = false)
                  <-> n <> 0%nat).
  { rewrite Hall. split.
    - intros (id & e & He & Hf) H. rewrite (H id e He) in Hf. discriminate.
    - intros Hn.
      destruct (decide (Forall (fun ke => IsCompleted ke.2 = true) iter)) as [Hf|Hf].
      + exfalso. apply Hn. intros id e He. apply Hmem in He.
        rewrite Forall_forall in Hf. exact (Hf (id, e) He).
      + apply not_Forall_Exists in Hf; [|intros x; apply _].
        apply Exists_exists in Hf as ([id e] & Hin & Hne). cbn in Hne.
        exists id, e. split; [apply Hmem, Hin|].
        destruct (IsCompleted e); [contradiction | reflexivity]. }
  destruct (Nat.eqb_spec n 0) as [En|Nn];
    destruct (Nat.ltb_spec 0 (size (history st))) as [Hs|Hs]; cbn [andb].
  - split; [|split].
    + split; [discriminate|]. intros H. apply Hempty in H. lia.
    + split; [intros _|reflexivity]. split; [|apply Hall, En].
      intros H. apply Hempty in H. lia.
    + split; [discriminate|]. intros H. apply Hsome in H. contradiction.
  - assert (Hz : size (history st) = 0%nat) by lia. rewrite Hz. cbn [Nat.eqb].
    split; [|split].
    + split; [intros _; apply Hempty, Hz | reflexivity].
    + split; [discriminate|]. intros [Hne _]. exfalso. apply Hne, Hempty, Hz.
    + split; [discriminate|]. intros H. apply Hsome in H. contradiction.
  - destruct (Nat.eqb_spec (size (history st)) 0) as [Hz|Hz]; [lia|].
    split; [|split].
    + split; [discriminate|]. intros H. apply Hempty in H. contradiction.
    + split; [discriminate|]. intros [_ H]. apply Hall in H. contradiction.
    + split; [intros _; apply Hsome, Nn | reflexivity].
  - exfalso. assert (Hz : size (history st) = 0%nat) by lia.
    apply Hempty in Hz. apply Hsome in Nn as (id & e & He & _).
    rewrite Hz, lookup_empty in He. discriminate.
Qed.

Lemma status_page_message_witness :
  (exists id e, history st_mixed !! id = Some e /\ IsCompleted e = false) /\
  (history st_all_done <> ∅ /\
   forall id e, history st_all_done !! id = Some e -> IsCompleted e = true).
Proof.
  split.
  - apply (status_page_message st_mixed
             [(1, mkDelayEntry 1 "job" 0 3 false None);
              (3, mkDelayEntry 3 "job" 0 3 false None);
              (2, mkDelayEntry 2 "job" 0 3 true (Some 9))]
             (fun i => 10 + Z.of_nat i)).
    + unfold iterationOf.
      assert (E : map_to_list (history st_mixed)
                  = [(3, mkDelayEntry 3 "job" 0 3 false None);
                     (2, mkDelayEntry 2 "job" 0 3 true (Some 9));
                     (1, mkDelayEntry 1 "job" 0 3 false None)])
        by (vm_compute; reflexivity).
      rewrite E. etransitivity; [apply perm_swap|]. apply perm_skip, perm_swap.
    + vm_compute. reflexivity.
  - apply (status_page_message st_all_done
             [(1, mkDelayEntry 1 "job" 0 3 true (Some 9));
              (2, mkDelayEntry 2 "job" 0 3 true (Some 9))]
             (fun i => 10 + Z.of_nat i)).
    + unfold iterationOf.
      assert (E : map_to_list (history st_all_done)
                  = [(2, mkDelayEntry 2 "job" 0 3 true (Some 9));
                     (1, mkDelayEntry 1 "job" 0 3 true (Some 9))])
        by (vm_compute; reflexivity).
      rewrite E. apply perm_swap.
    + vm_compute. reflexivity.
Defined.

(** The elapsed time since the creation of an entry, for readings less than
    [2^63] ns after it. *)
Lemma Since_exact now createdAt :
  createdAt <= now -> now - createdAt <= GoInt.maxInt ->
  Since now createdAt = now - createdAt.
Proof.
  intros Hle Hfit. unfold Since, Sub.
  rewrite wrap_id
    by (unfold GoInt.inRange, GoInt.minInt, GoInt.maxInt in *; lia).
  destruct (Z.ltb_spec (now - createdAt) 0); [lia|]. cbn [andb].
  destruct (Z.ltb_spec 0 (now - createdAt)); [|reflexivity].
  destruct (Z.ltb_spec now createdAt); [lia | reflexivity].
Qed.

(** X8.  The status page and the detail page agree on when a job is in
    progress, up to one instant.  For a job not flagged completed whose
    delay fits a [Duration], read at a time [now] after its creation: the
    status page lists it exactly while [now < createdAt + d], with
    [createdAt + d - now] as the remaining time, and then the detail page
    says "in-progress" too; at [now = createdAt + d] exactly the status
    page no longer lists it while the detail page still says
    "in-progress". *)
Theorem status_line_agrees_with_detail (entry : DelayEntry) (tSince now : Time) :
  IsCompleted entry = false ->
  0 <= TotalDelaySecs entry * Second <= GoInt.maxInt ->
  DateTimeAdded entry <= now ->
  now - DateTimeAdded entry <= GoInt.maxInt ->
  (is_Some (statusLine entry now) <->
   now < DateTimeAdded entry + TotalDelaySecs entry * Second) /\
  (forall line, statusLine entry now = Some line ->
     lineRemaining line
     = DateTimeAdded entry + TotalDelaySecs entry * Second - now /\
     lineID line = ID entry /\ lineLink line = statusLink (ID entry) /\
     statusOf (getStatusDetails entry tSince now) = "in-progress"%string) /\
  (now = DateTimeAdded entry + TotalDelaySecs entry * Second ->
     statusLine entry now = None /\
     statusOf (getStatusDetails entry tSince now) = "in-progress"%string).
Proof.
  intros Hc Hd Hle Hfit.
  assert (Hr : GoInt.inRange (TotalDelaySecs entry * Second))
    by (unfold GoInt.inRange, GoInt.minInt, GoInt.maxInt in *; lia).
  assert (Hrem : GoInt.sub (seconds_to_Duration (TotalDelaySecs entry))
                           (Since now (DateTimeAdded entry))
                 = DateTimeAdded entry + TotalDelaySecs entry * Second - now).
  { rewrite Since_exact by assumption.
    unfold seconds_to_Duration, GoInt.mul, GoInt.sub.
    rewrite (wrap_id _ Hr).
    rewrite wrap_id
      by (unfold GoInt.inRange, GoInt.minInt, GoInt.maxInt in *; lia).
    lia. }
  unfold statusLine. rewrite Hrem.
  destruct (Z.ltb_spec 0 (DateTimeAdded entry + TotalDelaySecs entry * Second - now))
    as [Hpos|Hnpos].
  - split; [|split].
    + split; [intros _; lia | intros _; eauto].
    + intros line [= <-]. cbn.
      split; [reflexivity|]. split; [reflexivity|]. split; [reflexivity|].
      rewrite status_clock_early by (assumption || lia). reflexivity.
    + lia.
  - split; [|split].
    + split; [intros [x Hx]; discriminate | lia].
    + discriminate.
    + intros Hnow. split; [reflexivity|].
      rewrite status_clock_early by (assumption || lia). reflexivity.
Qed.

Lemma status_line_agrees_with_detail_witness :
  statusLine job5 (5 * Second) = None /\
  statusOf (getStatusDetails job5 (5 * Second) (5 * Second)) = "in-progress"%string.
Proof.
  apply (status_line_agrees_with_detail job5 (5 * Second) (5 * Second));
    vm_compute; try reflexivity; try (split; discriminate); discriminate.
Defined.

Lemma apiStatusIndexHandler_lookup clock (iter : list (Z * DelayEntry)) :
  forall k,
  length (apiStatusIndexHandler iter k clock) = length iter /\
  forall (i : nat) id e, iter !! i = Some (id, e) ->
    apiStatusIndexHandler iter k clock !! i
    = Some (apiResponse e (fst (clock (k + i)%nat)) (snd (clock (k + i)%nat))).
Proof.
  induction iter as [|[id0 e0] rest IH]; intros k; cbn [apiStatusIndexHandler].
  - split; [reflexivity|]. intros i id e Hi. discriminate Hi.
  - destruct (IH (S k)) as [Hlen Hrows].
    split; [cbn [length]; rewrite Hlen; reflexivity|].
    intros [|i] id e Hi; cbn in Hi.
    + injection Hi as <- <-. rewrite Nat.add_0_r. reflexivity.
    + cbn [lookup list_lookup]. replace (k + S i)%nat with (S k + i)%nat by lia.
      exact (Hrows i id e Hi).
Qed.

Lemma apiResponse_ID entry tSince tNow :
  Api.ID (apiResponse entry tSince tNow) = ID entry.
Proof.
  unfold apiResponse.
  destruct (getStatusDetails entry tSince tNow) as [[el cur] cls]. reflexivity.
Qed.

(** X9.  On the registry reached by any run, and whatever order the map is
    visited in, the JSON list holds one response per retained job (at most
    [maxHistory]), their IDs are the retained IDs in some order, and each is
    the response the detail handler gives for its ID at the same clock
    readings. *)
Theorem api_list_agrees_with_detail (ops : list Op)
    (iter : list (Z * DelayEntry)) (clock : nat -> Time * Time) :
  iterationOf iter (registry (run initWorld ops)) ->
  length (apiStatusIndexHandler iter 0 clock)
  = length (historyOrder (registry (run initWorld ops))) /\
  (length (apiStatusIndexHandler iter 0 clock) <= Z.to_nat maxHistory)%nat /\
  Api.ID <$> apiStatusIndexHandler iter 0 clock
  ≡ₚ historyOrder (registry (run initWorld ops)) /\
  (forall (i : nat) r,
     apiStatusIndexHandler iter 0 clock !! i = Some r ->
     snd (apiStatusDetailHandler (registry (run initWorld ops)) (Api.ID r)
            (fst (clock i)) (snd (clock i)))
     = Found r).
Proof.
  unfold iterationOf. intros Hiter.
  destruct (run_inv_init ops) as [Hids Hinv]. cbv zeta in Hids, Hinv.
  set (st := registry (run initWorld ops)) in *.
  set (c := Z.of_nat (length (issuedIDs initWorld ops))) in *.
  pose proof (RegistryInv_consistent _ _ Hinv) as [Hdom Hnd].
  destruct (apiStatusIndexHandler_lookup clock iter 0) as [Hlen Hrows].
  assert (Hmem : forall id e, (id, e) ∈ iter <-> history st !! id = Some e).
  { intros id e. rewrite Hiter. apply elem_of_map_to_list. }
  assert (Hkeys : iter.*1 ≡ₚ historyOrder st).
  { apply NoDup_Permutation.
    - rewrite Hiter. apply NoDup_fst_map_to_list.
    - exact Hnd.
    - intros id. rewrite <- (RegistryInv_lookup _ _ id Hinv). split.
      + intros ([id' e] & -> & Hin)%list_elem_of_fmap. cbn.
        apply Hmem in Hin. eauto.
      + intros [e He]. apply list_elem_of_fmap. exists (id, e).
        split; [reflexivity | apply Hmem, He]. }
  assert (HIDs : Api.ID <$> apiStatusIndexHandler iter 0 clock = iter.*1).
  { apply list_eq. intros i. rewrite !list_lookup_fmap.
    destruct (iter !! i) as [[id e]|] eqn:Ei.
    - rewrite (Hrows i id e Ei). cbn. rewrite apiResponse_ID. f_equal.
      apply (inv_ids _ _ Hinv). apply Hmem. apply list_elem_of_lookup. eauto.
    - rewrite (proj2 (lookup_ge_None _ _)); [reflexivity|].
      rewrite Hlen. apply lookup_ge_None. exact Ei. }
  assert (Hsize : length iter = length (historyOrder st)).
  { rewrite <- (length_fmap fst iter), Hkeys. reflexivity. }
  split; [rewrite Hlen; exact Hsize|]. split; [|split].
  - rewrite Hlen, Hsize, (inv_order _ _ Hinv), length_idWindow by (unfold c; lia).
    unfold maxHistory. lia.
  - rewrite HIDs. exact Hkeys.
  - intros i r Hr.
    destruct (iter !! i) as [[id e]|] eqn:Ei.
    + rewrite (Hrows i id e Ei) in Hr. injection Hr as <-.
      rewrite apiResponse_ID.
      assert (He : history st !! id = Some e)
        by (apply Hmem; apply list_elem_of_lookup; eauto).
      rewrite (inv_ids _ _ Hinv _ _ He).
      unfold apiStatusDetailHandler. rewrite He. reflexivity.
    + apply lookup_ge_None in Ei. rewrite <- Hlen in Ei.
      apply lookup_ge_None in Ei. congruence.
Qed.

Lemma api_list_agrees_with_detail_witness :
  length (apiStatusIndexHandler
            (map_to_list (history (registry (run initWorld (posts 12))))) 0
            (fun _ => (Second, Second)))
  = length (historyOrder (registry (run initWorld (posts 12)))).
Proof.
  apply (api_list_agrees_with_detail (posts 12)). unfold iterationOf. reflexivity.
Defined.

End ListPages.

(** ** Entries and timers along a run *)

Section EntriesAndTimers.

Lemma Atoi_inRange s v : Strconv.Atoi s = Some v -> GoInt.inRange v.
Proof.
  unfold Strconv.Atoi. destruct s as [|c rest]; [discriminate|].
  destruct (if Ascii.eqb c "-" then (true, rest)
            else if Ascii.eqb c "+" then (false, rest)
            else (false, String c rest)) as [neg body].
  destruct body as [|c' body']; [discriminate|].
  destruct (Strconv.digits 0 (String c' body')) as [n|]; [|discriminate].
  destruct (Z.leb_spec GoInt.minInt (if neg then - n else n)); [|discriminate].
  destruct (Z.leb_spec (if neg then - n else n) GoInt.maxInt); [|discriminate].
  intros [= <-]. split; assumption.
Qed.

(** An entry found after a create is the new one, under the new ID, or an
    old one under its old ID. *)
Lemma createEntry_lookup_new st jobName delay now id e :
  history (fst (createEntry st jobName delay now)) !! id = Some e ->
  (id = nextEntryID st /\
   e = {| ID := nextEntryID st; Name := jobName; DateTimeAdded := now;
          TotalDelaySecs := delay; IsCompleted := false;
          CompletedTime := None |}) \/
  (id <> nextEntryID st /\ history st !! id = Some e).
Proof.
  unfold createEntry. rewrite keepHistoryBounded_unfold. unfold insertEntry.
  cbn [fst history historyOrder nextEntryID]. intros H.
  apply keepHistoryBounded_loop_lookup in H.
  apply lookup_insert_Some in H as [[<- <-]|[Hne H]]; [left|right]; auto.
Qed.

(** An entry found after a completion fire is the completed form of the
    fired job's entry, or an untouched one. *)
Lemma runTimer_lookup st jobID now id e' :
  history (runTimer st jobID now) !! id = Some e' ->
  (id = jobID /\
   exists e, history st !! id = Some e /\
     e' = {| ID := ID e; Name := Name e; DateTimeAdded := DateTimeAdded e;
             TotalDelaySecs := TotalDelaySecs e; IsCompleted := true;
             CompletedTime := Some now |}) \/
  (id <> jobID /\ history st !! id = Some e').
Proof.
  unfold runTimer. destruct (history st !! jobID) as [e|] eqn:Ej.
  - cbn [history]. intros H.
    apply lookup_insert_Some in H as [[<- <-]|[Hne H]]; [left|right]; eauto.
  - intros H. right. split; [|exact H]. intros ->. congruence.
Qed.

Lemma exec_wellFormed w op :
  (forall id e, history (registry w) !! id = Some e -> wellFormedEntry e) ->
  forall id e, history (registry (exec w op)) !! id = Some e -> wellFormedEntry e.
Proof.
  intros Hw id e He. destruct op as [delayStr jobName now | k now]; cbn [exec] in He.
  - unfold startHandler_POST in He.
    destruct (Strconv.Atoi delayStr) as [delay|] eqn:Ea;
      [|exact (Hw id e He)].
    destruct (Z.ltb_spec delay 1) as [|Hge]; [exact (Hw id e He)|].
    pose proof (createEntry_lookup_new (registry w) jobName delay now id e) as Hl.
    destruct (createEntry (registry w) jobName delay now) as [st jobID].
    cbn [fst registry] in *.
    destruct (Hl He) as [[_ ->]|[_ Hold]]; [|exact (Hw id e Hold)].
    apply Atoi_inRange in Ea as [_ Hmax].
    split; cbn; [lia|]. split; [discriminate | intros [x Hx]; discriminate].
  - destruct (sleeping w !! k) as [[jobID delay]|]; [|exact (Hw id e He)].
    cbn [registry] in He.
    apply runTimer_lookup in He as [[_ (e0 & He0 & ->)]|[_ Hold]];
      [|exact (Hw id e Hold)].
    destruct (Hw id e0 He0) as [Hd _].
    split; cbn; [exact Hd|]. split; [eauto | reflexivity].
Qed.

(** X10.  Every entry the registry holds after any run is stored under its
    own [ID], has the delay of at least one second it was validated with,
    and has a completion time exactly when it is flagged completed. *)
Theorem stored_entries_well_formed (ops : list Op) (id : Z) (e : DelayEntry) :
  history (registry (run initWorld ops)) !! id = Some e ->
  ID e = id /\
  1 <= TotalDelaySecs e <= GoInt.maxInt /\
  (IsCompleted e = true <-> is_Some (CompletedTime e)) /\
  (IsCompleted e = false <-> CompletedTime e = None).
Proof.
  intros He.
  assert (Hwf : forall ops w,
            (forall id e, history (registry w) !! id = Some e -> wellFormedEntry e) ->
            forall id e, history (registry (run w ops)) !! id = Some e ->
                         wellFormedEntry e).
  { clear. induction ops as [|op ops IH]; intros w Hw; [exact Hw|].
    cbn [run fold_left]. fold (run (exec w op) ops).
    apply IH. apply exec_wellFormed. exact Hw. }
  destruct (run_inv_init ops) as [_ Hinv]. cbv zeta in Hinv.
  split; [exact (inv_ids _ _ Hinv _ _ He)|].
  destruct (Hwf ops initWorld) with (id := id) (e := e) as [Hd Hc].
  { intros id' e' H. cbn in H. rewrite lookup_empty in H. discriminate. }
  { exact He. }
  split; [exact Hd|]. split; [exact Hc|].
  destruct Hc as [Hc1 Hc2].
  destruct (IsCompleted e), (CompletedTime e) as [t|]; split; intros H;
    try reflexivity; try discriminate.
  - destruct (Hc1 eq_refl) as [x Hx]. discriminate.
  - specialize (Hc2 (ex_intro _ t eq_refl)). discriminate.
Qed.

Lemma stored_entries_well_formed_witness :
  1 <= TotalDelaySecs (mkDelayEntry 1 "tea" 0 5 false None) <= GoInt.maxInt.
Proof.
  apply (stored_entries_well_formed [PostStart "5" "tea" 0] 1
           (mkDelayEntry 1 "tea" 0 5 false None)).
  vm_compute. reflexivity.
Defined.

Lemma PendingInv_init : PendingInv 0 initWorld.
Proof.
  split.
  - exact TimersInv_init.
  - intros id e H. cbn in H. rewrite lookup_empty in H. discriminate.
  - intros id delay e H. inversion H.
Qed.

(** What is asleep after the [k]-th timer has gone. *)
Lemma elem_of_delete_other {A} (l : list A) (k : nat) (x y : A) :
  l !! k = Some y -> x ∈ l -> x <> y -> x ∈ delete k l.
Proof.
  intros Hk Hx Hne. rewrite (delete_Permutation l k y Hk) in Hx.
  apply elem_of_cons in Hx as [->|Hx]; [contradiction | exact Hx].
Qed.

Lemma exec_PendingInv n w op :
  PendingInv n w ->
  n + Z.of_nat (length (issuedIDs w [op])) <= GoInt.maxInt ->
  PendingInv (n + Z.of_nat (length (issuedIDs w [op]))) (exec w op).
Proof.
  intros [Ht Harmed Hdelay] Hroom.
  pose proof (exec_TimersInv n w op Ht Hroom) as Ht'.
  split; [exact Ht'|clear Ht'..].
  - (* a job not completed has its timer *)
    intros id e He Hc.
    destruct op as [delayStr jobName now | k now]; cbn [exec issuedIDs] in *.
    + unfold startHandler_POST in *.
      destruct (Strconv.Atoi delayStr) as [delay|]; [|exact (Harmed id e He Hc)].
      destruct (delay <? 1); [exact (Harmed id e He Hc)|].
      pose proof (createEntry_lookup_new (registry w) jobName delay now id e) as Hl.
      destruct (createEntry_inv n (registry w) jobName delay now
                  (tinv_registry _ _ Ht)) as (Hid & _).
      destruct (createEntry (registry w) jobName delay now) as [st jobID].
      cbn [fst snd registry sleeping length] in *. change (Z.of_nat 1) with 1 in *.
      rewrite (inv_next _ _ (tinv_registry _ _ Ht)) in Hl. subst jobID.
      apply elem_of_app.
      destruct (Hl He) as [[-> ->]|[_ Hold]].
      * right. cbn [TotalDelaySecs]. apply list_elem_of_singleton. reflexivity.
      * left. exact (Harmed id e Hold Hc).
    + destruct (sleeping w !! k) as [[jobID delay]|] eqn:Ek;
        [|exact (Harmed id e He Hc)].
      cbn [registry sleeping] in *.
      apply runTimer_lookup in He as [[_ (e0 & _ & ->)]|[Hne Hold]];
        [discriminate Hc|].
      apply (elem_of_delete_other _ k _ (jobID, delay) Ek).
      * exact (Harmed id e Hold Hc).
      * congruence.
  - (* a timer carries the delay of its job *)
    intros id delay e Hin He.
    destruct op as [delayStr jobName now | k now]; cbn [exec issuedIDs] in *.
    + unfold startHandler_POST in *.
      destruct (Strconv.Atoi delayStr) as [delay'|];
        [|exact (Hdelay id delay e Hin He)].
      destruct (delay' <? 1); [exact (Hdelay id delay e Hin He)|].
      pose proof (createEntry_lookup_new (registry w) jobName delay' now id e) as Hl.
      destruct (createEntry_inv n (registry w) jobName delay' now
                  (tinv_registry _ _ Ht)) as (Hid & _).
      destruct (createEntry (registry w) jobName delay' now) as [st jobID].
      cbn [fst snd registry sleeping length] in *. change (Z.of_nat 1) with 1 in *.
      rewrite (inv_next _ _ (tinv_registry _ _ Ht)) in Hl. subst jobID.
      pose proof (inv_count _ _ (tinv_registry _ _ Ht)) as Hn.
      assert (Hnew : GoInt.wrap (1 + n) = 1 + n)
        by (apply wrap_id; unfold GoInt.inRange, GoInt.minInt, GoInt.maxInt in *; lia).
      apply elem_of_app in Hin as [Hin|Hin].
      * destruct (Hl He) as [[-> _]|[_ Hold]];
          [|exact (Hdelay id delay e Hin Hold)].
        assert (Hiss : GoInt.wrap (1 + n) ∈ (sleeping w).*1).
        { apply list_elem_of_fmap. exists (GoInt.wrap (1 + n), delay). auto. }
        apply (tinv_issued _ _ Ht) in Hiss. lia.
      * apply list_elem_of_singleton in Hin. injection Hin as -> ->.
        destruct (Hl He) as [[_ ->]|[Hne _]]; [reflexivity | contradiction].
    + destruct (sleeping w !! k) as [[jobID delay']|] eqn:Ek;
        [|exact (Hdelay id delay e Hin He)].
      cbn [registry sleeping] in *.
      apply list_elem_of_delete_inv in Hin.
      apply runTimer_lookup in He as [[_ (e0 & He0 & ->)]|[_ Hold]].
      * cbn [TotalDelaySecs]. exact (Hdelay id delay e0 Hin He0).
      * exact (Hdelay id delay e Hin Hold).
Qed.

Lemma run_PendingInv ops : forall n w,
  PendingInv n w ->
  n + Z.of_nat (length (issuedIDs w ops)) <= GoInt.maxInt ->
  PendingInv (n + Z.of_nat (length (issuedIDs w ops))) (run w ops).
Proof.
  induction ops as [|op ops IH]; intros n w Hinv Hroom.
  - cbn. rewrite Z.add_0_r. exact Hinv.
  - rewrite issuedIDs_cons, length_app, Nat2Z.inj_add in Hroom |- *.
    cbn [run fold_left]. fold (run (exec w op) ops).
    rewrite Z.add_assoc. apply IH; [|lia].
    apply exec_PendingInv; [exact Hinv | lia].
Qed.

Lemma exec_completedInTime n w op :
  PendingInv n w ->
  match op with
  | TimerFires k now => wakesInTime w k now
  | PostStart _ _ _ => True
  end ->
  (forall id e, history (registry w) !! id = Some e -> completedInTime e) ->
  forall id e, history (registry (exec w op)) !! id = Some e -> completedInTime e.
Proof.
  intros Hinv Hwake Hall id e He.
  destruct op as [delayStr jobName now | k now]; cbn [exec] in He.
  - unfold startHandler_POST in He.
    destruct (Strconv.Atoi delayStr) as [delay|]; [|exact (Hall id e He)].
    destruct (delay <? 1); [exact (Hall id e He)|].
    pose proof (createEntry_lookup_new (registry w) jobName delay now id e) as Hl.
    destruct (createEntry (registry w) jobName delay now) as [st jobID].
    cbn [fst registry] in *.
    destruct (Hl He) as [[_ ->]|[_ Hold]]; [|exact (Hall id e Hold)].
    intros Hc. discriminate Hc.
  - unfold wakesInTime in Hwake.
    destruct (sleeping w !! k) as [[jobID delay]|] eqn:Ek; [|exact (Hall id e He)].
    cbn [registry] in He.
    apply runTimer_lookup in He as [[-> (e0 & He0 & ->)]|[_ Hold]];
      [|exact (Hall id e Hold)].
    rewrite He0 in Hwake.
    assert (Hd : delay = TotalDelaySecs e0).
    { apply (pinv_delay _ _ Hinv jobID delay e0); [|exact He0].
      apply list_elem_of_lookup. eauto. }
    subst delay. intros _. exists now. split; [reflexivity | exact Hwake].
Qed.

Lemma run_completedInTime ops : forall n w,
  PendingInv n w ->
  n + Z.of_nat (length (issuedIDs w ops)) <= GoInt.maxInt ->
  timed w ops ->
  (forall id e, history (registry w) !! id = Some e -> completedInTime e) ->
  forall id e, history (registry (run w ops)) !! id = Some e -> completedInTime e.
Proof.
  induction ops as [|op ops IH]; intros n w Hinv Hroom Ht Hall; [exact Hall|].
  rewrite issuedIDs_cons, length_app, Nat2Z.inj_add in Hroom.
  cbn [run fold_left]. fold (run (exec w op) ops).
  destruct Ht as [Hwake Ht].
  apply (IH (n + Z.of_nat (length (issuedIDs w [op])))).
  - apply exec_PendingInv; [exact Hinv | lia].
  - lia.
  - exact Ht.
  - apply (exec_completedInTime n); assumption.
Qed.

(** X12.  No job is flagged completed before its sleep is over.  In a run
    (of at most 2^63 - 1 creates) in which every timer goroutine wakes no
    earlier than [time.Sleep] lets it, every retained job flagged completed
    has a completion time, and that time is at least its creation time plus
    the duration slept; for a delay of [d] seconds that fits a [Duration]
    this is [createdAt + d] seconds. *)
Theorem completed_after_delay (ops : list Op) (id : Z) (e : DelayEntry) :
  Z.of_nat (length (issuedIDs initWorld ops)) <= GoInt.maxInt ->
  timed initWorld ops ->
  history (registry (run initWorld ops)) !! id = Some e ->
  IsCompleted e = true ->
  exists t,
    CompletedTime e = Some t /\
    DateTimeAdded e + Z.max 0 (seconds_to_Duration (TotalDelaySecs e)) <= t /\
    (GoInt.inRange (TotalDelaySecs e * Second) ->
     DateTimeAdded e + TotalDelaySecs e * Second <= t).
Proof.
  intros Hroom Ht He Hc.
  destruct (run_completedInTime ops 0 initWorld PendingInv_init ltac:(lia) Ht)
    with (id := id) (e := e) as (t & Et & Hle).
  - intros id' e' H. cbn in H. rewrite lookup_empty in H. discriminate.
  - exact He.
  - exact Hc.
  - exists t. split; [exact Et|]. split; [exact Hle|].
    intros Hr. unfold seconds_to_Duration, GoInt.mul in Hle.
    rewrite (wrap_id _ Hr) in Hle. lia.
Qed.

Lemma completed_after_delay_witness :
  exists t,
    CompletedTime (mkDelayEntry 1 "tea" 0 5 true (Some (5 * Second + 3))) = Some t /\
    0 + Z.max 0 (seconds_to_Duration 5) <= t.
Proof.
  destruct (completed_after_delay
              [PostStart "5" "tea" 0; TimerFires 0 (5 * Second + 3)] 1
              (mkDelayEntry 1 "tea" 0 5 true (Some (5 * Second + 3))))
    as (t & Et & Hle & _).
  - vm_compute. discriminate.
  - cbn [timed]. split; [exact I|]. split; [|exact I].
    vm_compute. discriminate.
  - vm_compute. reflexivity.
  - reflexivity.
  - exists t. split; [exact Et | exact Hle].
Defined.

Lemma sameJob_refl e : sameJob e e.
Proof. repeat split. Qed.

Lemma sameJob_trans e1 e2 e3 : sameJob e1 e2 -> sameJob e2 e3 -> sameJob e1 e3.
Proof.
  unfold sameJob. intros (A1 & A2 & A3 & A4) (B1 & B2 & B3 & B4).
  repeat split; congruence.
Qed.

(** One step leaves the identity of a retained job alone and never takes
    the completed flag back. *)
Lemma exec_sameJob n w op id e e' :
  TimersInv n w ->
  history (registry w) !! id = Some e ->
  history (registry (exec w op)) !! id = Some e' ->
  sameJob e e' /\ (IsCompleted e = true -> e' = e).
Proof.
  intros Hinv He He'.
  destruct (IsCompleted e) eqn:Hc.
  - destruct (exec_keeps_completed n w op id e Hinv He Hc) as [H|H];
      rewrite H in He'; [|discriminate].
    injection He' as <-. split; [apply sameJob_refl | reflexivity].
  - split; [|discriminate].
    destruct op as [delayStr jobName now | k now]; cbn [exec] in He'.
    + unfold startHandler_POST in He'.
      destruct (Strconv.Atoi delayStr) as [delay|];
        [|cbn in He'; rewrite He in He'; injection He' as <-; apply sameJob_refl].
      destruct (delay <? 1);
        [cbn in He'; rewrite He in He'; injection He' as <-; apply sameJob_refl|].
      pose proof (createEntry_lookup_new (registry w) jobName delay now id e') as Hl.
      destruct (createEntry (registry w) jobName delay now) as [st jobID].
      cbn [fst registry] in *.
      destruct (Hl He') as [[-> _]|[_ Hold]].
      * pose proof (tinv_registry _ _ Hinv) as Hreg.
        assert (Hin : nextEntryID (registry w) ∈ historyOrder (registry w))
          by (apply (RegistryInv_lookup _ _ _ Hreg); eauto).
        rewrite (inv_next _ _ Hreg), (inv_order _ _ Hreg) in Hin.
        exfalso. exact (idWindow_fresh n (inv_count _ _ Hreg) Hin).
      * rewrite He in Hold. injection Hold as <-. apply sameJob_refl.
    + destruct (sleeping w !! k) as [[jobID delay]|];
        [|rewrite He in He'; injection He' as <-; apply sameJob_refl].
      cbn [registry] in He'.
      apply runTimer_lookup in He' as [[_ (e0 & He0 & ->)]|[_ Hold]].
      * rewrite He in He0. injection He0 as <-. repeat split.
      * rewrite He in Hold. injection Hold as <-. apply sameJob_refl.
Qed.

Lemma run_sameJob ops id e : forall n w e0,
  TimersInv n w ->
  n + Z.of_nat (length (issuedIDs w ops)) <= GoInt.maxInt ->
  1 <= id <= n ->
  sameJob e e0 /\ (IsCompleted e = true -> e0 = e) ->
  history (registry w) !! id = Some e0 \/ history (registry w) !! id = None ->
  forall e', history (registry (run w ops)) !! id = Some e' ->
  sameJob e e' /\ (IsCompleted e = true -> e' = e).
Proof.
  induction ops as [|op ops IH]; intros n w e0 Hinv Hroom Hid Hsame Hnow e' He'.
  - cbn in He'. destruct Hnow as [H|H]; rewrite H in He'; [|discriminate].
    injection He' as <-. exact Hsame.
  - rewrite issuedIDs_cons, length_app, Nat2Z.inj_add in Hroom.
    cbn [run fold_left] in He'. fold (run (exec w op) ops) in He'.
    pose proof (exec_TimersInv n w op Hinv ltac:(lia)) as Hinv'.
    destruct Hnow as [H0|Hnone].
    + destruct (history (registry (exec w op)) !! id) as [e1|] eqn:E1.
      * destruct (exec_sameJob n w op id e0 e1 Hinv H0 E1) as [Hs Hk].
        apply (IH _ _ e1 Hinv' ltac:(lia) ltac:(lia)); [|left; exact E1|exact He'].
        destruct Hsame as [Hs0 Hk0]. split.
        -- exact (sameJob_trans _ _ _ Hs0 Hs).
        -- intros Hc. specialize (Hk0 Hc). subst e0. exact (Hk Hc).
      * apply (IH _ _ e0 Hinv' ltac:(lia) ltac:(lia) Hsame); [right; exact E1|exact He'].
    + apply (IH _ _ e0 Hinv' ltac:(lia) ltac:(lia) Hsame); [right|exact He'].
      apply (exec_keeps_absent n w op id Hinv); [lia | exact Hid | exact Hnone].
Qed.

(** X13.  A job's record is fixed at creation.  Along any run (of at most
    2^63 - 1 creates) the entry stored under an ID at a later time is the
    same job as the one stored earlier: same [ID], name, creation time and
    delay; only the completion may have been added, and once the job is
    flagged completed the whole record stays as it is. *)
Theorem job_record_is_immutable (ops1 ops2 : list Op) (id : Z) (e e' : DelayEntry) :
  Z.of_nat (length (issuedIDs initWorld (ops1 ++ ops2))) <= GoInt.maxInt ->
  history (registry (run initWorld ops1)) !! id = Some e ->
  history (registry (run initWorld (ops1 ++ ops2))) !! id = Some e' ->
  ID e' = ID e /\ Name e' = Name e /\
  DateTimeAdded e' = DateTimeAdded e /\ TotalDelaySecs e' = TotalDelaySecs e /\
  (IsCompleted e = true -> e' = e).
Proof.
  intros Hroom He He'.
  rewrite issuedIDs_app, length_app, Nat2Z.inj_add in Hroom.
  rewrite run_app in He'.
  pose proof (run_TimersInv ops1 0 initWorld TimersInv_init ltac:(lia)) as Hinv.
  rewrite Z.add_0_l in Hinv.
  assert (Hid : 1 <= id <= Z.of_nat (length (issuedIDs initWorld ops1))).
  { apply (tinv_keys _ _ Hinv).
    apply (RegistryInv_lookup _ _ id (tinv_registry _ _ Hinv)). eauto. }
  destruct (run_sameJob ops2 id e _ _ e Hinv ltac:(lia) Hid) with (e' := e')
    as [(H1 & H2 & H3 & H4) Hk].
  - split; [apply sameJob_refl | reflexivity].
  - left. exact He.
  - exact He'.
  - repeat split; auto.
Qed.

Lemma job_record_is_immutable_witness :
  Name (mkDelayEntry 1 "tea" 0 5 true (Some 9)) = Name (mkDelayEntry 1 "tea" 0 5 false None).
Proof.
  apply (job_record_is_immutable [PostStart "5" "tea" 0]
           [PostStart "2" "egg" 3; TimerFires 0 9] 1
           (mkDelayEntry 1 "tea" 0 5 false None)
           (mkDelayEntry 1 "tea" 0 5 true (Some 9))).
  - vm_compute. discriminate.
  - vm_compute. reflexivity.
  - vm_compute. reflexivity.
Defined.

(** X14.  A successful create is visible at once.  On the registry reached
    by any run, a POST whose delay parses to a number of at least 1 answers
    with a new ID; the entry stored under that ID carries the submitted
    name and delay and the creation time read, and is not completed; the ID
    is the last of the insertion order; one timer with this ID and delay is
    added to those asleep; and a detail request for the ID finds it. *)
Theorem created_job_is_visible (ops : list Op) (delayStr jobName : string)
    (delay : Z) (now tSince tNow : Time) :
  Strconv.Atoi delayStr = Some delay -> 1 <= delay ->
  exists jobID,
    snd (startHandler_POST (run initWorld ops) delayStr jobName now)
    = Created jobID /\
    history (registry (fst (startHandler_POST (run initWorld ops) delayStr jobName now)))
      !! jobID
    = Some {| ID := jobID; Name := jobName; DateTimeAdded := now;
              TotalDelaySecs := delay; IsCompleted := false;
              CompletedTime := None |} /\
    last (historyOrder
            (registry (fst (startHandler_POST (run initWorld ops) delayStr jobName now))))
    = Some jobID /\
    sleeping (fst (startHandler_POST (run initWorld ops) delayStr jobName now))
    = sleeping (run initWorld ops) ++ [(jobID, delay)] /\
    snd (apiStatusDetailHandler
           (registry (fst (startHandler_POST (run initWorld ops) delayStr jobName now)))
           jobID tSince tNow)
    = Found (apiResponse
               {| ID := jobID; Name := jobName; DateTimeAdded := now;
                  TotalDelaySecs := delay; IsCompleted := false;
                  CompletedTime := None |} tSince tNow).
Proof.
  intros Ha Hd. destruct (run_inv_init ops) as [_ Hinv]. cbv zeta in Hinv.
  set (n := Z.of_nat (length (issuedIDs initWorld ops))) in *.
  unfold startHandler_POST. rewrite Ha.
  destruct (Z.ltb_spec delay 1); [lia|].
  destruct (createEntry_inv n (registry (run initWorld ops)) jobName delay now Hinv)
    as (Hid & Hinv' & Hord & Hnew).
  destruct (createEntry (registry (run initWorld ops)) jobName delay now)
    as [st jobID].
  cbn [fst snd registry sleeping] in *. subst jobID.
  exists (GoInt.wrap (1 + n)). split; [reflexivity|]. split; [exact Hnew|].
  split; [|split; [reflexivity|]].
  - rewrite (inv_order _ _ Hinv'). unfold idWindow.
    assert (Hn : 0 <= n) by (unfold n; lia).
    replace (Z.min (n + 1) maxHistory)
      with (Z.pred (Z.min (n + 1) maxHistory) + 1) by lia.
    rewrite seqZ_snoc, fmap_app by (unfold maxHistory; lia).
    cbn [fmap list_fmap]. rewrite last_snoc. f_equal. f_equal. lia.
  - unfold apiStatusDetailHandler. rewrite Hnew. reflexivity.
Qed.

Lemma created_job_is_visible_witness :
  exists jobID,
    snd (startHandler_POST (run initWorld (posts 12)) "4" "nap" (7 * Second))
    = Created jobID.
Proof.
  destruct (created_job_is_visible (posts 12) "4" "nap" 4 (7 * Second) 0 0 eq_refl)
    as (jobID & H & _); [lia|].
  exists jobID. exact H.
Defined.

End EntriesAndTimers.

(** ** The server with its [go] statements *)

Section ServerFacts.

(** The invariant does not depend on the order of the timers. *)
Lemma PendingInv_perm n w w' :
  registry w' = registry w -> sleeping w' ≡ₚ sleeping w ->
  PendingInv n w -> PendingInv n w'.
Proof.
  intros Hr Hp [[Hreg Hb Hnd Hiss Hkeys Hfired] Harmed Hdelay].
  split; [split|..]; rewrite ?Hr.
  - exact Hreg.
  - exact Hb.
  - rewrite Hp. exact Hnd.
  - intros id. rewrite Hp. apply Hiss.
  - exact Hkeys.
  - intros id e He Hc. rewrite Hp. exact (Hfired id e He Hc).
  - intros id e He Hc. rewrite Hp. exact (Harmed id e He Hc).
  - intros id delay e Hin. rewrite Hp in Hin. exact (Hdelay id delay e Hin).
Qed.

Lemma steps_snoc s xs x : steps s (xs ++ [x]) = step (steps s xs) x.
Proof. unfold steps. rewrite fold_left_app. reflexivity. Qed.

Lemma jobsCreated_snoc xs : forall s x,
  jobsCreated s (xs ++ [x])
  = (jobsCreated s xs + jobsCreatedBy (steps s xs) x)%nat.
Proof.
  induction xs as [|y xs IH]; intros s x; cbn [app jobsCreated].
  - cbn. lia.
  - rewrite IH. cbn [steps fold_left]. fold (steps (step s y) xs). lia.
Qed.

(** A POST of the [World] model is the critical section followed at once by
    the handler's own [go] statement. *)
Lemma unlock_then_go s delayStr jobName now :
  step (step s (Unlocks delayStr jobName now)) (Goes (length (unlocked s)))
  = {| world := exec (world s) (PostStart delayStr jobName now);
       unlocked := unlocked s |}.
Proof.
  cbn [step exec]. unfold startHandler_locked, startHandler_POST, goRunTimer.
  destruct (Strconv.Atoi delayStr) as [delay|]; cbn [fst].
  - destruct (delay <? 1); cbn [fst].
    + rewrite lookup_ge_None_2 by lia. destruct s as [[r sl] u]. reflexivity.
    + destruct (createEntry (registry (world s)) jobName delay now) as [st jobID].
      cbn [fst unlocked world registry sleeping].
      rewrite lookup_app_r by lia. rewrite Nat.sub_diag. cbn [lookup list_lookup].
      f_equal. rewrite delete_take_drop, take_app_length.
      rewrite drop_ge by (rewrite length_app; cbn; lia). apply app_nil_r.
  - rewrite lookup_ge_None_2 by lia. destruct s as [[r sl] u]. reflexivity.
Qed.

Lemma delete_app_r {A} (l1 l2 : list A) (k : nat) :
  delete (length l1 + k)%nat (l1 ++ l2) = l1 ++ delete k l2.
Proof. induction l1 as [|a l1 IH]; cbn; [reflexivity | f_equal; exact IH]. Qed.

Lemma Permutation_delete_both {A} (l l' : list A) (k k' : nat) (x : A) :
  l ≡ₚ l' -> l !! k = Some x -> l' !! k' = Some x ->
  delete k l ≡ₚ delete k' l'.
Proof.
  intros Hp Hk Hk'.
  apply (Permutation_cons_inv (a := x)).
  rewrite <- (delete_Permutation l k x Hk), <- (delete_Permutation l' k' x Hk').
  exact Hp.
Qed.

(** Every state of the server has the registry of a [World] run. *)
Lemma steps_refine (xs : list Step) :
  exists ops,
    registry (run initWorld ops) = registry (world (steps initServer xs)) /\
    sleeping (run initWorld ops) ≡ₚ timers (steps initServer xs) /\
    length (issuedIDs initWorld ops) = jobsCreated initServer xs.
Proof.
  induction xs as [|x xs IH] using rev_ind.
  - exists []. cbn. auto.
  - destruct IH as (ops & Hr & Hp & Hn).
    rewrite steps_snoc, jobsCreated_snoc.
    set (s := steps initServer xs) in *.
    destruct x as [delayStr jobName now | j | k now].
    + exists (ops ++ [PostStart delayStr jobName now]).
      rewrite run_app, issuedIDs_app, length_app, Hn.
      cbn [run fold_left exec issuedIDs step jobsCreatedBy].
      unfold startHandler_POST, startHandler_locked. rewrite Hr.
      destruct (Strconv.Atoi delayStr) as [delay|]; cbn [fst snd length];
        [|auto].
      destruct (delay <? 1); cbn [fst snd length]; [auto|].
      destruct (createEntry (registry (world s)) jobName delay now) as [st jobID].
      cbn [fst snd registry sleeping world length]. unfold timers.
      cbn [unlocked world sleeping].
      split; [reflexivity|]. split; [|reflexivity].
      rewrite Hp. unfold timers.
      rewrite <- !app_assoc. apply Permutation_app_head, Permutation_app_comm.
    + exists ops. cbn [step jobsCreatedBy]. rewrite Nat.add_0_r.
      unfold goRunTimer.
      destruct (unlocked s !! j) as [timer|] eqn:Ej; [|auto].
      cbn [world registry]. split; [exact Hr|]. split; [|exact Hn].
      rewrite Hp. unfold timers. cbn [unlocked world sleeping].
      transitivity (timer :: (delete j (unlocked s) ++ sleeping (world s))).
      * rewrite (delete_Permutation _ _ _ Ej) at 1. reflexivity.
      * rewrite app_assoc. apply Permutation_cons_append.
    + cbn [step jobsCreatedBy exec]. rewrite Nat.add_0_r.
      destruct (sleeping (world s) !! k) as [[jobID delay]|] eqn:Ek.
      * assert (Hin : (jobID, delay) ∈ sleeping (run initWorld ops)).
        { rewrite Hp. unfold timers. apply elem_of_app. right.
          apply list_elem_of_lookup. eauto. }
        apply list_elem_of_lookup in Hin as [k' Ek'].
        exists (ops ++ [TimerFires k' now]).
        rewrite run_app, issuedIDs_app, length_app.
        cbn [run fold_left exec issuedIDs length]. rewrite Ek'.
        cbn [registry sleeping world]. unfold timers. cbn [unlocked world sleeping].
        split; [rewrite Hr; reflexivity|]. split; [|lia].
        rewrite <- delete_app_r.
        apply (Permutation_delete_both _ _ _ _ (jobID, delay)).
        -- exact Hp.
        -- exact Ek'.
        -- unfold timers. rewrite lookup_app_r by lia.
           replace (length (unlocked s) + k - length (unlocked s))%nat with k by lia.
           exact Ek.
      * exists ops. destruct s as [w u]. auto.
Qed.

(** The [World] runs are the [Server] runs without a gap between unlock and
    [go]. *)
Lemma steps_prompt ops : forall w,
  steps {| world := w; unlocked := [] |} (prompt ops)
  = {| world := run w ops; unlocked := [] |}.
Proof.
  induction ops as [|op ops IH]; intros w; [reflexivity|].
  destruct op as [delayStr jobName now | k now];
    cbn [prompt flat_map app steps fold_left run].
  - change (step (step {| world := w; unlocked := [] |}
                    (Unlocks delayStr jobName now)) (Goes 0))
      with (step (step {| world := w; unlocked := [] |}
                    (Unlocks delayStr jobName now))
              (Goes (length (unlocked {| world := w; unlocked := [] |})))).
    rewrite unlock_then_go. apply IH.
  - apply IH.
Qed.

Lemma steps_PendingInv (xs : list Step) :
  Z.of_nat (jobsCreated initServer xs) <= GoInt.maxInt ->
  PendingInv (Z.of_nat (jobsCreated initServer xs))
             (allAsleep (steps initServer xs)).
Proof.
  intros Hroom. destruct (steps_refine xs) as (ops & Hr & Hp & Hn).
  rewrite <- Hn in *.
  pose proof (run_PendingInv ops 0 initWorld PendingInv_init ltac:(lia)) as Hinv.
  rewrite Z.add_0_l in Hinv.
  apply (PendingInv_perm _ (run initWorld ops)); [| |exact Hinv].
  - symmetry. exact Hr.
  - symmetry. exact Hp.
Qed.

(** X11.  One timer per job that still needs one, with the [go] statement
    as a step of its own.  Along any run of the server (of at most 2^63 - 1
    creates) every retained job not flagged completed has its timer, either
    asleep or about to be started by a handler that has released the lock;
    no job flagged completed has one; no two timers are for the same job;
    and a timer of a retained job carries that job's delay. *)
Theorem one_timer_per_pending_job (xs : list Step) :
  Z.of_nat (jobsCreated initServer xs) <= GoInt.maxInt ->
  (forall id e,
     history (registry (world (steps initServer xs))) !! id = Some e ->
     IsCompleted e = false ->
     (id, TotalDelaySecs e) ∈ timers (steps initServer xs)) /\
  (forall id e delay,
     history (registry (world (steps initServer xs))) !! id = Some e ->
     IsCompleted e = true ->
     (id, delay) ∉ timers (steps initServer xs)) /\
  NoDup (fst <$> timers (steps initServer xs)) /\
  (forall id delay e,
     (id, delay) ∈ timers (steps initServer xs) ->
     history (registry (world (steps initServer xs))) !! id = Some e ->
     delay = TotalDelaySecs e).
Proof.
  intros Hroom.
  destruct (steps_PendingInv xs Hroom) as [Ht Harmed Hdelay].
  cbn [allAsleep registry sleeping] in *.
  split; [exact Harmed|]. split; [|split; [exact (tinv_nodup _ _ Ht) | exact Hdelay]].
  intros id e delay He Hc Hin.
  apply (tinv_fired _ _ Ht id e He Hc).
  apply list_elem_of_fmap. exists (id, delay). auto.
Qed.

Lemma one_timer_per_pending_job_witness :
  ((1, 3) ∈ timers (steps initServer overtaken)) /\
  ((2, 4) ∉ timers (steps initServer overtaken)) /\
  sleeping (world (steps initServer overtaken)) = [].
Proof.
  destruct (one_timer_per_pending_job overtaken ltac:(vm_compute; discriminate))
    as (Harmed & Hfired & _).
  split; [|split; [|vm_compute; reflexivity]].
  - exact (Harmed 1 (mkDelayEntry 1 "a" 0 3 false None)
             ltac:(vm_compute; reflexivity) eq_refl).
  - exact (Hfired 2 (mkDelayEntry 2 "b" 1 4 true (Some (5 * Second))) 4
             ltac:(vm_compute; reflexivity) eq_refl).
Defined.

(** X21.  The two models of a run agree.  Whatever the moments at which
    the handlers execute their [go] statements, the registry of the server
    is the registry of a run in which every timer is asleep as soon as its
    job is stored, with as many jobs created and the same timers up to
    their order; and every such run is the run of the server in which each
    handler executes its [go] statement right after its unlock. *)
Theorem server_and_world_runs :
  (forall xs, exists ops,
     registry (run initWorld ops) = registry (world (steps initServer xs)) /\
     sleeping (run initWorld ops) ≡ₚ timers (steps initServer xs) /\
     length (issuedIDs initWorld ops) = jobsCreated initServer xs) /\
  (forall ops,
     steps initServer (prompt ops)
     = {| world := run initWorld ops; unlocked := [] |}).
Proof.
  split; [exact steps_refine | intros ops; apply steps_prompt].
Qed.

End ServerFacts.

(** ** More on status, eviction and the order of steps *)

Section Composition.

(** X15.  As time advances a status never goes back from "completed" to
    "in-progress", for any entry whatsoever. *)
Theorem status_never_reverts (entry : DelayEntry) (tSince tNow tSince' tNow' : Time) :
  tNow <= tNow' ->
  statusOf (getStatusDetails entry tSince tNow) = "completed"%string ->
  statusOf (getStatusDetails entry tSince' tNow') = "completed"%string.
Proof.
  intros Hle. unfold getStatusDetails, After.
  destruct (IsCompleted entry); cbn [orb]; [reflexivity|].
  set (E := Add (DateTimeAdded entry)
              (seconds_to_Duration (TotalDelaySecs entry))).
  destruct (Z.ltb_spec E tNow) as [H|H]; cbn [statusOf fst snd].
  - intros _. destruct (Z.ltb_spec E tNow'); [reflexivity | lia].
  - discriminate.
Qed.

Lemma status_never_reverts_witness :
  statusOf (getStatusDetails job5 0 (9 * Second)) = "completed"%string.
Proof.
  apply (status_never_reverts job5 0 (6 * Second) 0 (9 * Second)).
  - vm_compute. discriminate.
  - reflexivity.
Defined.

(** X20.  Reading the clock twice is harmless.  [getStatusDetails] reads
    the clock for the elapsed time and again for the test; as the second
    reading is not before the first, the result is the one a single reading
    gives: that of the second reading when the status is "completed", that
    of the first when it is "in-progress". *)
Theorem two_clock_readings_act_as_one (entry : DelayEntry) (tSince tNow : Time) :
  tSince <= tNow ->
  (statusOf (getStatusDetails entry tSince tNow) = "completed"%string /\
   getStatusDetails entry tSince tNow = getStatusDetails entry tNow tNow) \/
  (statusOf (getStatusDetails entry tSince tNow) = "in-progress"%string /\
   getStatusDetails entry tSince tNow = getStatusDetails entry tSince tSince).
Proof.
  intros Hle. unfold getStatusDetails, After.
  set (E := Add (DateTimeAdded entry)
              (seconds_to_Duration (TotalDelaySecs entry))).
  destruct (IsCompleted entry); cbn [orb]; [left; split; reflexivity|].
  destruct (Z.ltb_spec E tNow) as [H|H]; [left; split; reflexivity|].
  right. split; [reflexivity|].
  destruct (Z.ltb_spec E tSince); [lia | reflexivity].
Qed.

Lemma two_clock_readings_act_as_one_witness :
  getStatusDetails job5 (5 * Second - 1) (5 * Second + 1)
  = getStatusDetails job5 (5 * Second + 1) (5 * Second + 1).
Proof.
  destruct (two_clock_readings_act_as_one job5 (5 * Second - 1) (5 * Second + 1)
              ltac:(vm_compute; discriminate)) as [[_ H]|[H _]].
  - exact H.
  - vm_compute in H. discriminate H.
Defined.

(** X16.  Progress adds up and only grows.  For a job with a delay of at
    most [2^23] seconds read at or after its creation, the elapsed and the
    remaining seconds of the view are between 0 and the delay and sum to
    the delay; at later readings the elapsed seconds are not smaller and
    the remaining seconds not larger. *)
Theorem progress_adds_up_and_grows (entry : DelayEntry)
    (tSince tNow tSince' tNow' : Time) :
  1 <= TotalDelaySecs entry <= 2 ^ 23 ->
  DateTimeAdded entry <= tSince <= tNow ->
  tSince <= tSince' <= tNow' -> tNow <= tNow' ->
  0 <= Api.ElapsedTimeSecs (apiResponse entry tSince tNow) <= TotalDelaySecs entry /\
  Api.ElapsedTimeSecs (apiResponse entry tSince tNow)
  + Api.RemainingTimeSecs (apiResponse entry tSince tNow) = TotalDelaySecs entry /\
  Api.ElapsedTimeSecs (apiResponse entry tSince tNow)
  <= Api.ElapsedTimeSecs (apiResponse entry tSince' tNow') /\
  Api.RemainingTimeSecs (apiResponse entry tSince' tNow')
  <= Api.RemainingTimeSecs (apiResponse entry tSince tNow).
Proof.
  intros Hd Ht Ht' Hnow.
  assert (HS : 0 < Second) by reflexivity.
  assert (Hshape : forall a b,
            DateTimeAdded entry <= a <= b ->
            0 <= Api.ElapsedTimeSecs (apiResponse entry a b) <= TotalDelaySecs entry /\
            Api.ElapsedTimeSecs (apiResponse entry a b)
            + Api.RemainingTimeSecs (apiResponse entry a b) = TotalDelaySecs entry /\
            (Api.ElapsedTimeSecs (apiResponse entry a b) = TotalDelaySecs entry \/
             IsCompleted entry = false /\
             b <= DateTimeAdded entry + TotalDelaySecs entry * Second /\
             Api.ElapsedTimeSecs (apiResponse entry a b)
             = (a - DateTimeAdded entry) / Second)).
  { intros a b Hab.
    destruct (status_view_in_range entry a b Hd Hab) as [Hdone Hprog].
    destruct (IsCompleted entry) eqn:Ec.
    - destruct (Hdone (or_introl eq_refl)) as (_ & -> & ->). lia.
    - destruct (Z.lt_ge_cases
                  (DateTimeAdded entry + TotalDelaySecs entry * Second) b) as [Hl|Hg].
      + destruct (Hdone (or_intror Hl)) as (_ & -> & ->). lia.
      + destruct (Hprog eq_refl ltac:(lia)) as (_ & He & Hrem).
        rewrite He, Hrem.
        assert (0 <= (a - DateTimeAdded entry) / Second <= TotalDelaySecs entry).
        { split; [apply Z.div_pos; lia|].
          apply Z.div_le_upper_bound; lia. }
        split; [lia|]. split; [lia|]. right. split; [reflexivity|].
        split; [lia | reflexivity]. }
  destruct (Hshape tSince tNow Ht) as (R1 & S1 & C1).
  destruct (Hshape tSince' tNow' ltac:(lia)) as (R2 & S2 & C2).
  split; [exact R1|]. split; [exact S1|].
  assert (Hmono : Api.ElapsedTimeSecs (apiResponse entry tSince tNow)
                  <= Api.ElapsedTimeSecs (apiResponse entry tSince' tNow')).
  { destruct C2 as [E2|(Ec & Hb2 & E2)]; [lia|].
    destruct (status_view_in_range entry tSince tNow Hd Ht) as [_ Hprog].
    destruct (Hprog Ec ltac:(lia)) as (_ & He & _).
    rewrite He, E2. apply Z.div_le_mono; lia. }
  split; [exact Hmono | lia].
Qed.

Lemma progress_adds_up_and_grows_witness :
  Api.ElapsedTimeSecs (apiResponse job5 (2 * Second) (2 * Second))
  + Api.RemainingTimeSecs (apiResponse job5 (2 * Second) (2 * Second))
  = TotalDelaySecs job5.
Proof.
  apply (progress_adds_up_and_grows job5 (2 * Second) (2 * Second)
           (3 * Second) (3 * Second));
    vm_compute; try split; discriminate.
Defined.

Lemma keepHistoryBounded_loop_map order (h : gmap Z DelayEntry) id :
  snd (keepHistoryBounded_loop order h) !! id
  = if decide (id ∈ take (length order - Z.to_nat maxHistory) order)
    then None else h !! id.
Proof.
  revert h. induction order as [|x rest IH]; intros h.
  - cbn. destruct (decide (id ∈ [])) as [Hin|]; [inversion Hin | reflexivity].
  - cbn [keepHistoryBounded_loop].
    destruct (Z.ltb_spec maxHistory (Z.of_nat (length (x :: rest)))) as [Hgt|Hle].
    + rewrite IH. cbn [length] in *. unfold maxHistory in *.
      replace (S (length rest) - Z.to_nat 10)%nat
        with (S (length rest - Z.to_nat 10))%nat by lia.
      cbn [take].
      destruct (decide (id ∈ take (length rest - Z.to_nat 10) rest)) as [Hin|Hnin].
      * rewrite decide_True by (right; exact Hin). reflexivity.
      * destruct (decide (id = x)) as [->|Hne].
        -- rewrite decide_True by left. apply lookup_delete_eq.
        -- rewrite decide_False
             by (intros [?|?]%elem_of_cons; contradiction).
           apply lookup_delete_ne. congruence.
    + cbn [snd length] in *. unfold maxHistory in *.
      replace (S (length rest) - Z.to_nat 10)%nat with 0%nat by lia.
      cbn [take]. rewrite decide_False by (intros Hin; inversion Hin).
      reflexivity.
Qed.

(** X17.  On any state [keepHistoryBounded] keeps the last [maxHistory] IDs
    of the order (all of them when there are no more), leaves the ID
    counter alone, removes from the table exactly the entries of the IDs it
    dropped (also of one that occurs again further back in the order) and
    leaves every other entry as it is; bounding twice is bounding once. *)
Theorem keepHistoryBounded_drops_the_oldest (st : State) :
  historyOrder (keepHistoryBounded st) = mostRecent (historyOrder st) /\
  historyOrder st = evicted st ++ historyOrder (keepHistoryBounded st) /\
  (length (historyOrder (keepHistoryBounded st)) <= Z.to_nat maxHistory)%nat /\
  nextEntryID (keepHistoryBounded st) = nextEntryID st /\
  (forall id, id ∈ evicted st -> history (keepHistoryBounded st) !! id = None) /\
  (forall id, id ∉ evicted st ->
     history (keepHistoryBounded st) !! id = history st !! id) /\
  ((length (historyOrder st) <= Z.to_nat maxHistory)%nat ->
     keepHistoryBounded st = st) /\
  keepHistoryBounded (keepHistoryBounded st) = keepHistoryBounded st.
Proof.
  assert (Hord : historyOrder (keepHistoryBounded st) = mostRecent (historyOrder st)).
  { rewrite keepHistoryBounded_unfold. cbn [historyOrder].
    apply keepHistoryBounded_loop_order. }
  assert (Hmap : forall id, history (keepHistoryBounded st) !! id
                            = if decide (id ∈ evicted st) then None
                              else history st !! id).
  { intros id. rewrite keepHistoryBounded_unfold. cbn [history].
    apply keepHistoryBounded_loop_map. }
  assert (Hshort : forall st', (length (historyOrder st') <= Z.to_nat maxHistory)%nat ->
                               keepHistoryBounded st' = st').
  { intros st' Hlen. unfold keepHistoryBounded.
    destruct (Z.leb_spec (Z.of_nat (length (historyOrder st'))) maxHistory);
      [reflexivity | unfold maxHistory in *; lia]. }
  split; [exact Hord|]. split; [|split; [apply keepHistoryBounded_length|]].
  - rewrite Hord. unfold evicted, mostRecent. symmetry. apply take_drop.
  - split; [rewrite keepHistoryBounded_unfold; reflexivity|].
    split; [|split; [|split]].
    + intros id Hin. rewrite Hmap, decide_True by exact Hin. reflexivity.
    + intros id Hnin. rewrite Hmap, decide_False by exact Hnin. reflexivity.
    + apply Hshort.
    + apply Hshort. apply keepHistoryBounded_length.
Qed.

Lemma keepHistoryBounded_drops_the_oldest_witness :
  historyOrder (keepHistoryBounded st_eleven) = [2; 3; 4; 5; 6; 7; 8; 9; 10; 11] /\
  history (keepHistoryBounded st_eleven) !! 1 = None /\
  history (keepHistoryBounded st_eleven) !! 11 = history st_eleven !! 11.
Proof.
  destruct (keepHistoryBounded_drops_the_oldest st_eleven)
    as (Hord & _ & _ & _ & Hgone & Hkept & _ & _).
  split; [rewrite Hord; vm_compute; reflexivity|]. split.
  - apply Hgone. vm_compute. left.
  - apply Hkept. vm_compute. intros H. apply list_elem_of_singleton in H. discriminate.
Defined.

(** [runTimer] alters the entry under the ID, if there is one. *)
Lemma runTimer_alter st jobID now :
  runTimer st jobID now
  = {| history := alter (completedAt now) jobID (history st);
       historyOrder := historyOrder st;
       nextEntryID := nextEntryID st |}.
Proof.
  unfold runTimer. destruct (history st !! jobID) as [e|] eqn:He.
  - f_equal. apply map_eq. intros id.
    rewrite lookup_insert, lookup_alter.
    destruct (decide (jobID = id)) as [->|]; [rewrite He|]; reflexivity.
  - destruct st as [h o nx]. cbn [history historyOrder nextEntryID] in *.
    f_equal. apply map_eq. intros id. rewrite lookup_alter.
    destruct (decide (jobID = id)) as [->|]; [rewrite He|]; reflexivity.
Qed.

(** A create and a completion fire for another ID commute on any state. *)
Lemma createEntry_runTimer_commute st jobID t jobName delay now :
  jobID <> nextEntryID st ->
  createEntry (runTimer st jobID t) jobName delay now
  = (runTimer (fst (createEntry st jobName delay now)) jobID t,
     snd (createEntry st jobName delay now)).
Proof.
  intros Hne. rewrite !runTimer_alter. unfold createEntry.
  rewrite !keepHistoryBounded_unfold. unfold insertEntry.
  cbn [fst snd history historyOrder nextEntryID].
  rewrite !keepHistoryBounded_loop_order.
  f_equal. f_equal. apply map_eq. intros id.
  rewrite keepHistoryBounded_loop_map, lookup_alter, !keepHistoryBounded_loop_map.
  set (dropped := take (length (historyOrder st ++ [nextEntryID st])
                        - Z.to_nat maxHistory)
                       (historyOrder st ++ [nextEntryID st])).
  destruct (decide (id ∈ dropped)) as [Hin|Hnin].
  - destruct (decide (jobID = id)) as [->|]; [|reflexivity].
    rewrite decide_True by exact Hin. reflexivity.
  - destruct (decide (jobID = id)) as [->|Hj].
    + rewrite decide_False by exact Hnin.
      rewrite !lookup_insert_ne by congruence.
      apply lookup_alter_eq.
    + destruct (decide (id = nextEntryID st)) as [->|Hn].
      * rewrite !lookup_insert_eq. reflexivity.
      * rewrite !lookup_insert_ne by congruence.
        apply lookup_alter_ne. exact Hj.
Qed.

Lemma delete_app_lt {A} (l : list A) (x : A) (k : nat) :
  (k < length l)%nat -> delete k (l ++ [x]) = delete k l ++ [x].
Proof.
  intros Hk. rewrite !delete_take_drop.
  rewrite take_app_le, drop_app_le by lia. rewrite app_assoc. reflexivity.
Qed.

Lemma completedAt_twice t t' (x : option DelayEntry) :
  completedAt t <$> (completedAt t' <$> x) = completedAt t <$> x.
Proof. destruct x as [e|]; reflexivity. Qed.

(** The table after a completion. *)
Lemma runTimer_history st jobID now id :
  history (runTimer st jobID now) !! id
  = if decide (jobID = id) then completedAt now <$> history st !! id
    else history st !! id.
Proof.
  rewrite runTimer_alter. cbn [history]. rewrite lookup_alter.
  destruct (decide (jobID = id)) as [->|]; reflexivity.
Qed.

(** With a reading tied to each job the two completions commute as state
    transformers. *)
Lemma runTimer_swap (st : State) (a b : Z) (ta tb : Time) :
  a <> b ->
  runTimer (runTimer st a ta) b tb = runTimer (runTimer st b tb) a ta.
Proof.
  intros Hab. rewrite !runTimer_alter. cbn [history historyOrder nextEntryID].
  f_equal. apply map_eq. intros id.
  destruct (decide (id = a)) as [->|Ha]; [|destruct (decide (id = b)) as [->|Hb]].
  - rewrite (lookup_alter_ne _ _ b a) by congruence.
    rewrite !lookup_alter_eq.
    rewrite (lookup_alter_ne _ _ b a) by congruence. reflexivity.
  - rewrite (lookup_alter_ne _ _ a b) by congruence.
    rewrite !lookup_alter_eq.
    rewrite (lookup_alter_ne _ _ a b) by congruence. reflexivity.
  - rewrite !lookup_alter_ne by congruence. reflexivity.
Qed.

(** X18.  The order in which the timers of two different jobs take the
    lock shows in the completion times and nowhere else.  With [t1] the
    clock reading of the critical section that runs first and [t2] that of
    the second: order, counter and every other entry are the same either
    way (and untouched); the job whose timer went first is completed at
    [t1], the other at [t2]; the second lock order is the first with the
    two readings exchanged; and the two registries are equal exactly when
    [t1 = t2] or neither job is retained. *)
Theorem lock_order_of_two_fires (st : State) (a b : Z) (t1 t2 : Time) :
  a <> b ->
  let ab := runTimer (runTimer st a t1) b t2 in
  let ba := runTimer (runTimer st b t1) a t2 in
  historyOrder ab = historyOrder ba /\
  nextEntryID ab = nextEntryID ba /\
  (forall id, id <> a -> id <> b ->
     history ab !! id = history st !! id /\ history ba !! id = history st !! id) /\
  history ab !! a = completedAt t1 <$> history st !! a /\
  history ab !! b = completedAt t2 <$> history st !! b /\
  history ba !! b = completedAt t1 <$> history st !! b /\
  history ba !! a = completedAt t2 <$> history st !! a /\
  ba = runTimer (runTimer st a t2) b t1 /\
  (ab = ba <->
   t1 = t2 \/ (history st !! a = None /\ history st !! b = None)).
Proof.
  intros Hab ab ba.
  assert (Ha1 : history ab !! a = completedAt t1 <$> history st !! a).
  { unfold ab. rewrite !runTimer_history.
    rewrite decide_False by congruence. rewrite decide_True by reflexivity.
    reflexivity. }
  assert (Hb1 : history ab !! b = completedAt t2 <$> history st !! b).
  { unfold ab. rewrite !runTimer_history.
    rewrite decide_True by reflexivity. rewrite decide_False by congruence.
    reflexivity. }
  assert (Hb2 : history ba !! b = completedAt t1 <$> history st !! b).
  { unfold ba. rewrite !runTimer_history.
    rewrite decide_False by congruence. rewrite decide_True by reflexivity.
    reflexivity. }
  assert (Ha2 : history ba !! a = completedAt t2 <$> history st !! a).
  { unfold ba. rewrite !runTimer_history.
    rewrite decide_True by reflexivity. rewrite decide_False by congruence.
    reflexivity. }
  split; [unfold ab, ba; rewrite !runTimer_alter; reflexivity|].
  split; [unfold ab, ba; rewrite !runTimer_alter; reflexivity|].
  split.
  { intros id Hia Hib. unfold ab, ba. rewrite !runTimer_history.
    rewrite !decide_False by congruence. auto. }
  split; [exact Ha1|]. split; [exact Hb1|]. split; [exact Hb2|].
  split; [exact Ha2|].
  split; [unfold ba; apply runTimer_swap; congruence|].
  split.
  - intros Heq.
    destruct (history st !! a) as [ea|] eqn:Ea.
    + left. rewrite Heq, Ha2 in Ha1. cbn in Ha1. unfold completedAt in Ha1.
      congruence.
    + destruct (history st !! b) as [eb|] eqn:Eb; [|right; auto].
      left. rewrite Heq, Hb2 in Hb1. cbn in Hb1. unfold completedAt in Hb1.
      congruence.
  - intros [->|[Ea Eb]].
    + unfold ab, ba. apply runTimer_swap. exact Hab.
    + unfold ab, ba.
      rewrite (runTimer_absent st a t1 Ea), (runTimer_absent st b t2 Eb).
      rewrite (runTimer_absent st b t1 Eb), (runTimer_absent st a t2 Ea).
      reflexivity.
Qed.

Lemma lock_order_of_two_fires_witness :
  runTimer (runTimer (registry (run initWorld (posts 3))) 1 5) 3 9
  <> runTimer (runTimer (registry (run initWorld (posts 3))) 3 5) 1 9.
Proof.
  intros Heq.
  destruct (lock_order_of_two_fires (registry (run initWorld (posts 3))) 1 3 5 9
              ltac:(discriminate))
    as (_ & _ & _ & _ & _ & _ & _ & _ & Hiff).
  destruct (proj1 Hiff Heq) as [H|[H _]]; [discriminate H|].
  vm_compute in H. discriminate H.
Defined.

(** The clock reading of a create shows in the new entry only. *)
Lemma createEntry_other_time st jobName delay t t' :
  historyOrder (fst (createEntry st jobName delay t))
  = historyOrder (fst (createEntry st jobName delay t')) /\
  nextEntryID (fst (createEntry st jobName delay t))
  = nextEntryID (fst (createEntry st jobName delay t')) /\
  snd (createEntry st jobName delay t) = snd (createEntry st jobName delay t') /\
  forall id, id <> nextEntryID st ->
    history (fst (createEntry st jobName delay t)) !! id
    = history (fst (createEntry st jobName delay t')) !! id.
Proof.
  unfold createEntry. rewrite !keepHistoryBounded_unfold. unfold insertEntry.
  cbn [fst snd history historyOrder nextEntryID].
  rewrite !keepHistoryBounded_loop_order.
  split; [reflexivity|]. split; [reflexivity|]. split; [reflexivity|].
  intros id Hne. rewrite !keepHistoryBounded_loop_map.
  destruct (decide _); [reflexivity|].
  rewrite !lookup_insert_ne by congruence. reflexivity.
Qed.

(** With the same two clock readings a create and the wake-up of a timer
    already asleep commute as state transformers. *)
Lemma create_and_fire_swap n w (k : nat) (t : Time)
    (delayStr jobName : string) (now : Time) :
  TimersInv n w -> n + 1 <= GoInt.maxInt ->
  (k < length (sleeping w))%nat ->
  exec (exec w (TimerFires k t)) (PostStart delayStr jobName now)
  = exec (exec w (PostStart delayStr jobName now)) (TimerFires k t).
Proof.
  intros Hinv Hroom Hk.
  destruct (lookup_lt_is_Some_2 _ _ Hk) as [[jobID dl] Ek].
  assert (Hne : jobID <> nextEntryID (registry w)).
  { assert (Hin : jobID ∈ (sleeping w).*1).
    { apply list_elem_of_fmap. exists (jobID, dl). split; [reflexivity|].
      apply list_elem_of_lookup. eauto. }
    apply (tinv_issued _ _ Hinv) in Hin.
    pose proof (inv_count _ _ (tinv_registry _ _ Hinv)).
    rewrite (inv_next _ _ (tinv_registry _ _ Hinv)), wrap_id
      by (unfold GoInt.inRange, GoInt.minInt, GoInt.maxInt in *; lia).
    lia. }
  cbn [exec]. rewrite Ek. unfold startHandler_POST. cbn [registry sleeping].
  destruct (Strconv.Atoi delayStr) as [delay|]; cbn [fst];
    [|rewrite Ek; reflexivity].
  destruct (delay <? 1); cbn [fst]; [rewrite Ek; reflexivity|].
  rewrite (createEntry_runTimer_commute _ _ _ _ _ _ Hne).
  destruct (createEntry (registry w) jobName delay now) as [st' jobID'].
  cbn [fst snd registry sleeping].
  rewrite lookup_app_l by exact Hk. rewrite Ek.
  rewrite delete_app_lt by exact Hk. reflexivity.
Qed.

(** A POST followed by the wake-up of a timer that was already asleep. *)
Lemma post_then_fire w (k : nat) (jobID dl : Z) (delayStr jobName : string)
    (t t' : Time) :
  sleeping w !! k = Some (jobID, dl) ->
  exec (exec w (PostStart delayStr jobName t)) (TimerFires k t')
  = match Strconv.Atoi delayStr with
    | Some delay =>
        if delay <? 1
        then {| registry := runTimer (registry w) jobID t';
                sleeping := delete k (sleeping w) |}
        else {| registry :=
                  runTimer (fst (createEntry (registry w) jobName delay t)) jobID t';
                sleeping :=
                  delete k (sleeping w)
                  ++ [(snd (createEntry (registry w) jobName delay t), delay)] |}
    | None => {| registry := runTimer (registry w) jobID t';
                 sleeping := delete k (sleeping w) |}
    end.
Proof.
  intros Ek. pose proof (lookup_lt_Some _ _ _ Ek) as Hk.
  cbn [exec]. unfold startHandler_POST.
  destruct (Strconv.Atoi delayStr) as [delay|]; cbn [fst];
    [|rewrite Ek; reflexivity].
  destruct (delay <? 1); cbn [fst]; [rewrite Ek; reflexivity|].
  destruct (createEntry (registry w) jobName delay t) as [st' jobID'].
  cbn [fst snd registry sleeping].
  rewrite lookup_app_l by exact Hk. rewrite Ek.
  rewrite delete_app_lt by exact Hk. reflexivity.
Qed.

(** Two registries that agree except under [newID], each followed by the
    completion of another job [jobID] at a time of its own. *)
Lemma fire_on_similar (X1 X2 : State) (jobID newID : Z) (t1 t2 : Time) :
  jobID <> newID ->
  historyOrder X1 = historyOrder X2 -> nextEntryID X1 = nextEntryID X2 ->
  (forall id, id <> newID -> history X1 !! id = history X2 !! id) ->
  historyOrder (runTimer X1 jobID t2) = historyOrder (runTimer X2 jobID t1) /\
  nextEntryID (runTimer X1 jobID t2) = nextEntryID (runTimer X2 jobID t1) /\
  (forall id, id <> jobID -> id <> newID ->
     history (runTimer X1 jobID t2) !! id = history (runTimer X2 jobID t1) !! id) /\
  history (runTimer X2 jobID t1) !! jobID
  = completedAt t1 <$> history (runTimer X1 jobID t2) !! jobID /\
  history (runTimer X1 jobID t2) !! jobID
  = completedAt t2 <$> history (runTimer X2 jobID t1) !! jobID /\
  history (runTimer X1 jobID t2) !! newID = history X1 !! newID /\
  history (runTimer X2 jobID t1) !! newID = history X2 !! newID.
Proof.
  intros Hne Ho Hn Hl.
  split; [rewrite !runTimer_alter; exact Ho|].
  split; [rewrite !runTimer_alter; exact Hn|].
  split; [|split; [|split; [|split]]].
  - intros id H1 H2. rewrite !runTimer_history.
    rewrite !decide_False by congruence. apply Hl, H2.
  - rewrite !runTimer_history, !decide_True by reflexivity.
    rewrite completedAt_twice, (Hl jobID Hne). reflexivity.
  - rewrite !runTimer_history, !decide_True by reflexivity.
    rewrite completedAt_twice, (Hl jobID Hne). reflexivity.
  - rewrite runTimer_history, decide_False by exact Hne. reflexivity.
  - rewrite runTimer_history, decide_False by exact Hne. reflexivity.
Qed.

(** X19.  The order in which a POST and a timer already asleep take the
    lock shows in two timestamps and nowhere else.  On the world reached by
    any run (with room for one more ID below 2^63), with [t1] the clock
    reading of the critical section that runs first and [t2] that of the
    second: the sleeping timers, the order, the counter and every other
    entry are the same either way; the records of the fired job differ at
    most in the completion time ([t2] when the POST went first, [t1] when
    the timer did); the new job is stamped [t1] when the POST went first and
    [t2] otherwise, so that the two outcomes of a successful create are
    equal only if [t1 = t2]; the second lock order is the first with the
    two readings exchanged; with equal readings the outcomes are equal. *)
Theorem lock_order_of_create_and_fire (ops : list Op) (k : nat) (jobID dl : Z)
    (delayStr jobName : string) (t1 t2 : Time) :
  Z.of_nat (length (issuedIDs initWorld ops)) + 1 <= GoInt.maxInt ->
  sleeping (run initWorld ops) !! k = Some (jobID, dl) ->
  let w := run initWorld ops in
  let newID := nextEntryID (registry w) in
  let cf := exec (exec w (PostStart delayStr jobName t1)) (TimerFires k t2) in
  let fc := exec (exec w (TimerFires k t1)) (PostStart delayStr jobName t2) in
  sleeping cf = sleeping fc /\
  historyOrder (registry cf) = historyOrder (registry fc) /\
  nextEntryID (registry cf) = nextEntryID (registry fc) /\
  (forall id, id <> jobID -> id <> newID ->
     history (registry cf) !! id = history (registry fc) !! id) /\
  history (registry fc) !! jobID
  = completedAt t1 <$> history (registry cf) !! jobID /\
  history (registry cf) !! jobID
  = completedAt t2 <$> history (registry fc) !! jobID /\
  fc = exec (exec w (PostStart delayStr jobName t2)) (TimerFires k t1) /\
  (forall delay, Strconv.Atoi delayStr = Some delay -> 1 <= delay ->
     history (registry cf) !! newID
     = Some (mkDelayEntry newID jobName t1 delay false None) /\
     history (registry fc) !! newID
     = Some (mkDelayEntry newID jobName t2 delay false None) /\
     (cf = fc -> t1 = t2)) /\
  (t1 = t2 -> cf = fc).
Proof.
  intros Hroom Ek w newID cf fc.
  pose proof (run_TimersInv ops 0 initWorld TimersInv_init ltac:(lia)) as Hinv.
  rewrite Z.add_0_l in Hinv. fold w in Hinv, Ek.
  set (n := Z.of_nat (length (issuedIDs initWorld ops))) in *.
  pose proof (tinv_registry _ _ Hinv) as Hreg.
  pose proof (inv_count _ _ Hreg) as Hn.
  assert (Hnew : newID = 1 + n).
  { unfold newID. rewrite (inv_next _ _ Hreg). apply wrap_id.
    unfold GoInt.inRange, GoInt.minInt, GoInt.maxInt in *. lia. }
  assert (Hne : jobID <> newID).
  { assert (Hin : jobID ∈ (sleeping w).*1).
    { apply list_elem_of_fmap. exists (jobID, dl). split; [reflexivity|].
      apply list_elem_of_lookup. eauto. }
    apply (tinv_issued _ _ Hinv) in Hin. lia. }
  assert (Hfc : fc = exec (exec w (PostStart delayStr jobName t2)) (TimerFires k t1)).
  { unfold fc. apply (create_and_fire_swap n); [exact Hinv | lia |].
    exact (lookup_lt_Some _ _ _ Ek). }
  assert (Hsame : t1 = t2 -> cf = fc) by (intros <-; rewrite Hfc; reflexivity).
  clearbody fc. subst fc. unfold cf in *. clear cf.
  rewrite !(post_then_fire w k jobID dl delayStr jobName _ _ Ek) in *.
  destruct (Strconv.Atoi delayStr) as [delay|] eqn:Ea.
  2:{ cbn [registry sleeping].
      destruct (fire_on_similar (registry w) (registry w) jobID newID t1 t2 Hne
                  eq_refl eq_refl (fun _ _ => eq_refl))
        as (H1 & H2 & H3 & H4 & H5 & _).
      split; [reflexivity|]. split; [exact H1|]. split; [exact H2|].
      split; [exact H3|]. split; [exact H4|]. split; [exact H5|].
      split; [reflexivity|]. split; [discriminate | exact Hsame]. }
  destruct (Z.ltb_spec delay 1) as [Hlt|Hge].
  { cbn [registry sleeping].
    destruct (fire_on_similar (registry w) (registry w) jobID newID t1 t2 Hne
                eq_refl eq_refl (fun _ _ => eq_refl))
      as (H1 & H2 & H3 & H4 & H5 & _).
    split; [reflexivity|]. split; [exact H1|]. split; [exact H2|].
    split; [exact H3|]. split; [exact H4|]. split; [exact H5|].
    split; [reflexivity|]. split; [|exact Hsame].
    intros delay' [= <-] Hd. lia. }
  cbn [registry sleeping].
  destruct (createEntry_other_time (registry w) jobName delay t1 t2)
    as (Ho & Hnx & Hid & Hl).
  destruct (fire_on_similar _ _ jobID newID t1 t2 Hne Ho Hnx Hl)
    as (H1 & H2 & H3 & H4 & H5 & H6 & H7).
  destruct (createEntry_inv n (registry w) jobName delay t1 Hreg) as (_ & _ & _ & E1).
  destruct (createEntry_inv n (registry w) jobName delay t2 Hreg) as (_ & _ & _ & E2).
  rewrite <- (inv_next _ _ Hreg) in E1, E2. fold newID in E1, E2.
  split; [rewrite Hid; reflexivity|]. split; [exact H1|]. split; [exact H2|].
  split; [exact H3|]. split; [exact H4|]. split; [exact H5|].
  split; [reflexivity|]. split; [|exact Hsame].
  intros delay' [= <-] _.
  rewrite H6, H7, E1, E2. split; [reflexivity|]. split; [reflexivity|].
  intros Heq. apply (f_equal (fun x => history (registry x) !! newID)) in Heq.
  cbn [registry] in Heq. rewrite H6, H7, E1, E2 in Heq. congruence.
Qed.

Lemma lock_order_of_create_and_fire_witness :
  exec (exec (run initWorld (posts 12)) (PostStart "4" "nap" 9)) (TimerFires 3 10)
  <> exec (exec (run initWorld (posts 12)) (TimerFires 3 9)) (PostStart "4" "nap" 10).
Proof.
  intros Heq.
  destruct (lock_order_of_create_and_fire (posts 12) 3 4 3 "4" "nap" 9 10
              ltac:(vm_compute; discriminate) ltac:(vm_compute; reflexivity))
    as (_ & _ & _ & _ & _ & _ & _ & Hnew & _).
  destruct (Hnew 4 ltac:(vm_compute; reflexivity) ltac:(lia)) as (_ & _ & Hdiff).
  specialize (Hdiff Heq). discriminate Hdiff.
Defined.

End Composition.
